(** * Verification of the design-example catalog aggregator

    Shallow embedding of [.github/get_predefined_de/main.py]: the Python
    string and JSON operations the tool relies on, its regular expression,
    its logging / file / HTTP effects as an explicit state-and-exception
    monad, and the tool's functions in source order; and, in the module
    [json_validator], of [.github/json_validator.py].  Theorems follow
    the definitions.

    What the model takes from outside the tool: the network answers a
    request by its URL and headers, the same way each time; a file holds
    the JSON value it parses to, and a file written by [json.dump] parses
    back to the value written; JSON numbers are integers; the command
    line carries no option. *)

From stdpp Require Import base option list strings gmap.
From Stdlib Require Import ZArith String Ascii.

Local Open Scope string_scope.
Local Open Scope list_scope.
Local Open Scope Z_scope.
Local Open Scope stdpp_scope.

Set Warnings "-register-all".

(* ================================================================== *)
(** * Part I: definitions *)
(* ================================================================== *)

(** ** Python [str] operations

    A Python [str] is modelled by its UTF-8 bytes.  Every separator,
    pattern and character class used by the tool is ASCII, and no byte of
    a multi-byte UTF-8 sequence is an ASCII byte, so searching, splitting
    and replacing agree on bytes and on code points. *)

Definition dquote : ascii := "034"%char.

(** The text [s] between two double-quote characters. *)
Definition quoted (s : string) : string :=
  String dquote (s +:+ String dquote "").

(** [sub in s] *)
Fixpoint str_contains (sub s : string) : bool :=
  String.prefix sub s ||
  match s with
  | "" => false
  | String _ s' => str_contains sub s'
  end.

(** [s[n:]] *)
Fixpoint str_drop (n : nat) (s : string) : string :=
  match n, s with
  | S n', String _ s' => str_drop n' s'
  | _, _ => s
  end.

(** The text before and after the first occurrence of [sep] in [s]. *)
Fixpoint str_cut (sep s : string) : option (string * string) :=
  if String.prefix sep s then Some ("", str_drop (String.length sep) s)
  else match s with
       | "" => None
       | String c s' =>
           match str_cut sep s' with
           | Some (a, b) => Some (String c a, b)
           | None => None
           end
       end.

(** [s.split(sep, 1)] for a non-empty [sep]. *)
Definition str_split1 (sep s : string) : list string :=
  match str_cut sep s with
  | Some (a, b) => [a; b]
  | None => [s]
  end.

(** [l[-1]] on the (never empty) result of a split. *)
Definition last_part (l : list string) : string := List.last l "".

(** [s.replace(old, new)] for a non-empty [old]: [skip] counts the
    characters of the occurrence just replaced that are still to be
    passed over. *)
Fixpoint str_replace_from (old new : string) (skip : nat) (s : string) : string :=
  match s with
  | "" => ""
  | String c s' =>
      match skip with
      | S n => str_replace_from old new n s'
      | O =>
          if String.prefix old s
          then new +:+ str_replace_from old new (Nat.pred (String.length old)) s'
          else String c (str_replace_from old new O s')
      end
  end.

(** [new] before every character and at the end: what
    [s.replace("", new)] gives. *)
Fixpoint str_intersperse (new s : string) : string :=
  match s with
  | "" => new
  | String c s' => new +:+ String c (str_intersperse new s')
  end.

Definition str_replace (old new s : string) : string :=
  match old with
  | "" => str_intersperse new s
  | _ => str_replace_from old new O s
  end.

(** [s.lstrip(chars)] with the character set given as a predicate. *)
Fixpoint str_lstrip (p : ascii -> bool) (s : string) : string :=
  match s with
  | String c s' => if p c then str_lstrip p s' else s
  | "" => ""
  end.

(** [s.split(c)] for a one-character separator. *)
Fixpoint str_split_chr (c : ascii) (s : string) : list string :=
  match s with
  | "" => [""]
  | String a s' =>
      if Ascii.eqb a c then "" :: str_split_chr c s'
      else match str_split_chr c s' with
           | h :: t => String a h :: t
           | [] => [String a ""]
           end
  end.

Fixpoint str_concat (l : list string) : string :=
  match l with
  | [] => ""
  | s :: l' => s +:+ str_concat l'
  end.

(** ** The fragment of Python's [re] the tool uses

    A pattern is a sequence of literals and greedy repetitions of a
    one-character class, one of which may be a capture group.  Matching
    is by backtracking, longest repetition first, as in [re]. *)

Inductive cclass :=
| Exactly (c : ascii)
| AnyBut (c : ascii).

Definition cclass_match (cl : cclass) (c : ascii) : bool :=
  match cl with
  | Exactly d => Ascii.eqb c d
  | AnyBut d => negb (Ascii.eqb c d)
  end.

Inductive ratom :=
| Lit (s : string)
| Star (cl : cclass)
| Plus (cl : cclass).

Inductive rtok :=
| Plain (a : ratom)
| Group (a : ratom).

Definition rtok_atom (t : rtok) : ratom :=
  match t with Plain a | Group a => a end.

Definition rtok_is_group (t : rtok) : bool :=
  match t with Plain _ => false | Group _ => true end.

(** A successful match: the text consumed by each token, in order, with
    the capture flag of the token. *)
Definition re_match := list (bool * string).

(** [match.group(0)] *)
Definition group0 (m : re_match) : string := str_concat (map snd m).

(** [match.group(1)] *)
Fixpoint group1 (m : re_match) : string :=
  match m with
  | [] => ""
  | (true, s) :: _ => s
  | (false, _) :: m' => group1 m'
  end.

Fixpoint str_strip_prefix (p s : string) : option string :=
  match p, s with
  | "", _ => Some s
  | String a p', String b s' =>
      if Ascii.eqb a b then str_strip_prefix p' s' else None
  | String _ _, "" => None
  end.

(** Greedy [cl*] followed by the continuation [k]: take as many
    characters as possible, give one back at a time while [k] fails. *)
Fixpoint re_star (cl : cclass) (k : string -> option re_match) (s : string)
  : option (string * re_match) :=
  let stop := match k s with Some m => Some ("", m) | None => None end in
  match s with
  | String c s' =>
      if cclass_match cl c then
        match re_star cl k s' with
        | Some (t, m) => Some (String c t, m)
        | None => stop
        end
      else stop
  | "" => stop
  end.

(** Match the token sequence at the beginning of [s]. *)
Fixpoint re_match_here (p : list rtok) (s : string) : option re_match :=
  match p with
  | [] => Some []
  | t :: p' =>
      let g := rtok_is_group t in
      match rtok_atom t with
      | Lit l =>
          match str_strip_prefix l s with
          | Some s' =>
              match re_match_here p' s' with
              | Some m => Some ((g, l) :: m)
              | None => None
              end
          | None => None
          end
      | Star cl =>
          match re_star cl (re_match_here p') s with
          | Some (t, m) => Some ((g, t) :: m)
          | None => None
          end
      | Plus cl =>
          match s with
          | String c s' =>
              if cclass_match cl c then
                match re_star cl (re_match_here p') s' with
                | Some (t, m) => Some ((g, String c t) :: m)
                | None => None
                end
              else None
          | "" => None
          end
      end
  end.

(** [re.sub(p, repl, s)] with a callable [repl], for a pattern that
    never matches the empty string: the leftmost match is replaced and
    the scan resumes after it.  [skip] counts the characters of the last
    match still to be passed over. *)
Fixpoint re_sub_from (p : list rtok) (repl : re_match -> string)
    (skip : nat) (s : string) : string :=
  match s with
  | "" => ""
  | String c s' =>
      match skip with
      | S n => re_sub_from p repl n s'
      | O =>
          match re_match_here p s with
          | Some m =>
              repl m +:+ re_sub_from p repl (Nat.pred (String.length (group0 m))) s'
          | None => String c (re_sub_from p repl O s')
          end
      end
  end.

Definition re_sub (p : list rtok) (repl : re_match -> string) (s : string) : string :=
  re_sub_from p repl O s.

(** ** Image URL rewriting *)

Definition is_github (url : string) : bool := str_contains "github.com" url.

Definition convert_to_raw_github_url (github_url : string) : string :=
  let parts := last_part (str_split1 "github.com/" github_url) in
  let parts := last_part (str_split1 "@" parts) in
  let parts := str_replace "blob/" "" parts in
  "https://raw.githubusercontent.com/" +:+ parts.

(** [img_pattern], the raw string [<img [^>]*src=Q([^Q]+)Q[^>]*>] in
    which Q stands for the double-quote character. *)
Definition img_pattern : list rtok :=
  [ Plain (Lit "<img ");
    Plain (Star (AnyBut ">"));
    Plain (Lit ("src=" +:+ String dquote ""));
    Group (Plus (AnyBut dquote));
    Plain (Lit (String dquote ""));
    Plain (Star (AnyBut ">"));
    Plain (Lit ">") ].

Definition replace_with_raw (repo_url : string) (m : re_match) : string :=
  let img_url := group1 m in
  if is_github img_url && str_contains repo_url img_url then
    let raw_img_url := convert_to_raw_github_url img_url in
    str_replace img_url raw_img_url (group0 m)
  else group0 m.

Definition use_raw_image_url (rich_description repo_url : string) : string :=
  re_sub img_pattern (replace_with_raw repo_url) rich_description.

(** ** JSON values as Python objects

    What [json.load] returns: [None], [bool], [int], [str], [list] and
    [dict].  A dict keeps its keys in insertion order and holds each key
    once; it is an association list.  Numbers are integers: the catalog
    carries no fractional value the tool looks at. *)

Inductive json :=
| JNull
| JBool (b : bool)
| JNum (n : Z)
| JStr (s : string)
| JArr (l : list json)
| JObj (kvs : list (string * json)).

(** [d.get(k)] *)
Fixpoint dict_get (k : string) (kvs : list (string * json)) : option json :=
  match kvs with
  | [] => None
  | (k', v) :: kvs' => if String.eqb k k' then Some v else dict_get k kvs'
  end.

(** [d[k] = v]: an existing key keeps its place, a new one goes last. *)
Fixpoint dict_set (k : string) (v : json) (kvs : list (string * json))
  : list (string * json) :=
  match kvs with
  | [] => [(k, v)]
  | (k', v') :: kvs' =>
      if String.eqb k k' then (k', v) :: kvs' else (k', v') :: dict_set k v kvs'
  end.

(** [{**a, **b}] *)
Definition dict_merge (a b : list (string * json)) : list (string * json) :=
  fold_left (fun acc kv => dict_set (fst kv) (snd kv) acc) b a.

(** Python's [==] on these values: [True == 1] and [False == 0], lists
    compare element by element, dicts compare as finite maps whatever the
    key order. *)
Fixpoint py_eq (a b : json) {struct a} : bool :=
  match a, b with
  | JNull, JNull => true
  | JBool x, JBool y => Bool.eqb x y
  | JBool x, JNum n => Z.eqb (Z.b2z x) n
  | JNum n, JBool x => Z.eqb n (Z.b2z x)
  | JNum n, JNum m => Z.eqb n m
  | JStr s, JStr t => String.eqb s t
  | JArr l, JArr l' =>
      (fix go (l l' : list json) {struct l} : bool :=
         match l, l' with
         | [], [] => true
         | x :: l1, y :: l1' => py_eq x y && go l1 l1'
         | _, _ => false
         end) l l'
  | JObj kvs, JObj kvs' =>
      Nat.eqb (List.length kvs) (List.length kvs') &&
      (fix go (kvs : list (string * json)) {struct kvs} : bool :=
         match kvs with
         | [] => true
         | (k, v) :: kvs1 =>
             match dict_get k kvs' with
             | Some w => py_eq v w
             | None => false
             end && go kvs1
         end) kvs
  | _, _ => false
  end.

(** [bool(v)] *)
Definition py_truthy (v : json) : bool :=
  match v with
  | JNull => false
  | JBool b => b
  | JNum n => negb (Z.eqb n 0)
  | JStr s => negb (String.eqb s "")
  | JArr l => match l with [] => false | _ => true end
  | JObj kvs => match kvs with [] => false | _ => true end
  end.

(** Keys of well-formed dicts are pairwise distinct, at every depth. *)
Fixpoint wf_json (v : json) : Prop :=
  match v with
  | JArr l =>
      (fix all (l : list json) : Prop :=
         match l with
         | [] => True
         | x :: l' => wf_json x /\ all l'
         end) l
  | JObj kvs =>
      NoDup (map fst kvs) /\
      (fix all (kvs : list (string * json)) : Prop :=
         match kvs with
         | [] => True
         | (_, x) :: kvs' => wf_json x /\ all kvs'
         end) kvs
  | _ => True
  end.

(** ** Exceptions and outcomes *)

Inductive exn :=
| KeyError
| TypeError
| AttributeError
| ValueError
| JSONDecodeError            (* json.JSONDecodeError *)
| RequestException           (* transport and HTTP-status errors of requests *)
| RequestsJSONDecodeError    (* requests.exceptions.JSONDecodeError *)
| FileNotFoundError
| OSError
| SystemExit (code : Z).

(** [except Exception]: everything but [SystemExit]. *)
Definition is_Exception (e : exn) : bool :=
  match e with SystemExit _ => false | _ => true end.

(** [except requests.exceptions.RequestException] *)
Definition is_RequestException (e : exn) : bool :=
  match e with RequestException | RequestsJSONDecodeError => true | _ => false end.

(** [except json.JSONDecodeError] *)
Definition is_JSONDecodeError (e : exn) : bool :=
  match e with JSONDecodeError | RequestsJSONDecodeError => true | _ => false end.

(** [except FileNotFoundError] *)
Definition is_FileNotFoundError (e : exn) : bool :=
  match e with FileNotFoundError => true | _ => false end.

Inductive outcome (A : Type) :=
| Ok (a : A)
| Raise (e : exn).
Arguments Ok {A} a.
Arguments Raise {A} e.

(** ** Python operators on JSON values, with the exceptions they raise *)

(** [k in v] for a string [k] *)
Definition py_contains (k : string) (v : json) : outcome bool :=
  match v with
  | JObj kvs => Ok (bool_decide (is_Some (dict_get k kvs)))
  | JArr l => Ok (existsb (py_eq (JStr k)) l)
  | JStr s => Ok (str_contains k s)
  | JNull | JBool _ | JNum _ => Raise TypeError
  end.

(** [v[k]] for a string [k] *)
Definition py_getitem (v : json) (k : string) : outcome json :=
  match v with
  | JObj kvs =>
      match dict_get k kvs with
      | Some x => Ok x
      | None => Raise KeyError
      end
  | _ => Raise TypeError
  end.

(** [v[k] = x] for a string [k] *)
Definition py_setitem (v : json) (k : string) (x : json) : outcome json :=
  match v with
  | JObj kvs => Ok (JObj (dict_set k x kvs))
  | _ => Raise TypeError
  end.

(** The elements [for x in v] walks through: the items of a list, the
    keys of a dict, the characters of a string (one per byte here). *)
Definition py_iter (v : json) : outcome (list json) :=
  match v with
  | JArr l => Ok l
  | JObj kvs => Ok (map (fun kv => JStr (fst kv)) kvs)
  | JStr s => Ok (map (fun c => JStr (String c "")) (list_ascii_of_string s))
  | JNull | JBool _ | JNum _ => Raise TypeError
  end.

(** [hash(v)] is defined: a dict key must be hashable. *)
Definition py_hashable (v : json) : outcome unit :=
  match v with
  | JArr _ | JObj _ => Raise TypeError
  | _ => Ok tt
  end.

(** A dict whose keys are arbitrary hashable JSON values. *)
Fixpoint jdict_get (k : json) (d : list (json * json)) : option json :=
  match d with
  | [] => None
  | (k', v) :: d' => if py_eq k k' then Some v else jdict_get k d'
  end.

Fixpoint jdict_set (k v : json) (d : list (json * json)) : list (json * json) :=
  match d with
  | [] => [(k, v)]
  | (k', v') :: d' =>
      if py_eq k k' then (k', v) :: d' else (k', v') :: jdict_set k v d'
  end.

(** ** The world the tool runs in

    The network is an oracle from requests to results; the file system
    maps absolute paths to file contents, a content being the JSON value
    it parses to or text that is not JSON; the root logger has a level
    and handlers.  Everything the run does to the outside is appended to
    a trace of events. *)

Definition headers := list (string * string).

Fixpoint headers_set (k v : string) (h : headers) : headers :=
  match h with
  | [] => [(k, v)]
  | (k', v') :: h' =>
      if String.eqb k k' then (k', v) :: h' else (k', v') :: headers_set k v h'
  end.

Record http_response := {
  resp_status : Z;
  resp_json : option json   (* the body parsed as JSON, if it is JSON *)
}.

Inductive http_result :=
| HttpFails
| HttpReplies (r : http_response).

Inductive file_data :=
| FileJson (v : json)
| FileText.

Inductive handler :=
| StreamHandler
| ExitOnExceptionHandler.

Inductive event :=
| EvGet (url : string) (h : headers)
| EvLog (level : Z) (msg : string) (args : list json)
| EvWrite (path : string) (content : json).

Record world := {
  w_http : string -> headers -> http_result;
  w_files : gmap string file_data;
  w_readonly : string -> bool;
  w_cwd : string;
  w_handlers : list handler;
  w_level : Z;
  w_events : list event
}.

Definition set_files (f : gmap string file_data) (w : world) : world :=
  {| w_http := w_http w; w_files := f; w_readonly := w_readonly w;
     w_cwd := w_cwd w; w_handlers := w_handlers w; w_level := w_level w;
     w_events := w_events w |}.

Definition set_logging (hs : list handler) (lvl : Z) (w : world) : world :=
  {| w_http := w_http w; w_files := w_files w; w_readonly := w_readonly w;
     w_cwd := w_cwd w; w_handlers := hs; w_level := lvl;
     w_events := w_events w |}.

Definition add_event (e : event) (w : world) : world :=
  {| w_http := w_http w; w_files := w_files w; w_readonly := w_readonly w;
     w_cwd := w_cwd w; w_handlers := w_handlers w; w_level := w_level w;
     w_events := w_events w ++ [e] |}.

(** ** Computations: state passing with exceptions *)

Definition M (A : Type) : Type := world -> outcome A * world.

Definition ret {A} (a : A) : M A := fun w => (Ok a, w).

Definition raise {A} (e : exn) : M A := fun w => (Raise e, w).

Definition bind {A B} (m : M A) (k : A -> M B) : M B :=
  fun w =>
    match m w with
    | (Ok a, w') => k a w'
    | (Raise e, w') => (Raise e, w')
    end.

Declare Scope py_scope.
Delimit Scope py_scope with py.
Notation "x <- m ;; k" := (bind m (fun x => k))
  (at level 100, m at next level, right associativity) : py_scope.
Notation "m ;; k" := (bind m (fun _ => k))
  (at level 100, right associativity) : py_scope.
Local Open Scope py_scope.

Definition lift {A} (o : outcome A) : M A := fun w => (o, w).

(** [try: body / except <catches>: handler] *)
Definition try_except {A} (body : M A) (catches : exn -> bool)
    (handler : exn -> M A) : M A :=
  fun w =>
    match body w with
    | (Raise e, w') => if catches e then handler e w' else (Raise e, w')
    | r => r
    end.

Fixpoint mapM {A B} (f : A -> M B) (l : list A) : M (list B) :=
  match l with
  | [] => ret []
  | x :: l' => y <- f x ;; ys <- mapM f l' ;; ret (y :: ys)
  end.

Fixpoint foldM {A S} (f : S -> A -> M S) (l : list A) (s : S) : M S :=
  match l with
  | [] => ret s
  | x :: l' => s' <- f s x ;; foldM f l' s'
  end.

(** ** Logging *)

Definition INFO : Z := 20.
Definition WARNING : Z := 30.
Definition ERROR : Z := 40.
Definition CRITICAL : Z := 50.

(** [ExitOnExceptionHandler.emit]: write the record, then leave the
    process on an ERROR or CRITICAL record.  A plain [StreamHandler] only
    writes. *)
Definition emit (h : handler) (level : Z) (msg : string) (args : list json)
  : M unit :=
  fun w =>
    let w' := add_event (EvLog level msg args) w in
    match h with
    | StreamHandler => (Ok tt, w')
    | ExitOnExceptionHandler =>
        if (level =? ERROR) || (level =? CRITICAL)
        then (Raise (SystemExit (-1)), w')
        else (Ok tt, w')
    end.

Fixpoint call_handlers (hs : list handler) (level : Z) (msg : string)
    (args : list json) : M unit :=
  match hs with
  | [] => ret tt
  | h :: hs' => emit h level msg args ;; call_handlers hs' level msg args
  end.

(** [logging.log(level, msg)] on the root logger: a logger without
    handlers gets a [StreamHandler] first; a record below the logger's
    level is dropped.  [args] are the values the message interpolates;
    the text of a caught exception, written [{e}], is not modelled. *)
Definition logging_log (level : Z) (msg : string) (args : list json) : M unit :=
  fun w =>
    let w1 := match w_handlers w with
              | [] => set_logging [StreamHandler] (w_level w) w
              | _ => w
              end in
    if level <? w_level w1 then (Ok tt, w1)
    else call_handlers (w_handlers w1) level msg args w1.

Definition logging_info := logging_log INFO.
Definition logging_warning := logging_log WARNING.
Definition logging_error := logging_log ERROR.

(** [logging.basicConfig(level=INFO, handlers=[ExitOnExceptionHandler()])]
    does nothing when the root logger already has handlers. *)
Definition initialize_logging : M unit :=
  fun w =>
    match w_handlers w with
    | [] => (Ok tt, set_logging [ExitOnExceptionHandler] INFO w)
    | _ => (Ok tt, w)
    end.

Definition close_logging : M unit :=
  fun w => (Ok tt, set_logging [] (w_level w) w).

(** ** Files *)

(** [os.path.join(a, b)] on POSIX *)
Definition os_path_join2 (a b : string) : string :=
  if String.prefix "/" b then b
  else if String.eqb a "" || str_contains "/" (str_drop (Nat.pred (String.length a)) a)
       then a +:+ b
       else a +:+ "/" +:+ b.

Definition os_path_join (a : string) (ps : list string) : string :=
  fold_left os_path_join2 ps a.

Definition os_getcwd : M string := fun w => (Ok (w_cwd w), w).

(** A path as the file system sees it: relative paths start at the
    working directory. *)
Definition abspath (w : world) (p : string) : string :=
  os_path_join2 (w_cwd w) p.

Definition os_path_exists (p : string) : M bool :=
  fun w => (Ok (bool_decide (is_Some (w_files w !! abspath w p))), w).

(** [with open(p, "r") as file: json.load(file)] *)
Definition json_load_file (p : string) : M json :=
  fun w =>
    match w_files w !! abspath w p with
    | None => (Raise FileNotFoundError, w)
    | Some FileText => (Raise JSONDecodeError, w)
    | Some (FileJson v) => (Ok v, w)
    end.

(** [os.makedirs] of the directory, [open(p, "w")] and [json.dump]:
    fails with [OSError] where the file system refuses the write. *)
Definition json_dump_file (p : string) (content : json) : M unit :=
  fun w =>
    if w_readonly w (abspath w p) then (Raise OSError, w)
    else (Ok tt,
          add_event (EvWrite (abspath w p) content)
            (set_files (<[abspath w p := FileJson content]> (w_files w)) w)).

(** ** HTTP *)

(** [requests.get(url, headers=headers)]: a URL that is not a string is
    refused before anything is sent. *)
Definition requests_get (url : json) (h : headers) : M http_response :=
  match url with
  | JStr u =>
      fun w =>
        let w' := add_event (EvGet u h) w in
        match w_http w u h with
        | HttpFails => (Raise RequestException, w')
        | HttpReplies r => (Ok r, w')
        end
  | _ => raise RequestException
  end.

Definition raise_for_status (r : http_response) : M unit :=
  if (400 <=? resp_status r) && (resp_status r <? 600)
  then raise RequestException else ret tt.

(** [response.json()]: its decoding error is a [RequestException]
    (requests 2.27 and later). *)
Definition response_json (r : http_response) : M json :=
  match resp_json r with
  | Some v => ret v
  | None => raise RequestsJSONDecodeError
  end.

(** [json.loads(response.text, strict=False)] *)
Definition json_loads_text (r : http_response) : M json :=
  match resp_json r with
  | Some v => ret v
  | None => raise JSONDecodeError
  end.

(** ** [urllib.parse.urlparse]

    The standard library's splitting of a URL, as far as the tool needs
    it: the path, and the host for statements about hosts.  A host with
    unbalanced square brackets is a [ValueError]; the further checks of
    bracketed and of non-ASCII hosts are not modelled. *)

Definition is_c0_or_space (c : ascii) : bool := (nat_of_ascii c <=? 32)%nat.

Definition is_unsafe_url_byte (c : ascii) : bool :=
  Ascii.eqb c "009" || Ascii.eqb c "010" || Ascii.eqb c "013".

Fixpoint str_filter (p : ascii -> bool) (s : string) : string :=
  match s with
  | "" => ""
  | String c s' => if p c then String c (str_filter p s') else str_filter p s'
  end.

Fixpoint str_forall (p : ascii -> bool) (s : string) : bool :=
  match s with
  | "" => true
  | String c s' => p c && str_forall p s'
  end.

Definition is_ascii_alpha (c : ascii) : bool :=
  let n := nat_of_ascii c in
  ((65 <=? n) && (n <=? 90) || (97 <=? n) && (n <=? 122))%nat.

Definition is_ascii_digit (c : ascii) : bool :=
  let n := nat_of_ascii c in ((48 <=? n) && (n <=? 57))%nat.

Definition is_scheme_char (c : ascii) : bool :=
  is_ascii_alpha c || is_ascii_digit c ||
  Ascii.eqb c "+" || Ascii.eqb c "-" || Ascii.eqb c ".".

Definition ascii_lower (c : ascii) : ascii :=
  let n := nat_of_ascii c in
  if ((65 <=? n) && (n <=? 90))%nat then ascii_of_nat (n + 32) else c.

Fixpoint str_lower (s : string) : string :=
  match s with
  | "" => ""
  | String c s' => String (ascii_lower c) (str_lower s')
  end.

(** The text before the first character satisfying [p], and the text
    from that character on. *)
Fixpoint str_span_until (p : ascii -> bool) (s : string) : string * string :=
  match s with
  | "" => ("", "")
  | String c s' =>
      if p c then ("", s)
      else let (a, b) := str_span_until p s' in (String c a, b)
  end.

Definition uses_params : list string :=
  [ ""; "ftp"; "hdl"; "prospero"; "http"; "imap"; "https"; "shttp";
    "rtsp"; "rtspu"; "sip"; "sips"; "mms"; "sftp"; "tel" ].

(** [_splitparams(url)[0]]: cut at the first semicolon after the last
    slash. *)
Fixpoint path_strip_params (s : string) : string :=
  match s with
  | "" => ""
  | String c s' =>
      if str_contains "/" s' then String c (path_strip_params s')
      else if Ascii.eqb c ";" then ""
      else String c (path_strip_params s')
  end.

Record url_parts := {
  u_scheme : string;
  u_netloc : string;
  u_path : string
}.

Definition urlparse (url : string) : outcome url_parts :=
  let url := str_lstrip is_c0_or_space url in
  let url := str_filter (fun c => negb (is_unsafe_url_byte c)) url in
  let (scheme, url) :=
    match str_cut ":" url with
    | Some (String c0 rest as pre, post) =>
        if is_ascii_alpha c0 && str_forall is_scheme_char pre
        then (str_lower pre, post)
        else ("", url)
    | _ => ("", url)
    end in
  let (netloc, url) :=
    if String.prefix "//" url then
      str_span_until
        (fun c => Ascii.eqb c "/" || Ascii.eqb c "?" || Ascii.eqb c "#")
        (str_drop 2 url)
    else ("", url) in
  if xorb (str_contains "[" netloc) (str_contains "]" netloc)
  then Raise ValueError
  else
    let url := fst (str_span_until (fun c => Ascii.eqb c "#") url) in
    let url := fst (str_span_until (fun c => Ascii.eqb c "?") url) in
    let url :=
      if bool_decide (scheme ∈ uses_params) && str_contains ";" url
      then path_strip_params url else url in
    Ok {| u_scheme := scheme; u_netloc := netloc; u_path := url |}.

(** [urlparse(url).hostname], never [None] here: the empty string stands
    for a missing host. *)
Definition url_hostname (url : string) : outcome string :=
  match urlparse url with
  | Raise e => Raise e
  | Ok parts =>
      let hostinfo :=
        last_part (str_split_chr "@" (u_netloc parts)) in
      let host :=
        match str_cut "[" hostinfo with
        | Some (_, bracketed) => fst (str_span_until (fun c => Ascii.eqb c "]") bracketed)
        | None => fst (str_span_until (fun c => Ascii.eqb c ":") hostinfo)
        end in
      Ok (str_lower host)
  end.

(** ** The tool: [main.py], in source order *)

Definition LIST_JSON : string := "list.json".
Definition CONTROLLER_JSON : string := "controller.json".
Definition PREDEFINED_URL_FILE : string := "predefined_url.json".

Record options := {
  output : string;
  controller : string
}.

Record url_detail := {
  url : string;
  hdrs : headers;
  repo_owner : string;
  repo_name : string
}.

(** [len(v)], written into log messages (for a string the model counts
    bytes). *)
Definition py_len (v : json) : outcome json :=
  match v with
  | JArr l => Ok (JNum (Z.of_nat (List.length l)))
  | JObj kvs => Ok (JNum (Z.of_nat (List.length kvs)))
  | JStr s => Ok (JNum (Z.of_nat (String.length s)))
  | JNull | JBool _ | JNum _ => Raise TypeError
  end.

Definition metadata_formatize (metadata : list json) : json :=
  JObj [("num", JNum (Z.of_nat (List.length metadata)));
        ("designs", JArr metadata)].

Definition write_to_file (output_path : string) (content : json) : M unit :=
  try_except
    (json_dump_file output_path content ;;
     logging_info "Successfully wrote content to {}." [JStr output_path])
    is_Exception
    (fun _ => logging_error "Failed to write to file {}: {e}" [JStr output_path]).

(** [{**content, **controller_content}] needs two mappings. *)
Definition dict_display_merge (content controller_content : json) : outcome json :=
  match content, controller_content with
  | JObj a, JObj b => Ok (JObj (dict_merge a b))
  | _, _ => Raise TypeError
  end.

Definition add_controller (opts : options) (content : json) : M json :=
  present <- os_path_exists (controller opts) ;;
  if present : bool then
    controller_content <- json_load_file (controller opts) ;;
    lift (dict_display_merge content controller_content)
  else
    logging_info "Controller not found." [] ;;
    ret content.

(** The [try] statement of [replace_if_diff]: compare with the file and
    write on a difference. *)
Definition compare_and_write (opts : options) (all_list_json : json) : M unit :=
  try_except
    (present <- os_path_exists (output opts) ;;
     if present : bool then
       existing_content <- json_load_file (output opts) ;;
       if py_eq existing_content all_list_json then
         logging_info
           "The content of {} is up-to-date. No changes are required. Exiting."
           [JStr (output opts)]
       else
         logging_info
           "Differences detected between the existing file and the generated content." [] ;;
         write_to_file (output opts) all_list_json
     else
       logging_info "The file {} does not exist. Creating a new file..."
         [JStr (output opts)] ;;
       write_to_file (output opts) all_list_json)
    is_Exception
    (fun _ =>
       logging_error "An error occurred while verifying the file {}: {e}"
         [JStr (output opts)]).

Definition replace_if_diff (opts : options) (all_list_json : json) : M unit :=
  logging_info "----------------------------------------" [] ;;
  logging_info "Checking the content of {} for updates..." [JStr (output opts)] ;;
  all_list_json <- add_controller opts all_list_json ;;
  compare_and_write opts all_list_json.

Definition get_design_examples_list (data : json) : M json :=
  has_data <- lift (py_contains "data" data) ;;
  if has_data : bool then
    inner <- lift (py_getitem data "data") ;;
    has_designs <- lift (py_contains "designs" inner) ;;
    if has_designs : bool then
      inner <- lift (py_getitem data "data") ;;
      lift (py_getitem inner "designs")
    else ret data
  else
    has_designs <- lift (py_contains "designs" data) ;;
    if has_designs : bool then lift (py_getitem data "designs")
    else
      logging_warning "The data format is invalid: {}. Skipping this entry..." [data] ;;
      ret (JArr []).

Definition releases_url (owner name : string) : string :=
  "https://api.github.com/repos/" +:+ owner +:+ "/" +:+ name +:+ "/releases".

(** Returns [None] when the failure was logged and logging did not end
    the process. *)
Definition fetch_github_releases (owner name : string) (h : headers) : M json :=
  try_except
    (response <- requests_get (JStr (releases_url owner name)) h ;;
     raise_for_status response ;;
     response_json response)
    is_RequestException
    (fun _ =>
       logging_error "Failed to fetch releases for repository {}/{}. Error: {e}"
         [JStr owner; JStr name] ;;
       ret JNull).

(** [release.get("assets", [])] *)
Definition py_get_default (v : json) (k : string) (d : json) : outcome json :=
  match v with
  | JObj kvs => Ok (default d (dict_get k kvs))
  | _ => Raise AttributeError
  end.

(** What the loop over the assets of one release carries along: the
    asset index, the item list read so far, and the request headers of
    the source, which the loop updates in place. *)
Record asset_state := {
  design_package_maps : list (json * json);
  list_json_by_release : json;
  cur_headers : headers
}.

Definition process_asset (release : json) (st : asset_state) (asset : json)
  : M asset_state :=
  has_name <- lift (py_contains "name" asset) ;;
  if has_name : bool then
    asset_url <- lift (py_getitem asset "url") ;;
    asset_name <- lift (py_getitem asset "name") ;;
    lift (py_hashable asset_name) ;;
    let maps := jdict_set asset_name asset_url (design_package_maps st) in
    if py_eq asset_name (JStr LIST_JSON) then
      let h := headers_set "Accept" "application/octet-stream" (cur_headers st) in
      by_release <-
        try_except
          (list_json_response <- requests_get asset_url h ;;
           raise_for_status list_json_response ;;
           data <- response_json list_json_response ;;
           get_design_examples_list data)
          is_RequestException
          (fun _ =>
             tag <- lift (py_getitem release "tag_name") ;;
             logging_error "Unable to fetch list.json from release '{}': {e}" [tag] ;;
             ret (list_json_by_release st)) ;;
      ret {| design_package_maps := maps;
             list_json_by_release := by_release;
             cur_headers := h |}
    else
      ret {| design_package_maps := maps;
             list_json_by_release := list_json_by_release st;
             cur_headers := cur_headers st |}
  else
    logging_error "Missing 'name' field in asset: {}" [asset] ;;
    ret st.

(** The body of the loop over the items of a release; the item is
    updated in place, so the list read from the release holds the result. *)
Definition enrich_item (d : url_detail) (release : json)
    (maps : list (json * json)) (item : json) : M json :=
  download <- lift (py_getitem item "downloadUrl") ;;
  lift (py_hashable download) ;;
  item <-
    match jdict_get download maps with
    | Some asset_url => lift (py_setitem item "Q_DOWNLOAD_URL" asset_url)
    | None =>
        tag <- lift (py_getitem release "tag_name") ;;
        logging_warning "Missing asset {} in release {}" [download; tag] ;;
        lift (py_setitem item "Q_DOWNLOAD_URL" (JStr ""))
    end ;;
  tag <- lift (py_getitem release "tag_name") ;;
  item <- lift (py_setitem item "Q_GITHUB_RELEASE" tag) ;;
  rich <- lift (py_getitem item "rich_description") ;;
  match rich with
  | JStr text =>
      lift (py_setitem item "rich_description"
              (JStr (use_raw_image_url text (repo_owner d +:+ "/" +:+ repo_name d))))
  | _ => raise TypeError
  end.

(** One turn of the loop over releases, from the items gathered and the
    headers so far. *)
Definition process_release (d : url_detail) (acc : list json * headers)
    (release : json) : M (list json * headers) :=
  assets <- lift (py_get_default release "assets" (JArr [])) ;;
  asset_list <- lift (py_iter assets) ;;
  st <- foldM (process_asset release) asset_list
          {| design_package_maps := [];
             list_json_by_release := JArr [];
             cur_headers := snd acc |} ;;
  if py_truthy (list_json_by_release st) then
    n <- lift (py_len (list_json_by_release st)) ;;
    tag <- lift (py_getitem release "tag_name") ;;
    logging_info "Found {} design examples in release '{}'" [n; tag] ;;
    items <- lift (py_iter (list_json_by_release st)) ;;
    enriched <- mapM (enrich_item d release (design_package_maps st)) items ;;
    ret (fst acc ++ enriched, cur_headers st)
  else
    tag <- lift (py_getitem release "tag_name") ;;
    logging_warning "Unable to read list.json in release '{}'. Skipping..." [tag] ;;
    ret (fst acc, cur_headers st).

Definition process_github_url (d : url_detail) : M (list json) :=
  releases <- fetch_github_releases (repo_owner d) (repo_name d) (hdrs d) ;;
  release_list <- lift (py_iter releases) ;;
  acc <- foldM (process_release d) release_list ([], hdrs d) ;;
  let list_json := fst acc in
  match list_json with
  | [] =>
      logging_error "Unable to read any list.json in URL {}" [JStr (url d)] ;;
      ret list_json
  | _ => ret list_json
  end.

(** [{**item, "Q_DOWNLOAD_URL": item["downloadUrl"]}] *)
Definition with_download_url (item : json) : M json :=
  match item with
  | JObj kvs =>
      download <- lift (py_getitem item "downloadUrl") ;;
      ret (JObj (dict_set "Q_DOWNLOAD_URL" download kvs))
  | _ => raise TypeError
  end.

Definition process_non_github_url (d : url_detail) : M (list json) :=
  try_except
    (response <- requests_get (JStr (url d)) (hdrs d) ;;
     try_except
       (data <- json_loads_text response ;;
        list_json_by_url <- get_design_examples_list data ;;
        if py_truthy list_json_by_url then
          n <- lift (py_len list_json_by_url) ;;
          logging_info "Found {} design examples in this non GitHub URL" [n] ;;
          items <- lift (py_iter list_json_by_url) ;;
          mapM with_download_url items
        else
          logging_error "Unable to find any design examples in URL {}" [JStr (url d)] ;;
          ret [])
       is_JSONDecodeError
       (fun _ =>
          logging_error "URL {} did not return a valid JSON response." [JStr (url d)] ;;
          ret []))
    is_RequestException
    (fun _ =>
       logging_error "Failed to fetch URL {}: {e}" [JStr (url d)] ;;
       ret []).

(** Owner and name from the path of a URL. *)
Definition repo_of_path (path : string) : string * string :=
  let path_parts := str_split_chr "/" (str_lstrip (Ascii.eqb "/") path) in
  if (2 <=? List.length path_parts)%nat
  then (nth 0 path_parts "", nth 1 path_parts "")
  else ("", "").

(** [urlparse] of a value that is not a string fails: on a false value
    when the path is stripped, on any other when it is decoded. *)
Definition extract_url_detail (u : json) : outcome url_detail :=
  match u with
  | JStr u =>
      match urlparse u with
      | Raise e => Raise e
      | Ok parsed_url =>
          let (owner, name) := repo_of_path (u_path parsed_url) in
          Ok {| url := u; hdrs := []; repo_owner := owner; repo_name := name |}
      end
  | _ => Raise (if py_truthy u then AttributeError else TypeError)
  end.

Fixpoint extract_url_details (urls : list json) : outcome (list url_detail) :=
  match urls with
  | [] => Ok []
  | u :: urls' =>
      match extract_url_detail u with
      | Raise e => Raise e
      | Ok d =>
          match extract_url_details urls' with
          | Raise e => Raise e
          | Ok ds => Ok (d :: ds)
          end
      end
  end.

Definition get_legacy_predefined_url : list json :=
  [JStr "https://bsas.intel.com/api/design_examples/latest/"].

(** The loop over the configuration entries: the URLs appended so far
    stay in the list when an entry raises. *)
Fixpoint collect_urls (items : list json) (predefined_urls : list json)
  : list json * outcome unit :=
  match items with
  | [] => (predefined_urls, Ok tt)
  | item :: items' =>
      match py_contains "url" item with
      | Raise e => (predefined_urls, Raise e)
      | Ok false => collect_urls items' predefined_urls
      | Ok true =>
          match py_getitem item "url" with
          | Raise e => (predefined_urls, Raise e)
          | Ok u => collect_urls items' (predefined_urls ++ [u])
          end
      end
  end.

Definition get_predefined_url : M (list json) :=
  let predefined_urls := get_legacy_predefined_url in
  let on_error (e : exn) (urls : list json) : M (list json) :=
    if is_FileNotFoundError e then
      logging_error "File not found: {}" [JStr PREDEFINED_URL_FILE] ;; ret urls
    else if is_JSONDecodeError e then
      logging_error "Failed to decode JSON from file {}: {e}" [JStr PREDEFINED_URL_FILE] ;;
      ret urls
    else if is_Exception e then
      logging_error "An unexpected error occurred while reading the file {}: {e}"
        [JStr PREDEFINED_URL_FILE] ;;
      ret urls
    else raise e in
  fun w =>
    match json_load_file PREDEFINED_URL_FILE w with
    | (Raise e, w') => on_error e predefined_urls w'
    | (Ok data, w') =>
        match py_iter data with
        | Raise e => on_error e predefined_urls w'
        | Ok items =>
            match collect_urls items predefined_urls with
            | (urls, Ok _) => (Ok urls, w')
            | (urls, Raise e) => on_error e urls w'
            end
        end
    end.

(** The loop of [get_unique_urls]: [temp_list] holds the URLs seen. *)
Fixpoint unique_from (temp_list : list string) (url_details : list url_detail)
  : list url_detail :=
  match url_details with
  | [] => []
  | item :: rest =>
      if bool_decide (url item ∈ temp_list) then unique_from temp_list rest
      else item :: unique_from (temp_list ++ [url item]) rest
  end.

Definition get_unique_urls (url_details : list url_detail) : list url_detail :=
  unique_from [] url_details.

(** Which fetcher a source goes to. *)
Definition process_url (d : url_detail) : M (list json) :=
  if is_github (url d) then process_github_url d else process_non_github_url d.

(** One turn of the loop over the sources. *)
Definition process_source (all_list_json : list json) (d : url_detail)
  : M (list json) :=
  logging_info "----------------------------------------" [] ;;
  logging_info "Processing URL {}" [JStr (url d)] ;;
  list_json <- process_url d ;;
  list_json <- mapM (fun item => lift (py_setitem item "Q_VALIDATED" (JBool true)))
                 list_json ;;
  ret (all_list_json ++ list_json).

(** Everything up to the end of the loop: the items of all sources. *)
Definition aggregate : M (list json) :=
  predefined_urls <- get_predefined_url ;;
  url_details <- lift (extract_url_details predefined_urls) ;;
  let url_details := get_unique_urls url_details in
  foldM process_source url_details [].

Definition get_design_examples (opts : options) : M unit :=
  all_list_json <- aggregate ;;
  logging_info "----------------------------------------" [] ;;
  match all_list_json with
  | _ :: _ =>
      logging_info "Consolidating all list.json files into '{}'..." [JStr (output opts)] ;;
      logging_info "Total consolidated design examples: {}"
        [JNum (Z.of_nat (List.length all_list_json))] ;;
      replace_if_diff opts (metadata_formatize all_list_json)
  | [] => logging_error "No list.json files were found." []
  end.

Definition check_prerequisite : M options :=
  cwd <- os_getcwd ;;
  ret {| output := os_path_join cwd ["catalog"; LIST_JSON];
         controller := os_path_join cwd [".github"; "get_predefined_de"; CONTROLLER_JSON] |}.

(** [main] once the command line is parsed: the tool takes no option of
    its own. *)
Definition main : M unit :=
  initialize_logging ;;
  opts <- check_prerequisite ;;
  get_design_examples opts ;;
  close_logging.

(** ** Vocabulary of the statements *)

Definition is_write (e : event) : bool :=
  match e with EvWrite _ _ => true | _ => false end.

(** [w'] is [w] after a computation that only logged and sent requests:
    same network and files, a trace longer by events that are no writes,
    and the logging configuration kept once handlers are installed. *)
Definition quiet (w w' : world) : Prop :=
  w_http w' = w_http w /\ w_files w' = w_files w /\
  w_readonly w' = w_readonly w /\ w_cwd w' = w_cwd w /\
  w_level w' = w_level w /\
  (w_handlers w <> [] -> w_handlers w' = w_handlers w) /\
  exists evs, w_events w' = w_events w ++ evs /\ Forall (fun e => is_write e = false) evs.

Definition read_only {A} (m : M A) : Prop := forall w, quiet w (snd (m w)).

(** The first thing [m] does to the outside is [e]. *)
Definition starts_with {A} (e : event) (m : M A) : Prop :=
  forall w, exists evs, w_events (snd (m w)) = w_events w ++ e :: evs.

(** The logging configuration [initialize_logging] installs in a fresh
    process. *)
Definition exit_on_error (w : world) : Prop :=
  w_handlers w = [ExitOnExceptionHandler] /\ w_level w = INFO.

(** A list of URL strings without its repeated entries, the first
    occurrence of each kept: what a deduplicated configuration holds. *)
Fixpoint unique_strings_from (seen : list string) (us : list string) : list string :=
  match us with
  | [] => []
  | u :: rest =>
      if bool_decide (u ∈ seen) then unique_strings_from seen rest
      else u :: unique_strings_from (seen ++ [u]) rest
  end.

Definition unique_strings (us : list string) : list string :=
  unique_strings_from [] us.

(** The segments of a path that are not empty. *)
Definition nonempty_segments (path : string) : list string :=
  filter (fun s => s <> "") (str_split_chr "/" path).

(** Between [w] and [w'] a file was written. *)
Definition performs_write (w w' : world) : Prop :=
  exists evs, w_events w' = w_events w ++ evs /\ Exists (fun e => is_write e = true) evs.

(** Between [w] and [w'] the content [c] was written to [p], and
    nothing else was written. *)
Definition written (p : string) (c : json) (w w' : world) : Prop :=
  w_http w' = w_http w /\ w_files w' = <[p := FileJson c]> (w_files w) /\
  w_readonly w' = w_readonly w /\ w_cwd w' = w_cwd w /\
  exists pre post,
    w_events w' = w_events w ++ pre ++ EvWrite p c :: post /\
    Forall (fun e => is_write e = false) pre /\
    Forall (fun e => is_write e = false) post.

(** The items gathered from all sources when the loop of a run ends;
    none when the run ends before the loop does. *)
Definition aggregated_items (w : world) : list json :=
  match (initialize_logging ;; aggregate) w with
  | (Ok items, _) => items
  | (Raise _, _) => []
  end.

(** ** Worlds and inputs of the examples *)

Definition example_options : options :=
  {| output := "/repo/catalog/list.json";
     controller := "/repo/.github/get_predefined_de/controller.json" |}.

(** A fresh process in [/repo]: no handler installed yet. *)
Definition example_world (http : string -> headers -> http_result)
    (files : gmap string file_data) : world :=
  {| w_http := http; w_files := files; w_readonly := fun _ => false;
     w_cwd := "/repo"; w_handlers := []; w_level := WARNING; w_events := [] |}.

Definition no_network : string -> headers -> http_result := fun _ _ => HttpFails.

Definition example_item : json :=
  JObj [("downloadUrl", JStr "https://example.org/pkg.zip");
        ("rich_description", JStr "A design example")].

Definition example_catalog : list (string * json) :=
  [("num", JNum 5); ("designs", JArr (replicate 5 example_item))].

Definition legacy_url : string := "https://bsas.intel.com/api/design_examples/latest/".



Definition status_ok (r : http_response) : Prop :=
  (400 <=? resp_status r) && (resp_status r <? 600) = false.



(** A configuration with a second source behind the legacy endpoint;
    the legacy endpoint is unreachable, the second source answers with
    one item. *)
Definition second_source_url : string := "https://example.org/designs.json".

Definition legacy_down_http (u : string) (h : headers) : http_result :=
  if String.eqb u second_source_url
  then HttpReplies {| resp_status := 200;
                      resp_json := Some (JObj [("designs", JArr [example_item])]) |}
  else HttpFails.

Definition legacy_down_world : world :=
  example_world legacy_down_http
    {[ "/repo/predefined_url.json" :=
         FileJson (JArr [JObj [("url", JStr second_source_url)]]) ]}.

(** A configuration without further sources whose legacy endpoint
    answers with an empty item list. *)
Definition empty_legacy_http (u : string) (h : headers) : http_result :=
  if String.eqb u legacy_url
  then HttpReplies {| resp_status := 200;
                      resp_json := Some (JObj [("designs", JArr [])]) |}
  else HttpFails.

Definition empty_legacy_world : world :=
  example_world empty_legacy_http {[ "/repo/predefined_url.json" := FileJson (JArr []) ]}.

(** The same configuration under a logger that only writes its records,
    as in a process that configured logging before the tool did. *)
Definition empty_legacy_plain_world : world :=
  set_logging [StreamHandler] INFO empty_legacy_world.

(** ** Image tags, as a specification *)

(** [s] has no character [c]. *)
Definition str_without (c : ascii) (s : string) : Prop :=
  str_forall (fun x => negb (Ascii.eqb x c)) s = true.

(** The pieces of an image tag: attributes free of [>], a source that
    is not empty and free of double quotes, more attributes free of [>]. *)
Definition img_tag_parts (before src after : string) : Prop :=
  str_without ">" before /\ src <> "" /\ str_without dquote src /\
  str_without ">" after.

(** The tag made of them: the text [<img ], the first attributes,
    [src=] and the source between double quotes, the other attributes
    and the closing [>]. *)
Definition img_tag_text (before src after : string) : string :=
  "<img " +:+ before +:+ "src=" +:+ quoted src +:+ after +:+ ">".

(** The image tag at the beginning of [s], its source and what follows
    it, as the pattern reads them.  The text may begin with a tag in
    more than one way, when [src=] and a quoted value occur more than
    once before the closing [>] (a second [src], a [data-src]): the
    pattern takes as many characters as it can before [src=], so the
    reading is the one whose first attributes are longest, and the
    source is the value of the last such [src=]. *)
Inductive img_tag_at (s : string) : string -> string -> string -> Prop :=
| img_tag_at_intro before src after rest :
    img_tag_parts before src after ->
    s = img_tag_text before src after +:+ rest ->
    (forall before' src' after' rest',
       img_tag_parts before' src' after' ->
       s = img_tag_text before' src' after' +:+ rest' ->
       (String.length before' <= String.length before)%nat) ->
    img_tag_at s (img_tag_text before src after) src rest.

(** An image tag begins [s]. *)
Definition starts_with_img_tag (s : string) : Prop :=
  exists tag src rest, img_tag_at s tag src rest.

(** What becomes of one image tag: when the source contains
    [github.com] and the repository id, every occurrence of the source
    in the tag gives way to the raw-content URL; otherwise the tag stays. *)
Definition rewrite_tag (repo_id tag src : string) : string :=
  if is_github src && str_contains repo_id src
  then str_replace src (convert_to_raw_github_url src) tag
  else tag.

(** [out] is [text] with its image tags rewritten, from left to right:
    a character at which no image tag begins is copied, an image tag is
    replaced by [rewrite_tag]. *)
Inductive rewritten (repo_id : string) : string -> string -> Prop :=
| rewritten_end : rewritten repo_id "" ""
| rewritten_copy c s out :
    ~ starts_with_img_tag (String c s) ->
    rewritten repo_id s out ->
    rewritten repo_id (String c s) (String c out)
| rewritten_tag s tag src rest out :
    img_tag_at s tag src rest ->
    rewritten repo_id rest out ->
    rewritten repo_id s (rewrite_tag repo_id tag src +:+ out).

(** [r] is what follows the first occurrence of [sep] in [s], or [s]
    itself when [sep] does not occur. *)
Definition after_first (sep s r : string) : Prop :=
  (exists a, s = a +:+ sep +:+ r /\
             forall a' b', s = a' +:+ sep +:+ b' ->
                           (String.length a <= String.length a')%nat) \/
  (str_contains sep s = false /\ r = s).

(** The pieces a match of the pattern consists of. *)
Definition atom_ok (a : ratom) (piece : string) : Prop :=
  match a with
  | Lit l => piece = l
  | Star cl => str_forall (cclass_match cl) piece = true
  | Plus cl => piece <> "" /\ str_forall (cclass_match cl) piece = true
  end.

Definition img (src : string) : string := "<img src=" +:+ quoted src +:+ ">".

(** ** Further vocabulary *)

(** No handler of the root logger ends the process. *)
Definition no_exit_handler (w : world) : Prop :=
  ExitOnExceptionHandler ∉ w_handlers w.

(** The release list of a source cannot be had: the request fails, is
    refused, or its answer is not JSON. *)
Definition releases_unavailable (w : world) (d : url_detail) : Prop :=
  match w_http w (releases_url (repo_owner d) (repo_name d)) (hdrs d) with
  | HttpFails => True
  | HttpReplies r => ~ status_ok r \/ resp_json r = None
  end.

(** An item as the non-GitHub fetcher returns it: an object whose
    [Q_DOWNLOAD_URL] is its [downloadUrl]. *)
Definition has_direct_download (item : json) : Prop :=
  exists kvs download,
    item = JObj kvs /\ dict_get "downloadUrl" kvs = Some download /\
    dict_get "Q_DOWNLOAD_URL" kvs = Some download.

(** A world whose only endpoint holds two items. *)
Definition two_items_http (u : string) (h : headers) : http_result :=
  if String.eqb u legacy_url
  then HttpReplies
         {| resp_status := 200;
            resp_json :=
              Some (JObj [("designs",
                           JArr [example_item;
                                 JObj [("downloadUrl", JStr "https://example.org/b.zip");
                                       ("rich_description", JStr "B")]])]) |}
  else HttpFails.

Definition two_items_world : world :=
  set_logging [ExitOnExceptionHandler] INFO
    (example_world two_items_http {[ "/repo/predefined_url.json" := FileJson (JArr []) ]}).

Definition legacy_detail : url_detail :=
  {| url := legacy_url; hdrs := []; repo_owner := "api"; repo_name := "design_examples" |}.


(** An item that names its package. *)
Definition has_download (item : json) : Prop :=
  exists kvs download, item = JObj kvs /\ dict_get "downloadUrl" kvs = Some download.

(** [{**item, "Q_DOWNLOAD_URL": item["downloadUrl"]}] as a function of
    an item that names its package. *)
Definition direct_item (item : json) : json :=
  match item with
  | JObj kvs =>
      match dict_get "downloadUrl" kvs with
      | Some download => JObj (dict_set "Q_DOWNLOAD_URL" download kvs)
      | None => item
      end
  | _ => item
  end.

(** [data] has one of the two accepted shapes and [l] is its item list:
    [{"data": {"designs": l}}] or [{"designs": l}]. *)
Definition carries_designs (data l : json) : Prop :=
  exists kvs, data = JObj kvs /\
    ((exists inner, dict_get "data" kvs = Some (JObj inner) /\
                    dict_get "designs" inner = Some l) \/
     (dict_get "data" kvs = None /\ dict_get "designs" kvs = Some l)).

(** A world whose only endpoint answers 404 with an item list in the
    body. *)
Definition not_found_http (u : string) (h : headers) : http_result :=
  if String.eqb u legacy_url
  then HttpReplies {| resp_status := 404;
                      resp_json := Some (JObj [("designs", JArr [example_item])]) |}
  else HttpFails.

Definition not_found_world : world :=
  set_logging [ExitOnExceptionHandler] INFO
    (example_world not_found_http {[ "/repo/predefined_url.json" := FileJson (JArr []) ]}).

(** A source on GitHub and one release of it. *)
Definition github_detail : url_detail :=
  {| url := "https://github.com/intel/designs"; hdrs := [];
     repo_owner := "intel"; repo_name := "designs" |}.

Definition release_v1 : json := JObj [("tag_name", JStr "v1")].

Definition package_item : list (string * json) :=
  [("downloadUrl", JStr "pkg.zip"); ("rich_description", JStr "A design example")].

Definition package_assets : list (json * json) :=
  [(JStr "pkg.zip", JStr "https://api.github.com/repos/intel/designs/releases/assets/1")].

(** A process whose root logger has a plain handler, as when the
    functions are called from a program that configured logging itself. *)
Definition plain_world (http : string -> headers -> http_result)
    (files : gmap string file_data) : world :=
  set_logging [StreamHandler] INFO (example_world http files).

(** An item as a fetcher returns it: an object that names its package
    and has a [Q_DOWNLOAD_URL]. *)
Definition fetched_item (item : json) : Prop :=
  exists kvs, item = JObj kvs /\ is_Some (dict_get "downloadUrl" kvs) /\
              is_Some (dict_get "Q_DOWNLOAD_URL" kvs).

(** An item as the catalog holds it: a fetched item marked as validated. *)
Definition catalog_item (item : json) : Prop :=
  exists kvs, item = JObj kvs /\ is_Some (dict_get "downloadUrl" kvs) /\
              is_Some (dict_get "Q_DOWNLOAD_URL" kvs) /\
              dict_get "Q_VALIDATED" kvs = Some (JBool true).

(** The items of an outcome, none for an exception. *)
Definition items_of (r : outcome (list json)) : list json :=
  match r with Ok l => l | Raise _ => [] end.

(** The [url] values of the configuration entries that have one, in the
    order of the file. *)
Definition configured_urls (items : list json) : list json :=
  omap (fun item => match item with
                    | JObj kvs => dict_get "url" kvs
                    | _ => None
                    end) items.

Definition is_object (v : json) : Prop := exists kvs, v = JObj kvs.

(** The configuration file cannot be used: it is missing, is not JSON,
    or holds a value a loop cannot walk through. *)
Definition configuration_unusable (w : world) : Prop :=
  match w_files w !! abspath w PREDEFINED_URL_FILE with
  | None | Some FileText => True
  | Some (FileJson v) => exists e, py_iter v = Raise e
  end.

(** Whatever [m] does, it writes no file, or writes [path] once and no
    other file. *)
Definition writes_only {A} (path : string) (m : M A) : Prop :=
  forall w, quiet w (snd (m w)) \/
            exists c, written (abspath w path) c w (snd (m w)).

(** Between [w] and [w'] no file changed and nothing was written, or the
    file [p] was written once and nothing else was. *)
Definition at_most_one_write (p : string) (w w' : world) : Prop :=
  (w_files w' = w_files w /\
   exists evs, w_events w' = w_events w ++ evs /\
               Forall (fun e => is_write e = false) evs) \/
  (exists c pre post,
     w_files w' = <[p := FileJson c]> (w_files w) /\
     w_events w' = w_events w ++ pre ++ EvWrite p c :: post /\
     Forall (fun e => is_write e = false) pre /\
     Forall (fun e => is_write e = false) post).

(** The path of the catalog of a run started in [w]. *)
Definition output_path (w : world) : string :=
  abspath w (os_path_join (w_cwd w) ["catalog"; LIST_JSON]).

Definition controller_path (w : world) : string :=
  abspath w (os_path_join (w_cwd w) [".github"; "get_predefined_de"; CONTROLLER_JSON]).

(** A world whose file system refuses every write. *)
Definition refusing_world (w : world) : world :=
  {| w_http := w_http w; w_files := w_files w; w_readonly := fun _ => true;
     w_cwd := w_cwd w; w_handlers := w_handlers w; w_level := w_level w;
     w_events := w_events w |}.

(** A world whose catalog file is not JSON, and one whose controller
    file holds a list. *)
Definition unreadable_output_world : world :=
  set_logging [ExitOnExceptionHandler] INFO
    (example_world no_network {[ "/repo/catalog/list.json" := FileText ]}).

Definition bad_controller_world : world :=
  set_logging [ExitOnExceptionHandler] INFO
    (example_world no_network
       {[ "/repo/.github/get_predefined_de/controller.json" := FileJson (JArr []) ]}).

(** As [writes_only], and a write is the last thing [m] does before it
    returns: an exception leaves [m] before anything is written. *)
Definition writes_last {A} (path : string) (m : M A) : Prop :=
  forall w, quiet w (snd (m w)) \/
            exists c a, written (abspath w path) c w (snd (m w)) /\ fst (m w) = Ok a.

(** The controller file is absent or holds a JSON object. *)
Definition controller_usable (f : option file_data) : Prop :=
  match f with
  | None | Some (FileJson (JObj _)) => True
  | _ => False
  end.

(** The catalog of the items [items] with the controller [f] applied. *)
Definition final_catalog (f : option file_data) (items : list json) : json :=
  match f with
  | Some (FileJson (JObj override)) =>
      JObj (dict_merge [("num", JNum (Z.of_nat (List.length items)));
                        ("designs", JArr items)] override)
  | _ => metadata_formatize items
  end.

(** The files after a run that found the catalog [c] to persist: as
    before when the output file holds an equal value, with the output
    file replaced otherwise. *)
Definition files_after_run (w : world) (c : json) : gmap string file_data :=
  match w_files w !! output_path w with
  | Some (FileJson existing) =>
      if py_eq existing c then w_files w
      else <[output_path w := FileJson c]> (w_files w)
  | _ => <[output_path w := FileJson c]> (w_files w)
  end.

(** A fresh process in the world of the two items. *)
Definition fresh_two_items_world : world :=
  example_world two_items_http {[ "/repo/predefined_url.json" := FileJson (JArr []) ]}.

(** No handler of the root logger ends the process, and there is one. *)
Definition plain_logger (w : world) : Prop :=
  w_handlers w <> [] /\ no_exit_handler w.

(** * The JSON validator ([json_validator.py])

    [jsonschema.validate] is a parameter of the model: it finds the
    instance valid, raises [ValidationError], or raises another
    exception (a schema that is no schema). *)
Module json_validator.

Inductive validation :=
| Valid
| ValidationError
| OtherError.

Definition DEBUG : Z := 10.

(** The [--data] and [--schema] options, the empty text when not given. *)
Record options := {
  json_data : string;
  json_schema : string
}.

(** [sys.exit(code)] *)
Definition sys_exit {A} (code : Z) : M A := raise (SystemExit code).

Definition read_json_file (file_path : string) : M json :=
  try_except
    (json_load_file file_path)
    (fun e => is_FileNotFoundError e || is_JSONDecodeError e)
    (fun e =>
       if is_FileNotFoundError e then
         logging_error "File not found: {}" [JStr file_path] ;;
         sys_exit 1
       else
         logging_error "Failed to decode JSON from file: {}. Error: {}"
           [JStr file_path] ;;
         sys_exit 1).

Definition validate_json (validate : json -> json -> validation)
    (data schema : json) : M unit :=
  match validate data schema with
  | Valid =>
      try_except
        (logging_info "JSON validation pass: JSON is valid." [])
        is_Exception
        (fun _ =>
           logging_error "Unexpected error during JSON validation: {}" [] ;;
           sys_exit 1)
  | ValidationError =>
      logging_info "JSON validation error: {}" [] ;;
      sys_exit 1
  | OtherError =>
      logging_error "Unexpected error during JSON validation: {}" [] ;;
      sys_exit 1
  end.

(** The options with the paths replaced by the parsed files. *)
Definition check_prerequisite (opts : options) : M (json * json) :=
  data <-
    (if negb (String.eqb (json_data opts) "") then read_json_file (json_data opts)
     else
       logging_error "Missing JSON data file. Please specify --data." [] ;;
       sys_exit 1) ;;
  schema <-
    (if negb (String.eqb (json_schema opts) "") then read_json_file (json_schema opts)
     else
       logging_error "Missing JSON schema file. Please specify --schema." [] ;;
       sys_exit 1) ;;
  ret (data, schema).

(** [logging.basicConfig(level=DEBUG, handlers=[StreamHandler(stdout)])] *)
Definition configure_logging : M unit :=
  fun w =>
    match w_handlers w with
    | [] => (Ok tt, set_logging [StreamHandler] DEBUG w)
    | _ => (Ok tt, w)
    end.

Definition close_logging : M unit :=
  fun w => (Ok tt, set_logging [] (w_level w) w).

Definition main (validate : json -> json -> validation) (opts : options) : M unit :=
  configure_logging ;;
  parsed <- check_prerequisite opts ;;
  validate_json validate (fst parsed) (snd parsed) ;;
  close_logging.

(** Both options are given, both files hold JSON, and the instance is
    valid against the schema. *)
Definition valid_input (validate : json -> json -> validation) (opts : options)
    (w : world) : Prop :=
  exists data schema,
    json_data opts <> "" /\ json_schema opts <> "" /\
    w_files w !! abspath w (json_data opts) = Some (FileJson data) /\
    w_files w !! abspath w (json_schema opts) = Some (FileJson schema) /\
    validate data schema = Valid.

(** A validator that accepts objects only, and the files of an example. *)
Definition objects_only (data schema : json) : validation :=
  match schema, data with
  | JObj _, JObj _ => Valid
  | JObj _, _ => ValidationError
  | _, _ => OtherError
  end.

Definition example_options : options :=
  {| json_data := "catalog/list.json"; json_schema := "schema.json" |}.

Definition example_world : world :=
  {| w_http := no_network;
     w_files := {[ "/repo/catalog/list.json" := FileJson (JObj example_catalog);
                   "/repo/schema.json" := FileJson (JObj []) ]};
     w_readonly := fun _ => false;
     w_cwd := "/repo"; w_handlers := []; w_level := WARNING; w_events := [] |}.

End json_validator.

(** ** Releases that carry items *)



(** Such an item as the loop leaves it, for the release tagged [tag]
    with the asset index [maps]. *)
Definition enriched (d : url_detail) (tag : json) (maps : list (json * json))
    (item : json) : json :=
  match item with
  | JObj kvs =>
      match dict_get "downloadUrl" kvs, dict_get "rich_description" kvs with
      | Some download, Some (JStr text) =>
          JObj (dict_set "rich_description"
                  (JStr (use_raw_image_url text (repo_owner d +:+ "/" +:+ repo_name d)))
                  (dict_set "Q_GITHUB_RELEASE" tag
                     (dict_set "Q_DOWNLOAD_URL"
                        (default (JStr "") (jdict_get download maps)) kvs)))
      | _, _ => item
      end
  | _ => item
  end.










(** ** Runs in worlds that look alike *)

(** Two worlds with the same network, working directory, logging
    configuration and configuration file: they may differ in their
    other files and in what happened before. *)
Definition similar (w1 w2 : world) : Prop :=
  w_http w1 = w_http w2 /\ w_cwd w1 = w_cwd w2 /\
  w_handlers w1 = w_handlers w2 /\ w_level w1 = w_level w2 /\
  w_files w1 !! abspath w1 PREDEFINED_URL_FILE =
    w_files w2 !! abspath w2 PREDEFINED_URL_FILE.

(** [m] does the same in worlds that look alike. *)
Definition respects {A} (m : M A) : Prop :=
  forall w1 w2, similar w1 w2 ->
    fst (m w1) = fst (m w2) /\ similar (snd (m w1)) (snd (m w2)).

(** The output file holds a value equal to [c]. *)
Definition up_to_date (w : world) (c : json) : Prop :=
  exists existing,
    w_files w !! output_path w = Some (FileJson existing) /\ py_eq existing c = true.

(** The world of the two items with a stale catalog and an earlier
    trace. *)
Definition stale_two_items_world : world :=
  add_event (EvLog INFO "earlier" [])
    (set_files (<[ "/repo/catalog/list.json" := FileText ]> (w_files two_items_world))
       two_items_world).

(** A configuration whose only entry has a number as URL. *)
Definition number_url_world : world :=
  example_world two_items_http
    {[ "/repo/predefined_url.json" := FileJson (JArr [JObj [("url", JNum 7)]]) ]}.
(* ================================================================== *)
(** * Part II: theorems *)
(* ================================================================== *)

(** ** Strings *)

Lemma prefix_app (p s : string) :
  String.prefix p s = true <-> exists t, s = p +:+ t.
Proof.
  revert s; induction p as [|a p IH]; intros s; simpl.
  - split; [intros _; by exists s | by destruct s].
  - destruct s as [|b s]; simpl.
    + split; [done | intros [t Ht]; discriminate].
    + destruct (ascii_dec a b) as [->|Hne].
      * rewrite IH. split; intros [t Ht]; exists t; [by rewrite Ht | by injection Ht].
      * split; [done | intros [t Ht]; injection Ht; congruence].
Qed.

Lemma str_contains_cons (sub : string) (c : ascii) (s : string) :
  str_contains sub (String c s) = String.prefix sub (String c s) || str_contains sub s.
Proof. reflexivity. Qed.

Lemma str_contains_app (sub s : string) :
  str_contains sub s = true <-> exists pre post, s = pre +:+ sub +:+ post.
Proof.
  induction s as [|c s IH].
  - unfold str_contains. rewrite orb_false_r, prefix_app. split.
    + intros [t Ht]. by exists "", t.
    + intros (pre & post & H). destruct pre; simpl in H; [by exists post | discriminate].
  - rewrite str_contains_cons, orb_true_iff, prefix_app, IH. split.
    + intros [[t Ht] | (pre & post & H)].
      * by exists "", t.
      * exists (String c pre), post. simpl. by rewrite H.
    + intros (pre & post & H). destruct pre as [|c' pre]; simpl in H.
      * left. by exists post.
      * right. injection H as _ H. by exists pre, post.
Qed.

(** ** Computations that leave the files alone *)

Lemma quiet_refl w : quiet w w.
Proof.
  repeat split; try done. exists []. by rewrite app_nil_r.
Qed.

Lemma quiet_trans w1 w2 w3 : quiet w1 w2 -> quiet w2 w3 -> quiet w1 w3.
Proof.
  intros (H1 & H2 & H3 & H4 & H5 & H6 & evs & H7 & H8)
         (G1 & G2 & G3 & G4 & G5 & G6 & evs' & G7 & G8).
  repeat split; try congruence.
  - intros Hne. rewrite G6; [by apply H6 | rewrite H6; done].
  - exists (evs ++ evs'). split; [by rewrite G7, H7, app_assoc | by apply Forall_app].
Qed.

Lemma quiet_add_event e w : is_write e = false -> quiet w (add_event e w).
Proof.
  intros He. repeat split; try done. exists [e]. split; [done | by constructor].
Qed.

Lemma read_only_ret {A} (a : A) : read_only (ret a).
Proof. intros w. apply quiet_refl. Qed.

Lemma read_only_raise {A} e : read_only (@raise A e).
Proof. intros w. apply quiet_refl. Qed.

Lemma read_only_lift {A} (o : outcome A) : read_only (lift o).
Proof. intros w. apply quiet_refl. Qed.

Lemma read_only_bind {A B} (m : M A) (k : A -> M B) :
  read_only m -> (forall a, read_only (k a)) -> read_only (bind m k).
Proof.
  intros Hm Hk w. unfold bind. specialize (Hm w).
  destruct (m w) as [[a|e] w']; simpl in *; [|done].
  eapply quiet_trans; [exact Hm | apply Hk].
Qed.

Lemma read_only_try {A} (body : M A) catches handler :
  read_only body -> (forall e, read_only (handler e)) ->
  read_only (try_except body catches handler).
Proof.
  intros Hm Hk w. unfold try_except. specialize (Hm w).
  destruct (body w) as [[a|e] w']; simpl in *; [done|].
  destruct (catches e); [|done].
  eapply quiet_trans; [exact Hm | apply Hk].
Qed.

Lemma read_only_mapM {A B} (f : A -> M B) l :
  (forall a, read_only (f a)) -> read_only (mapM f l).
Proof.
  intros Hf. induction l as [|x l IH]; simpl.
  - apply read_only_ret.
  - apply read_only_bind; [apply Hf | intros y].
    apply read_only_bind; [apply IH | intros ys]. apply read_only_ret.
Qed.

Lemma read_only_foldM {A S} (f : S -> A -> M S) l s :
  (forall s a, read_only (f s a)) -> read_only (foldM f l s).
Proof.
  intros Hf. revert s. induction l as [|x l IH]; intros s; simpl.
  - apply read_only_ret.
  - apply read_only_bind; [apply Hf | intros s']. apply IH.
Qed.

Lemma read_only_emit h level msg args : read_only (emit h level msg args).
Proof.
  intros w. unfold emit.
  destruct h; [|destruct (_ || _)]; simpl; by apply quiet_add_event.
Qed.

Lemma read_only_call_handlers hs level msg args :
  read_only (call_handlers hs level msg args).
Proof.
  induction hs as [|h hs IH]; simpl.
  - apply read_only_ret.
  - apply read_only_bind; [apply read_only_emit | intros _; apply IH].
Qed.

Lemma read_only_logging_log level msg args : read_only (logging_log level msg args).
Proof.
  intros w. unfold logging_log.
  destruct (w_handlers w) as [|h hs] eqn:Hh.
  - assert (Hq : quiet w (set_logging [StreamHandler] (w_level w) w)).
    { repeat split; try done. exists []. by rewrite app_nil_r. }
    destruct (_ <? _); [exact Hq|].
    eapply quiet_trans; [exact Hq | apply read_only_call_handlers].
  - destruct (_ <? _); [apply quiet_refl|].
    apply read_only_call_handlers.
Qed.

Lemma read_only_requests_get u h : read_only (requests_get u h).
Proof.
  destruct u; try apply read_only_raise.
  intros w. simpl. destruct (w_http w s h); simpl; by apply quiet_add_event.
Qed.

Lemma read_only_json_load_file p : read_only (json_load_file p).
Proof.
  intros w. unfold json_load_file.
  destruct (w_files w !! _) as [[]|]; apply quiet_refl.
Qed.

Lemma read_only_os_path_exists p : read_only (os_path_exists p).
Proof. intros w. apply quiet_refl. Qed.

Ltac ro_step :=
  match goal with
  | |- read_only (bind _ _) => apply read_only_bind; [|intros ?]
  | |- read_only (ret _) => apply read_only_ret
  | |- read_only (raise _) => apply read_only_raise
  | |- read_only (lift _) => apply read_only_lift
  | |- read_only (try_except _ _ _) => apply read_only_try; [|intros ?]
  | |- read_only (mapM _ _) => apply read_only_mapM; intros ?
  | |- read_only (foldM _ _ _) => apply read_only_foldM; intros ? ?
  | |- read_only (logging_log _ _ _) => apply read_only_logging_log
  | |- read_only (logging_info _ _) => apply read_only_logging_log
  | |- read_only (logging_warning _ _) => apply read_only_logging_log
  | |- read_only (logging_error _ _) => apply read_only_logging_log
  | |- read_only (requests_get _ _) => apply read_only_requests_get
  | |- read_only (json_load_file _) => apply read_only_json_load_file
  | |- read_only (os_path_exists _) => apply read_only_os_path_exists
  | |- read_only (if ?b then _ else _) => destruct b
  | |- read_only (match ?x with _ => _ end) => destruct x
  end.

Ltac ro := repeat ro_step.

Lemma read_only_raise_for_status r : read_only (raise_for_status r).
Proof. unfold raise_for_status. ro. Qed.

Lemma read_only_response_json r : read_only (response_json r).
Proof. unfold response_json. ro. Qed.

Lemma read_only_json_loads_text r : read_only (json_loads_text r).
Proof. unfold json_loads_text. ro. Qed.

Lemma read_only_get_design_examples_list data :
  read_only (get_design_examples_list data).
Proof. unfold get_design_examples_list. ro. Qed.

Lemma read_only_fetch_github_releases owner name h :
  read_only (fetch_github_releases owner name h).
Proof.
  unfold fetch_github_releases. ro.
  - apply read_only_raise_for_status.
  - apply read_only_response_json.
Qed.

Lemma read_only_process_asset release st asset :
  read_only (process_asset release st asset).
Proof.
  unfold process_asset. ro.
  - apply read_only_raise_for_status.
  - apply read_only_response_json.
  - apply read_only_get_design_examples_list.
Qed.

Lemma read_only_enrich_item d release maps item :
  read_only (enrich_item d release maps item).
Proof. unfold enrich_item. ro. Qed.

Lemma read_only_process_release d acc release :
  read_only (process_release d acc release).
Proof.
  unfold process_release. ro.
  - apply read_only_process_asset.
  - apply read_only_enrich_item.
Qed.

Lemma read_only_process_github_url d : read_only (process_github_url d).
Proof.
  unfold process_github_url. ro.
  - apply read_only_fetch_github_releases.
  - apply read_only_process_release.
Qed.

Lemma read_only_with_download_url item : read_only (with_download_url item).
Proof. unfold with_download_url. ro. Qed.

Lemma read_only_process_non_github_url d : read_only (process_non_github_url d).
Proof.
  unfold process_non_github_url. ro.
  - apply read_only_json_loads_text.
  - apply read_only_get_design_examples_list.
  - apply read_only_with_download_url.
Qed.

Lemma read_only_process_url d : read_only (process_url d).
Proof.
  unfold process_url. ro;
    [apply read_only_process_github_url | apply read_only_process_non_github_url].
Qed.

Lemma read_only_process_source acc d : read_only (process_source acc d).
Proof. unfold process_source. ro. apply read_only_process_url. Qed.

Lemma read_only_get_predefined_url : read_only get_predefined_url.
Proof.
  assert (Herr : forall e urls msg1 msg2 msg3 a1 a2 a3,
    read_only (if is_FileNotFoundError e then logging_error msg1 a1 ;; ret urls
               else if is_JSONDecodeError e then logging_error msg2 a2 ;; ret urls
               else if is_Exception e then logging_error msg3 a3 ;; ret urls
               else raise e : M (list json))).
  { intros. ro. }
  intros w. unfold get_predefined_url.
  pose proof (read_only_json_load_file PREDEFINED_URL_FILE w) as Hl.
  destruct (json_load_file PREDEFINED_URL_FILE w) as [[data|e] w']; simpl in Hl.
  - destruct (py_iter data) as [items|e].
    + destruct (collect_urls _ _) as [urls [[]|e]]; [done|].
      eapply quiet_trans; [exact Hl | apply Herr].
    + eapply quiet_trans; [exact Hl | apply Herr].
  - eapply quiet_trans; [exact Hl | apply Herr].
Qed.

Lemma read_only_aggregate : read_only aggregate.
Proof.
  unfold aggregate. ro.
  - apply read_only_get_predefined_url.
  - apply read_only_process_source.
Qed.

(** ** Routing of a source (C10) *)

Lemma starts_with_requests_get u h : starts_with (EvGet u h) (requests_get (JStr u) h).
Proof.
  intros w. exists []. simpl. by destruct (w_http w u h).
Qed.

Lemma starts_with_bind {A B} e (m : M A) (k : A -> M B) :
  starts_with e m -> (forall a, read_only (k a)) -> starts_with e (bind m k).
Proof.
  intros Hm Hk w. unfold bind. destruct (Hm w) as [evs Hevs].
  destruct (m w) as [[a|x] w']; simpl in *; [|by exists evs].
  destruct (Hk a w') as (_ & _ & _ & _ & _ & _ & evs' & Hev' & _).
  exists (evs ++ evs'). by rewrite Hev', Hevs, <- app_assoc.
Qed.

Lemma starts_with_try {A} e (body : M A) catches handler :
  starts_with e body -> (forall x, read_only (handler x)) ->
  starts_with e (try_except body catches handler).
Proof.
  intros Hm Hk w. unfold try_except. destruct (Hm w) as [evs Hevs].
  destruct (body w) as [[a|x] w']; simpl in *; [by exists evs|].
  destruct (catches x); [|by exists evs].
  destruct (Hk x w') as (_ & _ & _ & _ & _ & _ & evs' & Hev' & _).
  exists (evs ++ evs'). by rewrite Hev', Hevs, <- app_assoc.
Qed.

(** C10: a source goes to the GitHub release fetcher exactly when the
    text [github.com] occurs somewhere in its URL string, wherever that
    is (host, path, query or credentials), and to the other fetcher
    otherwise.  The GitHub fetcher shows by its first request, the
    release list of the repository; the other fetcher requests the URL
    itself. *)
Theorem github_routing_by_substring (d : url_detail) :
  (is_github (url d) = true <->
     exists pre post, url d = pre +:+ "github.com" +:+ post) /\
  process_url d =
    (if is_github (url d) then process_github_url d
     else process_non_github_url d) /\
  starts_with
    (EvGet (if is_github (url d)
            then releases_url (repo_owner d) (repo_name d)
            else url d) (hdrs d))
    (process_url d).
Proof.
  split; [apply str_contains_app | split; [done|]].
  unfold process_url. destruct (is_github (url d)).
  - unfold process_github_url, fetch_github_releases.
    apply starts_with_bind.
    + apply starts_with_try; [|intros; ro].
      apply starts_with_bind; [apply starts_with_requests_get|].
      intros r. ro; [apply read_only_raise_for_status | apply read_only_response_json].
    + intros releases. ro. apply read_only_process_release.
  - unfold process_non_github_url.
    apply starts_with_try; [|intros; ro].
    apply starts_with_bind; [apply starts_with_requests_get|].
    intros r. ro.
    + apply read_only_json_loads_text.
    + apply read_only_get_design_examples_list.
    + apply read_only_with_download_url.
Qed.

(** [github.com] in the path, in the query or in the credentials of a
    URL whose host is another one sends the source to the GitHub fetcher
    all the same. *)
Example is_github_not_only_host :
  is_github "https://example.org/mirror/github.com/a/b" = true /\
  is_github "https://example.org/list?from=github.com" = true /\
  is_github "https://github.com@example.org/list" = true /\
  is_github "https://bsas.intel.com/api/design_examples/latest/" = false.
Proof. by vm_compute. Qed.

(** ** The catalog wrapper (C6) *)

(** C6: the catalog the merger builds from any list of aggregated items
    has [num] equal to the length of [designs], and [designs] is the
    list itself. *)
Theorem metadata_formatize_num_is_length (metadata : list json) :
  exists (num : Z) (designs : list json),
    py_getitem (metadata_formatize metadata) "num" = Ok (JNum num) /\
    py_getitem (metadata_formatize metadata) "designs" = Ok (JArr designs) /\
    num = Z.of_nat (List.length designs) /\
    designs = metadata.
Proof. by exists (Z.of_nat (List.length metadata)), metadata. Qed.

(** ** Deduplication of the sources (C9) *)

Lemma unique_from_sublist t l : sublist (unique_from t l) l.
Proof.
  revert t; induction l as [|x l IH]; intros t; simpl; [constructor|].
  case_bool_decide; [apply sublist_cons | apply sublist_skip]; apply IH.
Qed.

Lemma unique_from_not_seen t l d : d ∈ unique_from t l -> url d ∉ t.
Proof.
  revert t; induction l as [|x l IH]; intros t; simpl; [by intros ?%elem_of_nil|].
  case_bool_decide as Hx; [apply IH|].
  intros [->|Hd]%elem_of_cons; [done|].
  apply IH in Hd. intros Ht. apply Hd, elem_of_app. by left.
Qed.

Lemma unique_from_NoDup t l : NoDup (map url (unique_from t l)).
Proof.
  revert t; induction l as [|x l IH]; intros t; simpl; [constructor|].
  case_bool_decide as Hx; [apply IH|]. simpl. constructor; [|apply IH].
  intros (d & Hu & Hd)%list_elem_of_fmap.
  apply unique_from_not_seen in Hd. apply Hd, elem_of_app. right.
  apply list_elem_of_singleton. congruence.
Qed.

Lemma unique_from_first t l d :
  d ∈ unique_from t l <->
  ((url d ∉ t) /\ exists pre post, l = pre ++ d :: post /\ (url d ∉ map url pre)).
Proof.
  split.
  - revert t; induction l as [|x l IH]; intros t; simpl; [by intros ?%elem_of_nil|].
    case_bool_decide as Hx.
    + intros Hd. destruct (IH _ Hd) as (Ht & pre & post & -> & Hpre).
      split; [done|]. exists (x :: pre), post. split; [done|].
      simpl. intros [Heq|Hin]%elem_of_cons; [congruence | done].
    + intros [->|Hd]%elem_of_cons.
      * split; [done|]. exists [], l. split; [done | apply not_elem_of_nil].
      * destruct (IH _ Hd) as (Ht & pre & post & -> & Hpre).
        apply not_elem_of_app in Ht as [Ht Hne].
        split; [done|]. exists (x :: pre), post. split; [done|].
        simpl. apply not_elem_of_cons. split; [|done].
        intros Heq. apply Hne, list_elem_of_singleton. done.
  - intros (Ht & pre & post & -> & Hpre).
    revert t Ht; induction pre as [|x pre IH]; intros t Ht; simpl.
    + rewrite bool_decide_eq_false_2 by done. apply elem_of_cons. by left.
    + simpl in Hpre. apply not_elem_of_cons in Hpre as [Hne Hpre].
      case_bool_decide as Hx; [by apply IH|].
      apply elem_of_cons. right. apply IH; [done|].
      apply not_elem_of_app. split; [done|].
      intros Heq%list_elem_of_singleton. done.
Qed.

Lemma unique_from_fixed t l :
  (forall d, d ∈ l -> url d ∉ t) -> NoDup (map url l) -> unique_from t l = l.
Proof.
  revert t; induction l as [|x l IH]; intros t Ht Hnd; simpl; [done|].
  simpl in Hnd. apply NoDup_cons in Hnd as [Hx Hnd].
  rewrite bool_decide_eq_false_2 by (apply Ht, elem_of_cons; by left).
  f_equal. apply IH; [|done].
  intros d Hd. apply not_elem_of_app. split; [apply Ht, elem_of_cons; by right|].
  intros Heq%list_elem_of_singleton. apply Hx, list_elem_of_fmap. by exists d.
Qed.

Lemma extract_url_detail_url u d : extract_url_detail u = Ok d -> u = JStr (url d).
Proof.
  destruct u; simpl; try done.
  destruct (urlparse s); [|done]. destruct (repo_of_path _).
  by intros [= <-].
Qed.

Lemma extract_unique_from seen us ds :
  extract_url_details (map JStr us) = Ok ds ->
  extract_url_details (map JStr (unique_strings_from seen us)) =
    Ok (unique_from seen ds).
Proof.
  revert seen ds; induction us as [|u us IH]; intros seen ds;
    cbn [map extract_url_details unique_strings_from].
  - by intros [= <-].
  - destruct (extract_url_detail (JStr u)) as [d|] eqn:Hd; [|done].
    destruct (extract_url_details (map JStr us)) as [ds'|] eqn:Hds; [|done].
    intros [= <-]. apply extract_url_detail_url in Hd as Hu. injection Hu as Hu.
    cbn [unique_from]. rewrite <- Hu.
    case_bool_decide; [by apply IH|].
    cbn [map extract_url_details]. by rewrite Hd, (IH _ ds').
Qed.

(** C9: deduplication keeps, in their order, exactly the descriptors
    whose raw URL string did not occur earlier in the list: the result is
    a subsequence of the input with pairwise distinct URLs, running it
    again changes nothing, and resolving a list of URLs and then
    deduplicating gives what resolving the deduplicated list gives. *)
Theorem get_unique_urls_first_occurrence (l : list url_detail) :
  sublist (get_unique_urls l) l /\
  NoDup (map url (get_unique_urls l)) /\
  (forall d, d ∈ get_unique_urls l <->
     exists pre post, l = pre ++ d :: post /\ (url d ∉ map url pre)) /\
  get_unique_urls (get_unique_urls l) = get_unique_urls l /\
  (forall us, extract_url_details (map JStr us) = Ok l ->
     extract_url_details (map JStr (unique_strings us)) = Ok (get_unique_urls l)).
Proof.
  unfold get_unique_urls. repeat split.
  - apply unique_from_sublist.
  - apply unique_from_NoDup.
  - intros Hd. by apply unique_from_first in Hd as [_ Hd].
  - intros Hd. apply unique_from_first. split; [apply not_elem_of_nil | done].
  - apply unique_from_fixed; [intros; apply not_elem_of_nil | apply unique_from_NoDup].
  - intros us. apply extract_unique_from.
Qed.

Lemma get_unique_urls_first_occurrence_witness :
  extract_url_details
    (map JStr (unique_strings
       ["https://github.com/a/b"; "https://example.org/x";
        "https://github.com/a/b"])) =
  Ok (get_unique_urls
        [ {| url := "https://github.com/a/b"; hdrs := [];
             repo_owner := "a"; repo_name := "b" |};
          {| url := "https://example.org/x"; hdrs := [];
             repo_owner := ""; repo_name := "" |};
          {| url := "https://github.com/a/b"; hdrs := [];
             repo_owner := "a"; repo_name := "b" |} ]).
Proof.
  apply (get_unique_urls_first_occurrence
           [ {| url := "https://github.com/a/b"; hdrs := [];
                repo_owner := "a"; repo_name := "b" |};
             {| url := "https://example.org/x"; hdrs := [];
                repo_owner := ""; repo_name := "" |};
             {| url := "https://github.com/a/b"; hdrs := [];
                repo_owner := "a"; repo_name := "b" |} ]).
  vm_compute. reflexivity.
Defined.

(** ** Owner and name of a source (C8) *)

Lemma str_split_chr_nonempty c s : str_split_chr c s <> [].
Proof.
  destruct s as [|a s]; simpl; [done|].
  destruct (Ascii.eqb a c); [done|]. by destruct (str_split_chr c s).
Qed.

Lemma str_split_chr_two c s :
  (2 <=? List.length (str_split_chr c s))%nat = str_contains (String c "") s.
Proof.
  induction s as [|a s IH]; [done|].
  rewrite str_contains_cons. cbn [str_split_chr String.prefix].
  destruct (Ascii.eqb_spec a c) as [->|Hne].
  - destruct (ascii_dec c c); [|done].
    pose proof (str_split_chr_nonempty c s). by destruct (str_split_chr c s), s.
  - destruct (ascii_dec c a); [congruence|]. rewrite <- IH.
    pose proof (str_split_chr_nonempty c s). by destruct (str_split_chr c s).
Qed.

(** C8, as the code has it: the descriptor of a URL carries the URL and
    empty headers; its owner and name are the first two segments of the
    path, split at every slash once its leading slashes are removed,
    exactly when that remainder contains a slash, that is when the split
    gives at least two segments, empty or not; otherwise both are the
    empty string. *)
Theorem extract_url_details_owner_name (urls : list json) (ds : list url_detail) :
  extract_url_details urls = Ok ds ->
  Forall2
    (fun u d =>
       exists parts,
         u = JStr (url d) /\ urlparse (url d) = Ok parts /\ hdrs d = [] /\
         let rest := str_lstrip (Ascii.eqb "/") (u_path parts) in
         let segments := str_split_chr "/" rest in
         ((2 <= List.length segments)%nat <-> str_contains "/" rest = true) /\
         ((2 <= List.length segments)%nat ->
            repo_owner d = nth 0 segments "" /\ repo_name d = nth 1 segments "") /\
         ((List.length segments < 2)%nat ->
            repo_owner d = "" /\ repo_name d = ""))
    urls ds.
Proof.
  revert ds; induction urls as [|u urls IH]; intros ds;
    cbn [extract_url_details].
  - intros [= <-]. constructor.
  - destruct (extract_url_detail u) as [d|] eqn:Hd; [|done].
    destruct (extract_url_details urls) as [ds'|]; [|done].
    intros [= <-]. constructor; [|by apply IH].
    destruct u as [| | |s| |]; try done. simpl in Hd.
    destruct (urlparse s) as [parts|] eqn:Hp; [|done].
    unfold repo_of_path in Hd.
    pose proof (str_split_chr_two "/" (str_lstrip (Ascii.eqb "/") (u_path parts))) as H2.
    destruct (2 <=? _)%nat eqn:Hlen; injection Hd as <-; simpl;
      exists parts; rewrite <- H2;
      [apply Nat.leb_le in Hlen | apply Nat.leb_nle in Hlen];
      repeat split; try done; intros; lia.
Qed.

Lemma extract_url_details_owner_name_witness :
  Forall2
    (fun u d =>
       exists parts,
         u = JStr (url d) /\ urlparse (url d) = Ok parts /\ hdrs d = [] /\
         let rest := str_lstrip (Ascii.eqb "/") (u_path parts) in
         let segments := str_split_chr "/" rest in
         ((2 <= List.length segments)%nat <-> str_contains "/" rest = true) /\
         ((2 <= List.length segments)%nat ->
            repo_owner d = nth 0 segments "" /\ repo_name d = nth 1 segments "") /\
         ((List.length segments < 2)%nat ->
            repo_owner d = "" /\ repo_name d = ""))
    [JStr "https://github.com/intel/example"; JStr "https://example.org/list"]
    [ {| url := "https://github.com/intel/example"; hdrs := [];
         repo_owner := "intel"; repo_name := "example" |};
      {| url := "https://example.org/list"; hdrs := [];
         repo_owner := ""; repo_name := "" |} ].
Proof.
  apply (extract_url_details_owner_name
           [JStr "https://github.com/intel/example"; JStr "https://example.org/list"]).
  vm_compute. reflexivity.
Defined.

(** C8 as the specification words it fails: the path [/intel/] has one
    segment that is not empty, yet the descriptor gets the owner [intel]
    (and the empty name) instead of two empty strings. *)
Lemma extract_url_details_empty_segment_counts :
  exists d parts,
    extract_url_details [JStr "https://github.com/intel/"] = Ok [d] /\
    urlparse "https://github.com/intel/" = Ok parts /\
    nonempty_segments (u_path parts) = ["intel"] /\
    repo_owner d = "intel" /\ repo_name d = "" /\
    ~ (repo_owner d = "" /\ repo_name d = "").
Proof.
  eexists _, _. vm_compute. repeat split. by intros [? _].
Qed.

(** ** Extraction of the item list (C1) *)

Lemma bind_ok {A B} (m : M A) (k : A -> M B) w a w' :
  m w = (Ok a, w') -> bind m k w = k a w'.
Proof. intros H. unfold bind. by rewrite H. Qed.

Lemma bind_raise {A B} (m : M A) (k : A -> M B) w e w' :
  m w = (Raise e, w') -> bind m k w = (Raise e, w').
Proof. intros H. unfold bind. by rewrite H. Qed.

(** The two shapes the function is written for, and the shape it
    rejects: an object whose [data] holds [designs], an object without
    [data] that holds [designs], an object with neither.  The fourth
    case is the one left out: [data] without [designs] under it gives the
    object back. *)
Lemma get_design_examples_list_shapes (kvs : list (string * json)) (w : world) :
  (forall inner l,
     dict_get "data" kvs = Some (JObj inner) -> dict_get "designs" inner = Some l ->
     get_design_examples_list (JObj kvs) w = (Ok l, w)) /\
  (forall inner,
     dict_get "data" kvs = Some inner -> py_contains "designs" inner = Ok false ->
     get_design_examples_list (JObj kvs) w = (Ok (JObj kvs), w)) /\
  (forall l,
     dict_get "data" kvs = None -> dict_get "designs" kvs = Some l ->
     get_design_examples_list (JObj kvs) w = (Ok l, w)) /\
  (dict_get "data" kvs = None -> dict_get "designs" kvs = None ->
   get_design_examples_list (JObj kvs) w =
     (logging_warning "The data format is invalid: {}. Skipping this entry..."
        [JObj kvs] ;; ret (JArr [])) w).
Proof.
  unfold get_design_examples_list, bind, lift, ret, py_contains, py_getitem.
  repeat split.
  - intros inner l Hd Hl. by rewrite Hd, Hl.
  - intros inner Hd Hl. rewrite Hd. cbn beta iota. by rewrite Hl.
  - intros l Hd Hl. by rewrite Hd, Hl.
  - intros Hd Hl. by rewrite Hd, Hl.
Qed.

(** C1 at an input with [data] but no [designs] under it: the function
    returns the input object itself, although the input has [designs] at
    top level, and it logs nothing. *)
Theorem get_design_examples_list_data_without_designs (w : world) :
  let v := JObj [("data", JObj [("foo", JNum 1)]);
                 ("designs", JArr [JObj [("a", JNum 1)]])] in
  get_design_examples_list v w = (Ok v, w) /\
  py_getitem v "designs" = Ok (JArr [JObj [("a", JNum 1)]]) /\
  v <> JArr [JObj [("a", JNum 1)]].
Proof. by repeat split. Qed.

(** Without [designs] anywhere the same branch returns the object, where
    the empty list and a warning are expected. *)
Lemma get_design_examples_list_data_only (w : world) :
  let v := JObj [("data", JObj [("foo", JNum 1)])] in
  get_design_examples_list v w = (Ok v, w).
Proof. done. Qed.

(** A JSON value that is no object, list or string cannot be asked for a
    key: the function raises instead of reporting an invalid format. *)
Example get_design_examples_list_not_an_object (w : world) :
  get_design_examples_list (JNum 5) w = (Raise TypeError, w) /\
  get_design_examples_list JNull w = (Raise TypeError, w).
Proof. done. Qed.

(** The three examples of the specification. *)
Example get_design_examples_list_examples :
  let w := {| w_http := fun _ _ => HttpFails; w_files := ∅;
              w_readonly := fun _ => false; w_cwd := "/";
              w_handlers := [ExitOnExceptionHandler]; w_level := INFO;
              w_events := [] |} in
  let items := JArr [JObj [("a", JNum 1)]] in
  get_design_examples_list (JObj [("data", JObj [("designs", items)])]) w = (Ok items, w) /\
  get_design_examples_list (JObj [("designs", items)]) w = (Ok items, w) /\
  get_design_examples_list (JObj [("foo", JNum 1)]) w =
    (Ok (JArr []),
     add_event (EvLog WARNING "The data format is invalid: {}. Skipping this entry..."
                  [JObj [("foo", JNum 1)]]) w).
Proof. by repeat split. Qed.

(** ** The controller override (C7) *)

Lemma dict_get_set k k' v kvs :
  dict_get k (dict_set k' v kvs) =
  if String.eqb k k' then Some v else dict_get k kvs.
Proof.
  induction kvs as [|[k1 v1] kvs IH]; simpl.
  - done.
  - destruct (String.eqb_spec k' k1) as [->|Hne]; simpl.
    + by destruct (String.eqb k k1).
    + destruct (String.eqb_spec k k1) as [->|Hne'].
      * by destruct (String.eqb_spec k1 k').
      * done.
Qed.

Lemma dict_get_None k (kvs : list (string * json)) :
  k ∉ map fst kvs -> dict_get k kvs = None.
Proof.
  induction kvs as [|[k1 v1] kvs IH]; simpl; [done|].
  intros [Hne Hk]%not_elem_of_cons.
  destruct (String.eqb_spec k k1); [done | by apply IH].
Qed.

Lemma dict_get_merge k a b :
  NoDup (map fst b) ->
  dict_get k (dict_merge a b) =
  match dict_get k b with Some v => Some v | None => dict_get k a end.
Proof.
  unfold dict_merge. revert a; induction b as [|[k1 v1] b IH]; intros a Hnd; simpl.
  - done.
  - simpl in Hnd. apply NoDup_cons in Hnd as [Hk1 Hnd].
    rewrite IH by done. rewrite dict_get_set.
    destruct (String.eqb_spec k k1) as [->|Hne]; [|done].
    by rewrite dict_get_None.
Qed.

Lemma logging_info_ok msg args w :
  exists w', logging_info msg args w = (Ok tt, w') /\ quiet w w'.
Proof.
  assert (Hcall : forall hs w0, exists w', call_handlers hs INFO msg args w0 = (Ok tt, w')).
  { induction hs as [|h hs IH]; intros w0; simpl; [by eexists|].
    unfold bind.
    assert (emit h INFO msg args w0 = (Ok tt, add_event (EvLog INFO msg args) w0)) as ->
      by by destruct h.
    apply IH. }
  pose proof (read_only_logging_log INFO msg args w) as Hq.
  unfold logging_info in *. unfold logging_log in *.
  destruct (INFO <? _).
  - eexists. split; [done | exact Hq].
  - destruct (Hcall (w_handlers match w_handlers w with
                                | [] => set_logging [StreamHandler] (w_level w) w
                                | _ :: _ => w
                                end)
                    match w_handlers w with
                    | [] => set_logging [StreamHandler] (w_level w) w
                    | _ :: _ => w
                    end) as [w' Hw'].
    rewrite Hw' in *. by exists w'.
Qed.

(** C7: with a controller file holding a JSON object, the result is the
    catalog with every key of the controller set to the controller's
    value, whole, and every other key kept; the world is untouched.
    Without a controller file the catalog comes back unchanged, no
    exception is raised and nothing but a log record is produced. *)
Theorem add_controller_shallow_merge (opts : options) (w : world)
    (catalog : list (string * json)) :
  (forall override,
     w_files w !! abspath w (controller opts) = Some (FileJson (JObj override)) ->
     NoDup (map fst override) ->
     exists merged,
       add_controller opts (JObj catalog) w = (Ok (JObj merged), w) /\
       forall k, dict_get k merged =
                 match dict_get k override with
                 | Some v => Some v
                 | None => dict_get k catalog
                 end) /\
  (w_files w !! abspath w (controller opts) = None ->
     exists w', add_controller opts (JObj catalog) w = (Ok (JObj catalog), w') /\
                quiet w w').
Proof.
  unfold add_controller, os_path_exists, json_load_file, bind. split.
  - intros override Hf Hnd. rewrite Hf.
    rewrite bool_decide_eq_true_2 by by eexists.
    exists (dict_merge catalog override). split; [by cbn beta iota; rewrite Hf|].
    intros k. by apply dict_get_merge.
  - intros Hf. rewrite Hf.
    rewrite bool_decide_eq_false_2 by by intros [? ?].
    destruct (logging_info_ok "Controller not found." [] w) as (w' & Hw' & Hq).
    rewrite Hw'. by exists w'.
Qed.

(** ** Python equality *)

Lemma json_ind_nested (P : json -> Prop) :
  P JNull -> (forall b, P (JBool b)) -> (forall n, P (JNum n)) ->
  (forall s, P (JStr s)) ->
  (forall l, Forall P l -> P (JArr l)) ->
  (forall kvs, Forall (fun kv => P (snd kv)) kvs -> P (JObj kvs)) ->
  forall v, P v.
Proof.
  intros Hnull Hbool Hnum Hstr Harr Hobj.
  fix IH 1. intros [| b | n | s | l | kvs].
  - exact Hnull.
  - apply Hbool.
  - apply Hnum.
  - apply Hstr.
  - apply Harr. induction l as [|x l IHl]; constructor; [apply IH | exact IHl].
  - apply Hobj. induction kvs as [|[k x] kvs IHl]; constructor; [apply IH | exact IHl].
Qed.

Lemma wf_json_arr l : wf_json (JArr l) <-> Forall wf_json l.
Proof.
  induction l as [|x l IH]; simpl.
  - split; [constructor | done].
  - split.
    + intros [Hx Hl]. constructor; [done | by apply IH].
    + intros [Hx Hl]%Forall_cons. split; [done | by apply IH].
Qed.

Lemma wf_json_obj kvs :
  wf_json (JObj kvs) <->
  NoDup (map fst kvs) /\ Forall (fun kv => wf_json (snd kv)) kvs.
Proof.
  simpl. apply and_iff_compat_l.
  induction kvs as [|[k x] kvs IH]; simpl.
  - split; [constructor | done].
  - split.
    + intros [Hx Hl]. constructor; [done | by apply IH].
    + intros [Hx Hl]%Forall_cons. split; [done | by apply IH].
Qed.

Lemma py_eq_arr l l' :
  py_eq (JArr l) (JArr l') =
  bool_decide (Forall2 (fun x y => py_eq x y = true) l l').
Proof.
  simpl. revert l'; induction l as [|x l IH]; intros [|y l'].
  - rewrite bool_decide_eq_true_2; [done | constructor].
  - rewrite bool_decide_eq_false_2; [done | by intros ?%Forall2_nil_cons_inv].
  - rewrite bool_decide_eq_false_2; [done | by intros ?%Forall2_cons_nil_inv].
  - rewrite IH. destruct (py_eq x y) eqn:Hxy; simpl.
    + apply bool_decide_ext. split; [by constructor | by intros [? ?]%Forall2_cons].
    + rewrite bool_decide_eq_false_2; [done|].
      intros [? ?]%Forall2_cons. congruence.
Qed.

Lemma py_eq_obj kvs kvs' :
  py_eq (JObj kvs) (JObj kvs') =
  Nat.eqb (List.length kvs) (List.length kvs') &&
  forallb (fun kv => match dict_get (fst kv) kvs' with
                     | Some w => py_eq (snd kv) w
                     | None => false
                     end) kvs.
Proof.
  simpl. f_equal. induction kvs as [|[k x] kvs IH]; simpl; [done|]. by rewrite IH.
Qed.

Lemma dict_get_NoDup k x (kvs : list (string * json)) :
  NoDup (map fst kvs) -> (k, x) ∈ kvs -> dict_get k kvs = Some x.
Proof.
  induction kvs as [|[k1 x1] kvs IH]; simpl; [by intros _ ?%elem_of_nil|].
  intros [Hk1 Hnd]%NoDup_cons [[= -> ->]|Hin]%elem_of_cons.
  - by rewrite String.eqb_refl.
  - destruct (String.eqb_spec k k1) as [->|Hne]; [|by apply IH].
    destruct Hk1. apply list_elem_of_fmap. by exists (k1, x).
Qed.

Lemma py_eq_refl v : wf_json v -> py_eq v v = true.
Proof.
  induction v as [| b | n | s | l IH | kvs IH] using json_ind_nested; intros Hwf.
  - done.
  - by destruct b.
  - apply Z.eqb_refl.
  - apply String.eqb_refl.
  - rewrite py_eq_arr. apply bool_decide_eq_true_2.
    apply wf_json_arr in Hwf.
    induction l as [|x l IHl]; constructor.
    + apply Forall_cons in IH as [IHx _]. apply Forall_cons in Hwf as [Hx _]. auto.
    + apply Forall_cons in IH as [_ IH]. apply Forall_cons in Hwf as [_ Hwf]. auto.
  - rewrite py_eq_obj, Nat.eqb_refl. simpl.
    apply wf_json_obj in Hwf as [Hnd Hwf].
    apply forallb_forall. intros [k x] Hin. simpl.
    apply list_elem_of_In in Hin.
    rewrite (dict_get_NoDup k x kvs Hnd Hin).
    rewrite Forall_forall in IH, Hwf. by apply (IH (k, x)), (Hwf (k, x)).
Qed.

(** ** Writing only on change (C4) *)

Lemma quiet_not_write w w' : quiet w w' -> ~ performs_write w w'.
Proof.
  intros (_ & _ & _ & _ & _ & _ & evs & Hev & Hnw) (evs' & Hev' & Hw).
  rewrite Hev in Hev'. apply app_inv_head in Hev'. subst evs'.
  apply Exists_exists in Hw as (e & Hin & He).
  rewrite Forall_forall in Hnw. specialize (Hnw e Hin). congruence.
Qed.

Lemma written_performs_write p c w w' : written p c w w' -> performs_write w w'.
Proof.
  intros (_ & _ & _ & _ & pre & post & Hev & _ & _).
  exists (pre ++ EvWrite p c :: post). split; [done|].
  apply Exists_app. right. by constructor.
Qed.

Lemma quiet_written p c w1 w2 w3 : quiet w1 w2 -> written p c w2 w3 -> written p c w1 w3.
Proof.
  intros (H1 & H2 & H3 & H4 & _ & _ & evs & H7 & H8)
         (G1 & G2 & G3 & G4 & pre & post & G5 & G6 & G7).
  repeat split; try congruence.
  exists (evs ++ pre), post. repeat split; [|by apply Forall_app|done].
  by rewrite G5, H7, <- !app_assoc.
Qed.

Lemma written_quiet p c w1 w2 w3 : written p c w1 w2 -> quiet w2 w3 -> written p c w1 w3.
Proof.
  intros (G1 & G2 & G3 & G4 & pre & post & G5 & G6 & G7)
         (H1 & H2 & H3 & H4 & _ & _ & evs & H7 & H8).
  repeat split; try congruence.
  exists pre, (post ++ evs). repeat split; [|done|by apply Forall_app].
  by rewrite H7, G5, <- !app_assoc.
Qed.

Lemma quiet_abspath w w' p : quiet w w' -> abspath w' p = abspath w p.
Proof. intros (_ & _ & _ & Hc & _). unfold abspath. by rewrite Hc. Qed.

Lemma quiet_lookup w w' p :
  quiet w w' -> w_files w' !! abspath w' p = w_files w !! abspath w p.
Proof.
  intros Hq. rewrite (quiet_abspath _ _ _ Hq).
  destruct Hq as (_ & Hf & _). by rewrite Hf.
Qed.

Lemma read_only_add_controller opts c : read_only (add_controller opts c).
Proof. unfold add_controller. ro. Qed.

Lemma add_controller_fst opts c w1 w2 :
  w_files w1 !! abspath w1 (controller opts) =
    w_files w2 !! abspath w2 (controller opts) ->
  fst (add_controller opts c w1) = fst (add_controller opts c w2).
Proof.
  intros Hf. unfold add_controller, os_path_exists, json_load_file, bind.
  rewrite Hf. destruct (w_files w2 !! _) as [fd|] eqn:Hfd.
  - rewrite bool_decide_eq_true_2 by by eexists.
    cbn beta iota. rewrite Hf, Hfd. by destruct fd.
  - rewrite bool_decide_eq_false_2 by by intros [? ?].
    destruct (logging_info_ok "Controller not found." [] w1) as (w1' & -> & _).
    by destruct (logging_info_ok "Controller not found." [] w2) as (w2' & -> & _).
Qed.

Lemma write_to_file_ok p c w :
  w_readonly w (abspath w p) = false ->
  exists w', write_to_file p c w = (Ok tt, w') /\ written (abspath w p) c w w'.
Proof.
  intros Hro. unfold write_to_file, try_except, bind, json_dump_file. rewrite Hro.
  destruct (logging_info_ok "Successfully wrote content to {}." [JStr p]
              (add_event (EvWrite (abspath w p) c)
                 (set_files (<[abspath w p := FileJson c]> (w_files w)) w)))
    as (w' & Hw' & Hq).
  rewrite Hw'. exists w'. split; [done|].
  eapply written_quiet; [|exact Hq].
  repeat split. exists [], []. by repeat split.
Qed.

(** What the comparison does, from the state of the output file. *)
Lemma compare_and_write_cases opts merged w :
  w_readonly w (abspath w (output opts)) = false ->
  (w_files w !! abspath w (output opts) = None \/
   (exists e, w_files w !! abspath w (output opts) = Some (FileJson e) /\
              py_eq e merged = false) ->
   exists w', compare_and_write opts merged w = (Ok tt, w') /\
              written (abspath w (output opts)) merged w w') /\
  ((exists e, w_files w !! abspath w (output opts) = Some (FileJson e) /\
              py_eq e merged = true) ->
   exists w', compare_and_write opts merged w = (Ok tt, w') /\ quiet w w').
Proof.
  intros Hro. unfold compare_and_write, try_except, bind, os_path_exists, json_load_file.
  split.
  - intros [Hf | (e & Hf & Hne)]; rewrite Hf.
    + rewrite bool_decide_eq_false_2 by by intros [? ?].
      destruct (logging_info_ok "The file {} does not exist. Creating a new file..."
                  [JStr (output opts)] w) as (w1 & -> & Hq).
      destruct (write_to_file_ok (output opts) merged w1) as (w2 & -> & Hw).
      { by rewrite (quiet_abspath _ _ _ Hq), (proj1 (proj2 (proj2 Hq))). }
      exists w2. split; [done|].
      rewrite (quiet_abspath _ _ _ Hq) in Hw. eapply quiet_written; eauto.
    + rewrite bool_decide_eq_true_2 by by eexists.
      cbn beta iota. rewrite Hf, Hne.
      destruct (logging_info_ok
                  "Differences detected between the existing file and the generated content."
                  [] w) as (w1 & -> & Hq).
      destruct (write_to_file_ok (output opts) merged w1) as (w2 & -> & Hw).
      { by rewrite (quiet_abspath _ _ _ Hq), (proj1 (proj2 (proj2 Hq))). }
      exists w2. split; [done|].
      rewrite (quiet_abspath _ _ _ Hq) in Hw. eapply quiet_written; eauto.
  - intros (e & Hf & Heq). rewrite Hf.
    rewrite bool_decide_eq_true_2 by by eexists.
    cbn beta iota. rewrite Hf, Heq.
    destruct (logging_info_ok
                "The content of {} is up-to-date. No changes are required. Exiting."
                [JStr (output opts)] w) as (w1 & -> & Hq).
    by exists w1.
Qed.

(** An output file that is not JSON is reported and left as it is. *)
Lemma compare_and_write_unreadable opts merged w :
  w_files w !! abspath w (output opts) = Some FileText ->
  compare_and_write opts merged w =
    logging_error "An error occurred while verifying the file {}: {e}"
      [JStr (output opts)] w /\
  quiet w (snd (compare_and_write opts merged w)).
Proof.
  intros Hf.
  assert (compare_and_write opts merged w =
          logging_error "An error occurred while verifying the file {}: {e}"
            [JStr (output opts)] w) as ->.
  { unfold compare_and_write, try_except, bind, os_path_exists, json_load_file.
    rewrite Hf. rewrite bool_decide_eq_true_2 by by eexists.
    cbn beta iota. by rewrite Hf. }
  split; [done | apply read_only_logging_log].
Qed.

(** [replace_if_diff] is the comparison, run on the merged object in a
    world that differs from the initial one by log records. *)
Lemma replace_if_diff_unfold opts catalog merged w :
  fst (add_controller opts catalog w) = Ok merged ->
  exists w0, quiet w w0 /\
             replace_if_diff opts catalog w = compare_and_write opts merged w0.
Proof.
  intros Hm. unfold replace_if_diff.
  destruct (logging_info_ok "----------------------------------------" [] w)
    as (w1 & E1 & Q1).
  destruct (logging_info_ok "Checking the content of {} for updates..."
              [JStr (output opts)] w1) as (w2 & E2 & Q2).
  rewrite (bind_ok _ _ _ _ _ E1), (bind_ok _ _ _ _ _ E2).
  pose proof (quiet_trans _ _ _ Q1 Q2) as Q.
  pose proof (read_only_add_controller opts catalog w2) as Q3.
  pose proof (add_controller_fst opts catalog w2 w (quiet_lookup _ _ _ Q)) as Hfst.
  rewrite Hm in Hfst.
  destruct (add_controller opts catalog w2) as [r w3] eqn:E3. simpl in *. subst r.
  rewrite (bind_ok _ _ _ _ _ E3).
  exists w3. split; [|done]. by eapply quiet_trans.
Qed.

(** C4: given the merged object (the catalog with the controller
    applied) and an output path the file system lets the tool write,
    whose present content, if any, is JSON: the run writes the file
    exactly when there is no file or its parsed content differs from the
    merged object under Python's equality; a write stores the merged
    object, and without a write the files stay as they are.  A second
    run on the resulting state, with the same catalog, writes nothing. *)
Theorem replace_if_diff_writes_iff_changed (opts : options)
    (catalog merged : json) (w : world) :
  let out := abspath w (output opts) in
  fst (add_controller opts catalog w) = Ok merged ->
  w_files w !! out <> Some FileText ->
  w_readonly w out = false ->
  let w1 := snd (replace_if_diff opts catalog w) in
  let w2 := snd (replace_if_diff opts catalog w1) in
  fst (replace_if_diff opts catalog w) = Ok tt /\
  (performs_write w w1 <->
     w_files w !! out = None \/
     exists existing, w_files w !! out = Some (FileJson existing) /\
                      py_eq existing merged = false) /\
  (performs_write w w1 -> written out merged w w1) /\
  (~ performs_write w w1 -> quiet w w1) /\
  (wf_json merged -> abspath w (controller opts) <> out ->
     ~ performs_write w1 w2 /\ quiet w1 w2).
Proof.
  intros out Hm Hjson Hro w1 w2.
  destruct (replace_if_diff_unfold opts catalog merged w Hm) as (w0 & Q0 & Hrun).
  assert (Hro0 : w_readonly w0 (abspath w0 (output opts)) = false).
  { by rewrite (quiet_abspath _ _ _ Q0), (proj1 (proj2 (proj2 Q0))). }
  destruct (compare_and_write_cases opts merged w0 Hro0) as [Hdiff Hsame].
  rewrite (quiet_lookup _ _ _ Q0) in Hdiff, Hsame.
  rewrite (quiet_abspath _ _ _ Q0) in Hdiff.
  fold out in Hdiff, Hsame.
  assert (Hcases :
    (w_files w !! out = None \/
       (exists e, w_files w !! out = Some (FileJson e) /\ py_eq e merged = false)) \/
    (exists e, w_files w !! out = Some (FileJson e) /\ py_eq e merged = true)).
  { destruct (w_files w !! out) as [[e|]|]; [|done|by left; left].
    destruct (py_eq e merged) eqn:He; [right | left; right]; by exists e. }
  destruct Hcases as [Hc | Hc].
  - (* no file, or a different content: the file is written *)
    destruct (Hdiff Hc) as (w' & Hw' & Hwr).
    assert (Hw1 : w1 = w') by (unfold w1; by rewrite Hrun, Hw').
    pose proof (quiet_written _ _ _ _ _ Q0 Hwr) as Hwritten.
    rewrite <- Hw1 in Hwritten.
    split; [by rewrite Hrun, Hw'|].
    split; [split; [done | intros _; by eapply written_performs_write]|].
    split; [done|].
    split; [intros Hn; destruct Hn; by eapply written_performs_write|].
    intros Hwf Hctl.
    destruct Hwritten as (_ & Hf1 & Hr1 & Hc1 & _).
    assert (Hm1 : fst (add_controller opts catalog w1) = Ok merged).
    { rewrite <- Hm. apply add_controller_fst.
      unfold abspath. rewrite Hc1, Hf1. fold (abspath w (controller opts)).
      by rewrite lookup_insert_ne. }
    destruct (replace_if_diff_unfold opts catalog merged w1 Hm1) as (w0' & Q0' & Hrun').
    assert (Hro0' : w_readonly w0' (abspath w0' (output opts)) = false).
    { rewrite (quiet_abspath _ _ _ Q0'), (proj1 (proj2 (proj2 Q0'))).
      unfold abspath. by rewrite Hr1, Hc1. }
    destruct (compare_and_write_cases opts merged w0' Hro0') as [_ Hsame'].
    destruct Hsame' as (w'' & Hw'' & Q'').
    { exists merged. rewrite (quiet_lookup _ _ _ Q0'). unfold abspath.
      rewrite Hc1, Hf1. fold out. rewrite lookup_insert_eq.
      split; [done | by apply py_eq_refl]. }
    assert (Hq2 : quiet w1 w2).
    { unfold w2. rewrite Hrun', Hw''. by eapply quiet_trans. }
    split; [by apply quiet_not_write | done].
  - (* the same content: nothing is written *)
    destruct (Hsame Hc) as (w' & Hw' & Q').
    assert (Hw1 : w1 = w') by (unfold w1; by rewrite Hrun, Hw').
    assert (Hq1 : quiet w w1) by (rewrite Hw1; by eapply quiet_trans).
    destruct Hc as (e & Hf & Heq).
    split; [by rewrite Hrun, Hw'|].
    split.
    { split; [intros Hp; by apply quiet_not_write in Hq1|].
      intros [Hn | (e' & Hf' & Hne)]; congruence. }
    split; [intros Hp; by apply quiet_not_write in Hq1|].
    split; [done|].
    intros _ _.
    assert (Hm1 : fst (add_controller opts catalog w1) = Ok merged).
    { rewrite <- Hm. apply add_controller_fst. by apply quiet_lookup. }
    destruct (replace_if_diff_unfold opts catalog merged w1 Hm1) as (w0' & Q0' & Hrun').
    pose proof (quiet_trans _ _ _ Hq1 Q0') as Qall.
    assert (Hro0' : w_readonly w0' (abspath w0' (output opts)) = false).
    { by rewrite (quiet_abspath _ _ _ Qall), (proj1 (proj2 (proj2 Qall))). }
    destruct (compare_and_write_cases opts merged w0' Hro0') as [_ Hsame'].
    destruct Hsame' as (w'' & Hw'' & Q'').
    { exists e. by rewrite (quiet_lookup _ _ _ Qall). }
    assert (Hq2 : quiet w1 w2).
    { unfold w2. rewrite Hrun', Hw''. by eapply quiet_trans. }
    split; [by apply quiet_not_write | done].
Qed.

Lemma replace_if_diff_writes_iff_changed_witness :
  let w := example_world no_network ∅ in
  let w1 := snd (replace_if_diff example_options (JObj example_catalog) w) in
  let w2 := snd (replace_if_diff example_options (JObj example_catalog) w1) in
  written "/repo/catalog/list.json" (JObj example_catalog) w w1 /\
  ~ performs_write w1 w2.
Proof.
  intros w w1 w2.
  pose proof (replace_if_diff_writes_iff_changed example_options
                (JObj example_catalog) (JObj example_catalog) w) as H.
  cbv zeta in H.
  destruct H as (_ & Hiff & Hwr & _ & Hagain).
  - vm_compute. reflexivity.
  - vm_compute. discriminate.
  - reflexivity.
  - split.
    + apply Hwr, Hiff. left. vm_compute. reflexivity.
    + apply Hagain.
      * simpl. repeat split; repeat constructor; vm_compute; intros H;
          repeat (apply elem_of_cons in H as [H|H]; [discriminate|]);
          by apply elem_of_nil in H.
      * vm_compute. discriminate.
Defined.

Lemma add_controller_shallow_merge_witness :
  let with_controller :=
    example_world no_network
      {[ "/repo/.github/get_predefined_de/controller.json" :=
           FileJson (JObj [("num", JNum 999)]) ]} in
  let without_controller := example_world no_network ∅ in
  (exists merged,
     add_controller example_options (JObj example_catalog) with_controller =
       (Ok (JObj merged), with_controller) /\
     dict_get "num" merged = Some (JNum 999) /\
     dict_get "designs" merged = dict_get "designs" example_catalog) /\
  (exists w',
     add_controller example_options (JObj example_catalog) without_controller =
       (Ok (JObj example_catalog), w')).
Proof.
  intros with_controller without_controller. split.
  - destruct (proj1 (add_controller_shallow_merge example_options with_controller
                       example_catalog) [("num", JNum 999)])
      as (merged & Hrun & Hget).
    + vm_compute. reflexivity.
    + repeat constructor. intros H. by apply elem_of_nil in H.
    + exists merged. split; [exact Hrun|]. by rewrite !Hget.
  - destruct (proj2 (add_controller_shallow_merge example_options without_controller
                       example_catalog)) as (w' & Hrun & _).
    + vm_compute. reflexivity.
    + by exists w'.
Defined.

(** The override of the specification's example reaches the file: a
    catalog with [num] 5 and a controller holding [num] 999 are
    persisted with [num] 999. *)
Example controller_override_is_persisted :
  let w :=
    example_world no_network
      {[ "/repo/.github/get_predefined_de/controller.json" :=
           FileJson (JObj [("num", JNum 999)]) ]} in
  exists w',
    replace_if_diff example_options (JObj example_catalog) w = (Ok tt, w') /\
    w_files w' !! "/repo/catalog/list.json" =
      Some (FileJson (JObj [("num", JNum 999);
                            ("designs", JArr (replicate 5 example_item))])).
Proof. eexists. split; vm_compute; reflexivity. Qed.


(** ** Errors end the run (C2, C5) *)

Lemma logging_error_exits msg args w :
  exit_on_error w ->
  logging_error msg args w =
    (Raise (SystemExit (-1)), add_event (EvLog ERROR msg args) w).
Proof.
  intros [Hh Hl]. unfold logging_error, logging_log.
  rewrite Hh. cbn beta iota. by rewrite Hh, Hl.
Qed.


Lemma quiet_exit_on_error w w' : quiet w w' -> exit_on_error w -> exit_on_error w'.
Proof.
  intros (_ & _ & _ & _ & Hl & Hh & _) [Hhs Hlvl]. split.
  - rewrite Hh; [done | by rewrite Hhs].
  - by rewrite Hl.
Qed.


Lemma read_only_run {A} (m : M A) w r w' : read_only m -> m w = (r, w') -> quiet w w'.
Proof. intros Hm Hrun. specialize (Hm w). by rewrite Hrun in Hm. Qed.

(** *** Inversion of successful runs *)

Lemma bind_inv_ok {A B} (m : M A) (k : A -> M B) w b w' :
  bind m k w = (Ok b, w') ->
  exists a w1, m w = (Ok a, w1) /\ k a w1 = (Ok b, w').
Proof.
  unfold bind. destruct (m w) as [[a|e] w1]; [|done]. by eauto.
Qed.

Lemma try_inv_ok {A} (body : M A) catches handler w a w' :
  try_except body catches handler w = (Ok a, w') ->
  body w = (Ok a, w') \/
  exists e w1, body w = (Raise e, w1) /\ catches e = true /\ handler e w1 = (Ok a, w').
Proof.
  unfold try_except. destruct (body w) as [[x|e] w1]; [by left|].
  destruct (catches e) eqn:Hc; [|done]. right. by eauto.
Qed.

Lemma logging_error_not_ok msg args w w' :
  exit_on_error w -> logging_error msg args w <> (Ok tt, w').
Proof. intros Hex. by rewrite logging_error_exits. Qed.

Lemma mapM_length {A B} (f : A -> M B) l w l' w' :
  mapM f l w = (Ok l', w') -> List.length l' = List.length l.
Proof.
  revert w l' w'; induction l as [|x l IH]; intros w l' w'; simpl; unfold ret.
  - by intros [= <- _].
  - intros (y & w1 & _ & (ys & w2 & Hys & [= <- _])%bind_inv_ok)%bind_inv_ok.
    simpl. f_equal. by eapply IH.
Qed.

Lemma py_iter_truthy v items :
  py_truthy v = true -> py_iter v = Ok items -> items <> [].
Proof.
  destruct v as [| b | n | s | l | kvs]; simpl; try done.
  - destruct s; [done|]. by intros _ [= <-].
  - destruct l; [done|]. by intros _ [= <-].
  - destruct kvs; [done|]. by intros _ [= <-].
Qed.

(** *** A source that returns, returns items *)

Lemma process_non_github_url_nonempty d w l w' :
  exit_on_error w -> process_non_github_url d w = (Ok l, w') -> l <> [].
Proof.
  intros Hex Hrun. unfold process_non_github_url in Hrun.
  apply try_inv_ok in Hrun as [Hrun | (e & w1 & Hbody & _ & Hh)].
  - apply bind_inv_ok in Hrun as (r & w1 & Hget & Hrun).
    pose proof (quiet_exit_on_error _ _
                  (read_only_run _ _ _ _ (read_only_requests_get _ _) Hget) Hex) as Hex1.
    apply try_inv_ok in Hrun as [Hrun | (e & w2 & Hbody & _ & Hh)].
    + apply bind_inv_ok in Hrun as (data & w2 & Hload & Hrun).
      pose proof (quiet_exit_on_error _ _
                    (read_only_run _ _ _ _ (read_only_json_loads_text _) Hload) Hex1) as Hex2.
      apply bind_inv_ok in Hrun as (v & w3 & Hlist & Hrun).
      pose proof (quiet_exit_on_error _ _
                    (read_only_run _ _ _ _ (read_only_get_design_examples_list _) Hlist)
                    Hex2) as Hex3.
      destruct (py_truthy v) eqn:Htruthy.
      * apply bind_inv_ok in Hrun as (n & w4 & _ & Hrun).
        apply bind_inv_ok in Hrun as (_ & w5 & _ & Hrun).
        apply bind_inv_ok in Hrun as (items & w6 & Hiter & Hrun).
        unfold lift in Hiter. injection Hiter as Hiter _.
        apply mapM_length in Hrun.
        pose proof (py_iter_truthy _ _ Htruthy Hiter) as Hne.
        destruct items; [done|]. by destruct l.
      * apply bind_inv_ok in Hrun as ([] & w4 & Hlog & _).
        by apply logging_error_not_ok in Hlog.
    + apply bind_inv_ok in Hh as ([] & w3 & Hlog & _).
      apply logging_error_not_ok in Hlog; [done|].
      eapply quiet_exit_on_error; [|exact Hex1].
      eapply read_only_run; [|exact Hbody].
      ro.
      * apply read_only_json_loads_text.
      * apply read_only_get_design_examples_list.
      * apply read_only_with_download_url.
  - apply bind_inv_ok in Hh as ([] & w3 & Hlog & _).
    apply logging_error_not_ok in Hlog; [done|].
    eapply quiet_exit_on_error; [|exact Hex].
    eapply read_only_run; [|exact Hbody].
    ro.
    + apply read_only_json_loads_text.
    + apply read_only_get_design_examples_list.
    + apply read_only_with_download_url.
Qed.

Lemma process_github_url_nonempty d w l w' :
  exit_on_error w -> process_github_url d w = (Ok l, w') -> l <> [].
Proof.
  intros Hex Hrun. unfold process_github_url in Hrun.
  apply bind_inv_ok in Hrun as (releases & w1 & Hfetch & Hrun).
  apply bind_inv_ok in Hrun as (release_list & w2 & Hiter & Hrun).
  apply bind_inv_ok in Hrun as (acc & w3 & Hfold & Hrun).
  cbv zeta in Hrun. destruct (fst acc) as [|x rest].
  - apply bind_inv_ok in Hrun as ([] & w4 & Hlog & _).
    apply logging_error_not_ok in Hlog; [done|].
    eapply quiet_exit_on_error; [|exact Hex].
    eapply quiet_trans;
      [eapply read_only_run; [apply read_only_fetch_github_releases | exact Hfetch]|].
    eapply quiet_trans;
      [eapply read_only_run; [apply read_only_lift | exact Hiter]|].
    eapply read_only_run; [|exact Hfold].
    apply read_only_foldM. intros. apply read_only_process_release.
  - unfold ret in Hrun. by injection Hrun as <- _.
Qed.

Lemma process_source_nonempty acc d w l w' :
  exit_on_error w -> process_source acc d w = (Ok l, w') ->
  exists l2, l = acc ++ l2 /\ l2 <> [].
Proof.
  intros Hex Hrun. unfold process_source in Hrun.
  apply bind_inv_ok in Hrun as ([] & w1 & Hlog1 & Hrun).
  apply bind_inv_ok in Hrun as ([] & w2 & Hlog2 & Hrun).
  apply bind_inv_ok in Hrun as (l1 & w3 & Hurl & Hrun).
  apply bind_inv_ok in Hrun as (l2 & w4 & Hmap & Hrun).
  unfold ret in Hrun. injection Hrun as <- _. exists l2. split; [done|].
  apply mapM_length in Hmap.
  assert (Hex2 : exit_on_error w2).
  { eapply quiet_exit_on_error; [|exact Hex].
    eapply quiet_trans; eapply read_only_run; try eassumption;
      apply read_only_logging_log. }
  assert (l1 <> []) as Hne.
  { unfold process_url in Hurl. destruct (is_github (url d)).
    - by eapply process_github_url_nonempty.
    - by eapply process_non_github_url_nonempty. }
  destruct l1; [done|]. by destruct l2.
Qed.

Lemma foldM_process_source_nonempty ds acc w l w' :
  exit_on_error w -> foldM process_source ds acc w = (Ok l, w') ->
  acc <> [] \/ ds <> [] -> l <> [].
Proof.
  revert acc w; induction ds as [|d ds IH]; intros acc w Hex Hrun Hne; simpl in Hrun.
  - unfold ret in Hrun. injection Hrun as <- _. by destruct Hne.
  - apply bind_inv_ok in Hrun as (acc1 & w1 & Hsrc & Hrun).
    destruct (process_source_nonempty _ _ _ _ _ Hex Hsrc) as (l2 & -> & Hl2).
    eapply IH; [|exact Hrun|].
    + eapply quiet_exit_on_error; [|exact Hex].
      eapply read_only_run; [apply read_only_process_source | exact Hsrc].
    + left. destruct acc; [by destruct l2 | done].
Qed.

Lemma collect_urls_prefix items acc :
  exists rest, fst (collect_urls items acc) = acc ++ rest.
Proof.
  revert acc; induction items as [|item items IH]; intros acc; simpl.
  - exists []. by rewrite app_nil_r.
  - destruct (py_contains "url" item) as [[|]|e].
    + destruct (py_getitem item "url") as [u|e].
      * destruct (IH (acc ++ [u])) as [rest ->]. exists (u :: rest).
        by rewrite <- app_assoc.
      * exists []. by rewrite app_nil_r.
    + apply IH.
    + exists []. by rewrite app_nil_r.
Qed.

(** The legacy endpoint is always the first source. *)
Lemma get_predefined_url_legacy w urls w' :
  get_predefined_url w = (Ok urls, w') ->
  exists rest, urls = get_legacy_predefined_url ++ rest.
Proof.
  assert (Herr : forall e urls0 w0,
    (if is_FileNotFoundError e
     then logging_error "File not found: {}" [JStr PREDEFINED_URL_FILE] ;; ret urls0
     else if is_JSONDecodeError e
     then logging_error "Failed to decode JSON from file {}: {e}"
            [JStr PREDEFINED_URL_FILE] ;; ret urls0
     else if is_Exception e
     then logging_error "An unexpected error occurred while reading the file {}: {e}"
            [JStr PREDEFINED_URL_FILE] ;; ret urls0
     else raise e) w0 = (Ok urls, w') -> urls = urls0).
  { intros e urls0 w0.
    destruct (is_FileNotFoundError e); [|destruct (is_JSONDecodeError e);
                                          [|destruct (is_Exception e); [|done]]];
      unfold ret; by intros (_ & ? & _ & [= <- _])%bind_inv_ok. }
  unfold get_predefined_url.
  destruct (json_load_file PREDEFINED_URL_FILE w) as [[data|e] w1].
  - destruct (py_iter data) as [items|e].
    + pose proof (collect_urls_prefix items get_legacy_predefined_url) as [rest Hrest].
      destruct (collect_urls items get_legacy_predefined_url) as [urls0 [[]|e]];
        simpl in Hrest; subst urls0.
      * intros [= <- _]. by exists rest.
      * intros ->%Herr. by exists rest.
    + intros ->%Herr. exists []. by rewrite app_nil_r.
  - intros ->%Herr. exists []. by rewrite app_nil_r.
Qed.

Lemma extract_url_details_length urls ds :
  extract_url_details urls = Ok ds -> List.length ds = List.length urls.
Proof.
  revert ds; induction urls as [|u urls IH]; intros ds; cbn [extract_url_details].
  - by intros [= <-].
  - destruct (extract_url_detail u); [|done].
    destruct (extract_url_details urls) as [ds'|]; [|done].
    intros [= <-]. simpl. f_equal. by apply IH.
Qed.

(** With the logging the tool installs, the loop over the sources never
    ends with an empty list: a source without items has ended the run. *)
Lemma aggregate_nonempty w l w' :
  exit_on_error w -> aggregate w = (Ok l, w') -> l <> [].
Proof.
  intros Hex Hrun. unfold aggregate in Hrun.
  apply bind_inv_ok in Hrun as (urls & w1 & Hurls & Hrun).
  apply bind_inv_ok in Hrun as (ds & w2 & Hds & Hrun).
  unfold lift in Hds. injection Hds as Hds <-.
  destruct (get_predefined_url_legacy _ _ _ Hurls) as [rest ->].
  apply extract_url_details_length in Hds as Hlen.
  destruct ds as [|d ds]; [done|].
  eapply foldM_process_source_nonempty; [|exact Hrun|].
  - eapply quiet_exit_on_error; [|exact Hex].
    eapply read_only_run; [apply read_only_get_predefined_url | exact Hurls].
  - right. unfold get_unique_urls. simpl. done.
Qed.

(** C5: when the loop over the sources ends with an empty list,
    [get_design_examples] does nothing but report it with an error
    record, on which the installed handler ends the process: no merge,
    no comparison, no write.  A run from a fresh process that gathers
    no item ends with an exception and has written nothing; the
    exception is the one that ended the loop, since with the installed
    handler a source without items ends the run on the spot. *)
Theorem main_aborts_without_items :
  (forall opts w w2,
     aggregate w = (Ok [], w2) ->
     exists w3,
       quiet w w3 /\
       get_design_examples opts w =
         logging_error "No list.json files were found." [] w3 /\
       quiet w (snd (get_design_examples opts w))) /\
  (forall w,
     w_handlers w = [] ->
     aggregated_items w = [] ->
     exists e w',
       main w = (Raise e, w') /\
       (initialize_logging ;; aggregate) w = (Raise e, w') /\
       w_files w' = w_files w /\
       ~ performs_write w w').
Proof.
  split.
  - intros opts w w2 Hagg. unfold get_design_examples.
    pose proof (read_only_run _ _ _ _ read_only_aggregate Hagg) as Hq.
    rewrite (bind_ok _ _ _ _ _ Hagg).
    destruct (logging_info_ok "----------------------------------------" [] w2)
      as (w3 & E3 & Hq3).
    rewrite (bind_ok _ _ _ _ _ E3).
    pose proof (quiet_trans _ _ _ Hq Hq3) as Hq13.
    exists w3. split; [exact Hq13|]. split; [done|].
    eapply quiet_trans; [exact Hq13 | apply read_only_logging_log].
  - intros w Hh Hitems. unfold aggregated_items in Hitems.
    set (w1 := set_logging [ExitOnExceptionHandler] INFO w).
    assert (E1 : initialize_logging w = (Ok tt, w1))
      by (unfold initialize_logging; by rewrite Hh).
    assert (Hex : exit_on_error w1) by done.
    rewrite (bind_ok _ _ _ _ _ E1) in Hitems |- *.
    unfold main. rewrite (bind_ok _ _ _ _ _ E1).
    unfold check_prerequisite at 1.
    rewrite (bind_ok _ _ w1 _ w1) by done.
    destruct (aggregate w1) as [[items|e] w2] eqn:Hagg.
    + subst items. by apply aggregate_nonempty in Hagg.
    + pose proof (read_only_run _ _ _ _ read_only_aggregate Hagg) as Hq.
      unfold get_design_examples.
      rewrite (bind_raise _ _ w1 e w2) by by rewrite (bind_raise _ _ _ _ _ Hagg).
      exists e, w2. repeat split.
      * by destruct Hq as (_ & -> & _).
      * intros Hp. by apply (quiet_not_write w1 w2).
Qed.

Lemma main_aborts_without_items_witness :
  (exists w3,
     quiet empty_legacy_plain_world w3 /\
     get_design_examples example_options empty_legacy_plain_world =
       logging_error "No list.json files were found." [] w3) /\
  (exists e w',
     main empty_legacy_world = (Raise e, w') /\
     w_files w' = w_files empty_legacy_world /\
     ~ performs_write empty_legacy_world w').
Proof.
  split.
  - destruct (proj1 main_aborts_without_items example_options empty_legacy_plain_world
                (snd (aggregate empty_legacy_plain_world)))
      as (w3 & Hq & Hrun & _).
    + vm_compute. reflexivity.
    + by exists w3.
  - destruct (proj2 main_aborts_without_items empty_legacy_world)
      as (e & w' & Hrun & _ & Hf & Hw).
    + reflexivity.
    + vm_compute. reflexivity.
    + by exists e, w'.
Defined.

(** The run on a source that answers with an empty list, spelled out:
    the error record of the source ends the run with exit status -1.
    Under a logger that only writes, the same source leaves the loop
    with an empty list, which is reported and nothing is written. *)
Example empty_source_run :
  (exists w',
     main empty_legacy_world = (Raise (SystemExit (-1)), w') /\
     w_events w' =
       [ EvLog INFO "----------------------------------------" [];
         EvLog INFO "Processing URL {}" [JStr legacy_url];
         EvGet legacy_url [];
         EvLog ERROR "Unable to find any design examples in URL {}" [JStr legacy_url] ]) /\
  (exists w',
     get_design_examples example_options empty_legacy_plain_world = (Ok tt, w') /\
     w_files w' = w_files empty_legacy_plain_world /\
     w_events w' =
       [ EvLog INFO "----------------------------------------" [];
         EvLog INFO "Processing URL {}" [JStr legacy_url];
         EvGet legacy_url [];
         EvLog ERROR "Unable to find any design examples in URL {}" [JStr legacy_url];
         EvLog INFO "----------------------------------------" [];
         EvLog ERROR "No list.json files were found." [] ]).
Proof.
  split; eexists.
  - split; vm_compute; reflexivity.
  - split; [vm_compute; reflexivity|]. split; vm_compute; reflexivity.
Qed.

(** *** Failing sources *)

Lemma foldM_app {A S} (f : S -> A -> M S) l1 l2 s w :
  foldM f (l1 ++ l2) s w = bind (foldM f l1 s) (foldM f l2) w.
Proof.
  revert s w; induction l1 as [|x l1 IH]; intros s w; simpl; [done|].
  unfold bind. destruct (f s x w) as [[s1|e] w1]; [|done].
  rewrite IH. done.
Qed.










(** ** The pattern matcher *)

Local Arguments String.append : simpl nomatch.

Lemma str_app_assoc (a b c : string) : (a +:+ b) +:+ c = a +:+ (b +:+ c).
Proof. induction a as [|x a IH]; simpl; [done | by rewrite IH]. Qed.

Lemma str_app_nil_r (a : string) : a +:+ "" = a.
Proof. induction a as [|x a IH]; simpl; [done | by rewrite IH]. Qed.

Lemma str_length_app (a b : string) :
  String.length (a +:+ b) = (String.length a + String.length b)%nat.
Proof. induction a as [|x a IH]; simpl; [done | by rewrite IH]. Qed.

Lemma str_app_inv_head (a b c : string) : a +:+ b = a +:+ c -> b = c.
Proof. induction a as [|x a IH]; simpl; [done | intros [= H]; auto]. Qed.

Lemma str_strip_prefix_app p s s' :
  str_strip_prefix p s = Some s' <-> s = p +:+ s'.
Proof.
  revert s; induction p as [|a p IH]; intros s; simpl.
  - split; [by intros [= ->] | by intros ->].
  - destruct s as [|b s]; [by split|].
    destruct (Ascii.eqb_spec a b) as [->|Hne].
    + rewrite IH. split; [by intros -> | by intros [= ->]].
    + split; [done | intros [= ? ?]; done].
Qed.

Lemma re_star_sound cl k s t m :
  re_star cl k s = Some (t, m) ->
  str_forall (cclass_match cl) t = true /\ exists s', s = t +:+ s' /\ k s' = Some m.
Proof.
  revert t; induction s as [|c s IH]; intros t; simpl.
  - destruct (k "") as [m'|] eqn:Hk; [|done]. intros [= <- <-]. by eauto.
  - assert (Hstop : match k (String c s) with
                    | Some m0 => Some ("", m0)
                    | None => None
                    end = Some (t, m) ->
            str_forall (cclass_match cl) t = true /\
            exists s', String c s = t +:+ s' /\ k s' = Some m).
    { destruct (k (String c s)) as [m'|] eqn:Hk; [|done]. intros [= <- <-]. by eauto. }
    destruct (cclass_match cl c) eqn:Hc; [|done].
    destruct (re_star cl k s) as [[t' m']|] eqn:Hrec; [|done].
    intros [= <- <-]. destruct (IH t' eq_refl) as (Ht' & s' & -> & Hk).
    simpl. rewrite Hc. by eauto.
Qed.

Lemma re_star_complete cl k t s' m :
  str_forall (cclass_match cl) t = true -> k s' = Some m ->
  exists r, re_star cl k (t +:+ s') = Some r.
Proof.
  intros Ht Hk. induction t as [|c t IH]; simpl in *.
  - destruct s' as [|c s']; simpl; rewrite Hk; [by eauto|].
    destruct (cclass_match cl c); [|by eauto].
    destruct (re_star cl k s') as [[t' m']|]; by eauto.
  - apply andb_true_iff in Ht as [Hc Ht]. rewrite Hc.
    destruct (IH Ht) as [[t' m'] ->]. by eauto.
Qed.

(** What a successful match consists of: one piece per token, each as
    its token asks, the pieces together a prefix of the text. *)
Lemma re_match_here_sound p s m :
  re_match_here p s = Some m ->
  map fst m = map rtok_is_group p /\
  Forall2 atom_ok (map rtok_atom p) (map snd m) /\
  exists rest, s = group0 m +:+ rest.
Proof.
  unfold group0. revert s m; induction p as [|t p IH]; intros s m; simpl.
  - intros [= <-]. repeat split; [constructor | by exists s].
  - destruct (rtok_atom t) as [l|cl|cl] eqn:Ha.
    + destruct (str_strip_prefix l s) as [s'|] eqn:Hl; [|done].
      destruct (re_match_here p s') as [m'|] eqn:Hm; [|done].
      intros [= <-]. destruct (IH _ _ Hm) as (Hg & Hok & rest & Hs).
      apply str_strip_prefix_app in Hl. simpl. rewrite Hg.
      repeat split; [by constructor|]. exists rest.
      by rewrite Hl, Hs, str_app_assoc.
    + destruct (re_star cl (re_match_here p) s) as [[x m']|] eqn:Hstar; [|done].
      intros [= <-]. apply re_star_sound in Hstar as (Hx & s' & -> & Hm).
      destruct (IH _ _ Hm) as (Hg & Hok & rest & Hs).
      simpl. rewrite Hg. repeat split; [by constructor|]. exists rest.
      by rewrite Hs, str_app_assoc.
    + destruct s as [|c s]; [done|].
      destruct (cclass_match cl c) eqn:Hc; [|done].
      destruct (re_star cl (re_match_here p) s) as [[x m']|] eqn:Hstar; [|done].
      intros [= <-]. apply re_star_sound in Hstar as (Hx & s' & -> & Hm).
      destruct (IH _ _ Hm) as (Hg & Hok & rest & Hs).
      simpl. rewrite Hg. repeat split.
      * constructor; [|done]. simpl. by rewrite Hc, Hx.
      * exists rest. by rewrite Hs, str_app_assoc.
Qed.

(** The matcher finds a match wherever one exists. *)
Lemma re_match_here_complete p pieces rest :
  Forall2 atom_ok (map rtok_atom p) pieces ->
  exists m, re_match_here p (str_concat pieces +:+ rest) = Some m.
Proof.
  revert pieces; induction p as [|t p IH]; intros pieces Hok; simpl.
  - by eauto.
  - simpl in Hok. apply Forall2_cons_inv_l in Hok as (piece & pieces' & Hpiece & Hok & ->).
    destruct (IH _ Hok) as [m Hm]. simpl. rewrite str_app_assoc.
    destruct (rtok_atom t) as [l|cl|cl]; simpl in Hpiece.
    + subst piece.
      rewrite (proj2 (str_strip_prefix_app l _ (str_concat pieces' +:+ rest)) eq_refl).
      rewrite Hm. by eauto.
    + destruct (re_star_complete cl (re_match_here p) piece _ m Hpiece Hm) as [[x m'] ->].
      by eauto.
    + destruct Hpiece as [Hne Hpiece]. destruct piece as [|c piece]; [done|].
      simpl in *. apply andb_true_iff in Hpiece as [Hc Hpiece]. rewrite Hc.
      destruct (re_star_complete cl (re_match_here p) piece _ m Hpiece Hm) as [[x m'] ->].
      by eauto.
Qed.

(** ** Image tags and the pattern *)

Lemma img_tag_pieces before src after :
  str_concat ["<img "; before; "src=" +:+ String dquote ""; src;
              String dquote ""; after; ">"] =
  "<img " +:+ before +:+ "src=" +:+ quoted src +:+ after +:+ ">".
Proof.
  unfold quoted. simpl. do 11 f_equal. by rewrite str_app_assoc.
Qed.

(** A match of the pattern is an image tag, its group the source. *)
Lemma img_pattern_shape s m :
  re_match_here img_pattern s = Some m ->
  exists before src after rest,
    img_tag_parts before src after /\
    group0 m = img_tag_text before src after /\ group1 m = src /\
    s = group0 m +:+ rest.
Proof.
  intros Hm. apply re_match_here_sound in Hm as (Hg & Hok & rest & Hrest).
  do 7 (destruct m as [|[? ?] m]; [done|]). destruct m; [|done].
  simpl in Hg. injection Hg as -> -> -> -> -> -> ->.
  simpl in Hok.
  repeat match goal with
         | H : Forall2 _ (_ :: _) (_ :: _) |- _ => apply Forall2_cons in H as [? H]
         end.
  simpl in *. subst. destruct H2 as [Hne Hsrc].
  match goal with
  | |- context [group0 [_; (_, ?b); _; (_, ?x); _; (_, ?a); _]] => exists b, x, a, rest
  end.
  split; [unfold img_tag_parts; split; [done|split; [done|split; done]]|].
  split; [|done]. unfold group0. cbn [map snd]. by rewrite img_tag_pieces.
Qed.

(** ** Substitution of the matches *)

Lemma re_sub_from_cons p repl c s :
  re_sub_from p repl O (String c s) =
  match re_match_here p (String c s) with
  | Some m => repl m +:+ re_sub_from p repl (Nat.pred (String.length (group0 m))) s
  | None => String c (re_sub_from p repl O s)
  end.
Proof. done. Qed.

Lemma re_sub_from_skip p repl a rest :
  re_sub_from p repl (String.length a) (a +:+ rest) = re_sub_from p repl O rest.
Proof.
  induction a as [|c a IH]; simpl; [|done].
  by destruct rest.
Qed.

(** ** The raw-content conversion *)

Lemma str_drop_app a b : str_drop (String.length a) (a +:+ b) = b.
Proof. induction a as [|c a IH]; simpl; [by destruct b | done]. Qed.

Lemma str_cut_cons sep c s :
  str_cut sep (String c s) =
  if String.prefix sep (String c s)
  then Some ("", str_drop (String.length sep) (String c s))
  else match str_cut sep s with
       | Some (a, b) => Some (String c a, b)
       | None => None
       end.
Proof. done. Qed.

Lemma str_cut_spec sep s :
  match str_cut sep s with
  | Some (a, b) =>
      s = a +:+ sep +:+ b /\
      forall a' b', s = a' +:+ sep +:+ b' ->
                    (String.length a <= String.length a')%nat
  | None => str_contains sep s = false
  end.
Proof.
  induction s as [|c s IH].
  - unfold str_cut, str_contains. destruct (String.prefix sep "") eqn:Hp; [|done].
    apply prefix_app in Hp as [t Ht]. destruct sep; [|done].
    split; [done | simpl; lia].
  - rewrite str_cut_cons, str_contains_cons.
    destruct (String.prefix sep (String c s)) eqn:Hp.
    + apply prefix_app in Hp as [t Ht]. rewrite Ht, str_drop_app.
      split; [done | simpl; lia].
    + destruct (str_cut sep s) as [[a b]|].
      * destruct IH as [-> Hmin]. split; [done|].
        intros [|c' a'] b' Heq.
        -- simpl in Heq. assert (String.prefix sep (String c (a +:+ sep +:+ b)) = true)
             by (apply prefix_app; by exists b').
           congruence.
        -- simpl in Heq. injection Heq as _ Heq. apply Hmin in Heq. simpl. lia.
      * done.
Qed.

Lemma last_part_split1 sep s : after_first sep s (last_part (str_split1 sep s)).
Proof.
  unfold after_first, str_split1. pose proof (str_cut_spec sep s) as H.
  destruct (str_cut sep s) as [[a b]|].
  - left. exists a. exact H.
  - right. by split.
Qed.

(** C3: the image rewriter does not do what its comment announces
    (only a GitHub URL of the same repository is made raw).  It tests
    for the text [github.com] anywhere in the URL, so the source of an
    image on another host whose path contains [github.com] and the
    repository id is rewritten.  And the URL it tests is not the [src]
    attribute of the tag but the last quoted value that follows the
    letters [src=]: in a tag that also has a [data-src], the [src]
    attribute, although a GitHub URL of the repository, stays as it is.
    The two examples of the specification hold. *)
Theorem image_rewrite_not_only_github :
  let foreign := "https://evil.example/github.com/intel/example/blob/x.png" in
  let github := "https://github.com/intel/example/blob/main/x.png" in
  let two_sources :=
    "<img src=" +:+ quoted github +:+ " data-src=" +:+
    quoted "https://cdn.example/y.png" +:+ ">" in
  (url_hostname foreign = Ok "evil.example" /\
   use_raw_image_url (img foreign) "intel/example" =
     img "https://raw.githubusercontent.com/intel/example/x.png") /\
  (url_hostname github = Ok "github.com" /\
   str_contains "intel/example" github = true /\
   use_raw_image_url two_sources "intel/example" = two_sources) /\
  use_raw_image_url (img github) "intel/example" =
    img "https://raw.githubusercontent.com/intel/example/main/x.png" /\
  use_raw_image_url (img github) "other/repo" = img github.
Proof. vm_compute. by repeat split. Qed.

(** * Part III: further properties of the tool *)

(** ** Descriptions that are left alone *)

Lemma str_contains_false_cons sub c s :
  str_contains sub (String c s) = false -> str_contains sub s = false.
Proof. rewrite str_contains_cons. by intros [_ ?]%orb_false_iff. Qed.

Lemma str_contains_inside sub pre s post :
  str_contains sub s = true -> str_contains sub (pre +:+ s +:+ post) = true.
Proof.
  intros (a & b & ->)%str_contains_app. apply str_contains_app.
  exists (pre +:+ a), (b +:+ post). by rewrite !str_app_assoc.
Qed.

Lemma str_contains_false_app sub a b :
  str_contains sub (a +:+ b) = false ->
  str_contains sub a = false /\ str_contains sub b = false.
Proof.
  intros H. split.
  - destruct (str_contains sub a) eqn:Ha; [|done].
    pose proof (str_contains_inside sub "" a b Ha) as H'. simpl in H'. congruence.
  - destruct (str_contains sub b) eqn:Hb; [|done].
    pose proof (str_contains_inside sub a b "" Hb) as H'.
    rewrite str_app_nil_r in H'. congruence.
Qed.

Lemma img_tag_text_contains before src after :
  str_contains "<img " (img_tag_text before src after) = true /\
  forall sub, str_contains sub src = true ->
              str_contains sub (img_tag_text before src after) = true.
Proof.
  unfold img_tag_text. split.
  - apply str_contains_app.
    by exists "", (before +:+ "src=" +:+ quoted src +:+ after +:+ ">").
  - intros sub Hsub.
    replace ("<img " +:+ before +:+ "src=" +:+ quoted src +:+ after +:+ ">")
      with (("<img " +:+ before +:+ "src=" +:+ String dquote "") +:+ src +:+
            (String dquote "" +:+ after +:+ ">")).
    + by apply str_contains_inside.
    + rewrite <- img_tag_pieces. simpl. by rewrite !str_app_assoc.
Qed.

Lemma re_sub_unchanged repo_id n text :
  (String.length text <= n)%nat ->
  str_contains "<img " text = false \/
  str_contains "github.com" text = false \/
  str_contains repo_id text = false ->
  re_sub_from img_pattern (replace_with_raw repo_id) O text = text.
Proof.
  revert text; induction n as [|n IH]; intros [|c s] Hlen Hcond;
    try (simpl in Hlen; lia); try done.
  rewrite re_sub_from_cons.
  destruct (re_match_here img_pattern (String c s)) as [m|] eqn:Hm.
  - destruct (img_pattern_shape _ _ Hm)
      as (before & src & after & rest & _ & Hg0 & Hg1 & Hs).
    destruct (img_tag_text_contains before src after) as [Himg Hsrc].
    rewrite <- Hg0 in Himg, Hsrc.
    assert (exists g, group0 m = String c g /\ s = g +:+ rest) as (g & Hg & ->).
    { rewrite Hg0 in Hs |- *. unfold img_tag_text in *. simpl in Hs.
      injection Hs as -> ->. by eexists. }
    assert (Hrest' : str_contains "<img " rest = false \/
                     str_contains "github.com" rest = false \/
                     str_contains repo_id rest = false).
    { rewrite Hs in Hcond.
      destruct Hcond as [H|[H|H]]; apply str_contains_false_app in H as [_ H]; auto. }
    rewrite Hg. cbn [String.length Nat.pred]. rewrite re_sub_from_skip.
    rewrite IH; [|simpl in Hlen; rewrite str_length_app in Hlen; lia | done].
    assert (replace_with_raw repo_id m = group0 m) as ->.
    { unfold replace_with_raw, is_github. rewrite Hg1. rewrite Hs in Hcond.
      destruct Hcond as [H|[H|H]]; apply str_contains_false_app in H as [H _].
      - congruence.
      - destruct (str_contains "github.com" src) eqn:Hgh; [|done].
        apply Hsrc in Hgh. congruence.
      - destruct (str_contains repo_id src) eqn:Hrepo; [|by rewrite andb_false_r].
        apply Hsrc in Hrepo. congruence. }
    by rewrite Hg.
  - f_equal. apply IH; [simpl in Hlen; lia|].
    destruct Hcond as [H|[H|H]]; apply str_contains_false_cons in H; auto.
Qed.

(** X1: a description in which the text [<img ] does not occur, or the
    text [github.com] does not occur, or the repository id does not
    occur, comes back as it is. *)
Theorem use_raw_image_url_unchanged (text repo_id : string) :
  str_contains "<img " text = false \/
  str_contains "github.com" text = false \/
  str_contains repo_id text = false ->
  use_raw_image_url text repo_id = text.
Proof. by apply re_sub_unchanged with (String.length text). Qed.

Lemma use_raw_image_url_unchanged_witness :
  use_raw_image_url
    ("See " +:+ img "https://github.com/intel/example/blob/main/x.png")
    "other/repo" =
  "See " +:+ img "https://github.com/intel/example/blob/main/x.png".
Proof.
  apply (use_raw_image_url_unchanged
           ("See " +:+ img "https://github.com/intel/example/blob/main/x.png")
           "other/repo").
  right. right. vm_compute. reflexivity.
Defined.

(** ** Logging that does not end the process *)

Lemma call_handlers_ok hs level msg args w :
  (level <> ERROR /\ level <> CRITICAL) \/ ExitOnExceptionHandler ∉ hs ->
  exists w', call_handlers hs level msg args w = (Ok tt, w').
Proof.
  intros Hok. revert w. induction hs as [|h hs IH]; intros w; simpl; [by eexists|].
  assert (emit h level msg args w = (Ok tt, add_event (EvLog level msg args) w)) as Hemit.
  { unfold emit. destruct h; [done|].
    destruct Hok as [[He Hc]|Hno].
    - apply Z.eqb_neq in He, Hc. by rewrite He, Hc.
    - destruct Hno. apply elem_of_cons. by left. }
  rewrite (bind_ok _ _ _ _ _ Hemit). apply IH.
  destruct Hok as [?|Hno]; [by left | right].
  intros Hin. apply Hno, elem_of_cons. by right.
Qed.

Lemma logging_log_ok level msg args w :
  (level <> ERROR /\ level <> CRITICAL) \/ no_exit_handler w ->
  exists w', logging_log level msg args w = (Ok tt, w') /\ quiet w w'.
Proof.
  intros Hok.
  pose proof (read_only_logging_log level msg args w) as Hq.
  unfold logging_log in *.
  destruct (level <? _); [by eexists|].
  match goal with
  | |- context [call_handlers ?hs _ _ _ ?w1] =>
      destruct (call_handlers_ok hs level msg args w1) as [w' Hw']
  end.
  - destruct Hok as [?|Hno]; [by left | right].
    unfold no_exit_handler in Hno. destruct (w_handlers w) eqn:E.
    + simpl. by intros [=]%list_elem_of_singleton.
    + by rewrite E.
  - rewrite Hw' in Hq |- *. by exists w'.
Qed.

(** ** The endpoint that is not a GitHub repository *)

Lemma mapM_Forall {A B} (P : B -> Prop) (f : A -> M B) l w l' w' :
  (forall x w y w', f x w = (Ok y, w') -> P y) ->
  mapM f l w = (Ok l', w') -> Forall P l'.
Proof.
  intros Hf. revert w l' w'; induction l as [|x l IH]; intros w l' w'; simpl; unfold ret.
  - by intros [= <- _].
  - intros (y & w1 & Hy & (ys & w2 & Hys & [= <- _])%bind_inv_ok)%bind_inv_ok.
    constructor; [by eapply Hf | by eapply IH].
Qed.

Lemma mapM_pure {A B} (f : A -> M B) (g : A -> B) l w :
  Forall (fun x => forall w, f x w = (Ok (g x), w)) l ->
  mapM f l w = (Ok (map g l), w).
Proof.
  induction 1 as [|x l Hx _ IH]; simpl; [done|].
  unfold bind. by rewrite Hx, IH.
Qed.

Lemma then_ret_nil_inv {A B} (m : M A) (l : list B) w w' :
  (m ;; ret []) w = (Ok l, w') -> l = [].
Proof.
  intros (a & w1 & _ & Hret)%bind_inv_ok. unfold ret in Hret. by injection Hret as <- _.
Qed.

Lemma with_download_url_inv item w item' w' :
  with_download_url item w = (Ok item', w') -> has_direct_download item'.
Proof.
  destruct item as [| b | n | s | l | kvs]; try done.
  unfold with_download_url, py_getitem, bind, lift, ret.
  destruct (dict_get "downloadUrl" kvs) as [download|] eqn:Hd; [|done].
  intros [= <- _]. exists (dict_set "Q_DOWNLOAD_URL" download kvs), download.
  split; [done|]. by rewrite !dict_get_set, Hd.
Qed.

Lemma with_download_url_direct item w :
  has_download item -> with_download_url item w = (Ok (direct_item item), w).
Proof.
  intros (kvs & download & -> & Hd).
  unfold with_download_url, py_getitem, bind, lift, ret, direct_item. by rewrite Hd.
Qed.

Lemma get_design_examples_list_carries data l w :
  carries_designs data l -> get_design_examples_list data w = (Ok l, w).
Proof.
  intros (kvs & -> & [(inner & Hd & Hl) | [Hd Hl]]).
  - by apply get_design_examples_list_shapes with inner.
  - by apply get_design_examples_list_shapes.
Qed.

Lemma non_github_items_direct_download d w l w' :
  process_non_github_url d w = (Ok l, w') -> Forall has_direct_download l.
Proof.
  unfold process_non_github_url.
  intros [Hrun | (e & w1 & _ & _ & Hh)]%try_inv_ok.
  - apply bind_inv_ok in Hrun as (r & w1 & _ & Hrun).
    apply try_inv_ok in Hrun as [Hrun | (e & w2 & _ & _ & Hh)].
    + apply bind_inv_ok in Hrun as (data & w2 & _ & Hrun).
      apply bind_inv_ok in Hrun as (v & w3 & _ & Hrun).
      destruct (py_truthy v).
      * apply bind_inv_ok in Hrun as (n & w4 & _ & Hrun).
        apply bind_inv_ok in Hrun as (_ & w5 & _ & Hrun).
        apply bind_inv_ok in Hrun as (items & w6 & _ & Hrun).
        eapply mapM_Forall; [|exact Hrun]. apply with_download_url_inv.
      * apply then_ret_nil_inv in Hrun as ->. constructor.
    + apply then_ret_nil_inv in Hh as ->. constructor.
  - apply then_ret_nil_inv in Hh as ->. constructor.
Qed.

(** X2: whatever the endpoint answers, every item the fetcher of
    non-GitHub sources returns is an object whose [Q_DOWNLOAD_URL] is its
    own [downloadUrl]. *)
Theorem process_non_github_url_direct_download (d : url_detail) (w w' : world)
    (l : list json) :
  process_non_github_url d w = (Ok l, w') -> Forall has_direct_download l.
Proof. apply non_github_items_direct_download. Qed.

Lemma process_non_github_url_direct_download_witness :
  Forall has_direct_download
    [JObj [("downloadUrl", JStr "https://example.org/pkg.zip");
           ("rich_description", JStr "A design example");
           ("Q_DOWNLOAD_URL", JStr "https://example.org/pkg.zip")];
     JObj [("downloadUrl", JStr "https://example.org/b.zip");
           ("rich_description", JStr "B");
           ("Q_DOWNLOAD_URL", JStr "https://example.org/b.zip")]].
Proof.
  apply (process_non_github_url_direct_download legacy_detail two_items_world
           (snd (process_non_github_url legacy_detail two_items_world))).
  vm_compute. reflexivity.
Defined.

(** X3: the fetcher of non-GitHub sources never looks at the HTTP
    status: an answer of any status whose body has one of the two
    accepted shapes, with a non-empty list of items that name their
    package, is returned item by item with [Q_DOWNLOAD_URL] added, and
    no file is written. *)
Theorem process_non_github_url_any_status (d : url_detail) (w : world)
    (r : http_response) (data : json) (items : list json) :
  w_http w (url d) (hdrs d) = HttpReplies r ->
  resp_json r = Some data ->
  carries_designs data (JArr items) ->
  items <> [] ->
  Forall has_download items ->
  exists w', process_non_github_url d w = (Ok (map direct_item items), w') /\
             quiet w w'.
Proof.
  intros Hhttp Hjson Hdata Hne Hitems.
  pose proof (read_only_process_non_github_url d w) as Hq.
  unfold process_non_github_url, try_except, bind, requests_get, json_loads_text in *.
  rewrite Hhttp, Hjson in *. unfold ret at 1 in Hq. unfold ret at 1.
  rewrite (get_design_examples_list_carries _ _ _ Hdata) in *.
  destruct items as [|item items]; [done|].
  cbn [py_truthy py_len lift py_iter] in *.
  destruct (logging_info_ok "Found {} design examples in this non GitHub URL"
              [JNum (Z.of_nat (List.length (item :: items)))]
              (add_event (EvGet (url d) (hdrs d)) w)) as (w1 & Hlog & _).
  rewrite Hlog in *.
  rewrite (mapM_pure _ direct_item) in *.
  - by eexists.
  - eapply Forall_impl; [exact Hitems|]. intros x Hx w0. by apply with_download_url_direct.
  - eapply Forall_impl; [exact Hitems|]. intros x Hx w0. by apply with_download_url_direct.
Qed.

Lemma process_non_github_url_any_status_witness :
  exists w', process_non_github_url legacy_detail not_found_world =
               (Ok (map direct_item [example_item]), w') /\
             quiet not_found_world w'.
Proof.
  apply (process_non_github_url_any_status legacy_detail not_found_world
           {| resp_status := 404;
              resp_json := Some (JObj [("designs", JArr [example_item])]) |}
           (JObj [("designs", JArr [example_item])])).
  - reflexivity.
  - reflexivity.
  - exists [("designs", JArr [example_item])]. split; [reflexivity|]. right.
    split; reflexivity.
  - discriminate.
  - repeat constructor. by eexists _, _.
Defined.

(** ** Items of a release *)

Lemma logging_warning_quiet msg args w :
  exists w', logging_warning msg args w = (Ok tt, w') /\ quiet w w'.
Proof. apply logging_log_ok. left. by split. Qed.

(** X4: what the loop over the items of a release does to one item that
    names its package and has a text as description.  The item gets the
    URL of the asset of that name, or the empty text when the release has
    no such asset, the tag of the release, and its description with the
    image URLs rewritten; every other key keeps its value; no file is
    written, and nothing at all happens outside when the asset exists. *)
Theorem enrich_item_result (d : url_detail) (release tag : json)
    (maps : list (json * json)) (kvs : list (string * json))
    (download : json) (text : string) (w : world) :
  py_getitem release "tag_name" = Ok tag ->
  dict_get "downloadUrl" kvs = Some download ->
  py_hashable download = Ok tt ->
  dict_get "rich_description" kvs = Some (JStr text) ->
  exists kvs' w',
    enrich_item d release maps (JObj kvs) w = (Ok (JObj kvs'), w') /\
    quiet w w' /\
    dict_get "Q_DOWNLOAD_URL" kvs' = Some (default (JStr "") (jdict_get download maps)) /\
    dict_get "Q_GITHUB_RELEASE" kvs' = Some tag /\
    dict_get "rich_description" kvs' =
      Some (JStr (use_raw_image_url text (repo_owner d +:+ "/" +:+ repo_name d))) /\
    (forall k, k ∉ ["Q_DOWNLOAD_URL"; "Q_GITHUB_RELEASE"; "rich_description"] ->
               dict_get k kvs' = dict_get k kvs) /\
    (is_Some (jdict_get download maps) -> w' = w).
Proof.
  intros Htag Hd Hhash Hrich.
  set (q := default (JStr "") (jdict_get download maps)).
  set (kvs' := dict_set "rich_description"
                 (JStr (use_raw_image_url text (repo_owner d +:+ "/" +:+ repo_name d)))
                 (dict_set "Q_GITHUB_RELEASE" tag (dict_set "Q_DOWNLOAD_URL" q kvs))).
  assert (exists w', enrich_item d release maps (JObj kvs) w = (Ok (JObj kvs'), w') /\
                     quiet w w' /\ (is_Some (jdict_get download maps) -> w' = w))
    as (w' & Hrun & Hq & Hsame).
  { unfold enrich_item, bind, lift. cbn [py_getitem py_setitem]. rewrite Hd, Hhash, Htag.
    subst q kvs'. destruct (jdict_get download maps) as [asset_url|]; simpl default.
    - cbn [py_setitem py_getitem]. rewrite !dict_get_set. simpl String.eqb. rewrite Hrich.
      exists w. split; [done|]. split; [apply quiet_refl | done].
    - destruct (logging_warning_quiet "Missing asset {} in release {}" [download; tag] w)
        as (w1 & Hlog & Hq1).
      rewrite Hlog. cbn [py_setitem py_getitem]. rewrite !dict_get_set. simpl String.eqb.
      rewrite Hrich. exists w1. split; [done|]. split; [done|]. by intros [? [=]]. }
  exists kvs', w'. subst kvs'. rewrite !dict_get_set. simpl String.eqb.
  repeat (split; [done|]). split; [|done].
  intros k Hk. rewrite !dict_get_set.
  apply not_elem_of_cons in Hk as [Hk1 Hk].
  apply not_elem_of_cons in Hk as [Hk2 Hk].
  apply not_elem_of_cons in Hk as [Hk3 _].
  apply String.eqb_neq in Hk1, Hk2, Hk3. by rewrite Hk1, Hk2, Hk3.
Qed.

Lemma enrich_item_result_witness :
  exists kvs' w',
    enrich_item github_detail release_v1 package_assets (JObj package_item)
      (plain_world no_network ∅) = (Ok (JObj kvs'), w') /\
    quiet (plain_world no_network ∅) w' /\
    dict_get "Q_DOWNLOAD_URL" kvs' =
      Some (default (JStr "") (jdict_get (JStr "pkg.zip") package_assets)) /\
    dict_get "Q_GITHUB_RELEASE" kvs' = Some (JStr "v1") /\
    dict_get "rich_description" kvs' =
      Some (JStr (use_raw_image_url "A design example"
                    (repo_owner github_detail +:+ "/" +:+ repo_name github_detail))) /\
    (forall k, k ∉ ["Q_DOWNLOAD_URL"; "Q_GITHUB_RELEASE"; "rich_description"] ->
               dict_get k kvs' = dict_get k package_item) /\
    (is_Some (jdict_get (JStr "pkg.zip") package_assets) -> w' = plain_world no_network ∅).
Proof.
  apply (enrich_item_result github_detail release_v1 (JStr "v1") package_assets
           package_item (JStr "pkg.zip") "A design example"); reflexivity.
Defined.

(** ** A release list that cannot be had *)

Lemma fetch_github_releases_unavailable d w :
  releases_unavailable w d ->
  fetch_github_releases (repo_owner d) (repo_name d) (hdrs d) w =
    (logging_error "Failed to fetch releases for repository {}/{}. Error: {e}"
       [JStr (repo_owner d); JStr (repo_name d)] ;; ret JNull)
      (add_event (EvGet (releases_url (repo_owner d) (repo_name d)) (hdrs d)) w).
Proof.
  unfold releases_unavailable, fetch_github_releases, try_except, requests_get.
  unfold bind at 1 2.
  destruct (w_http w _ _) as [|r]; [done|].
  unfold raise_for_status, status_ok, response_json.
  destruct ((400 <=? resp_status r) && (resp_status r <? 600)); [done|].
  intros [Hs | ->]; [by destruct Hs | done].
Qed.

(** X5: under a logger that does not end the process on an error
    record, a release list that cannot be fetched, is refused or is not
    JSON makes [fetch_github_releases] return [None], and the loop of
    [process_github_url] over it raises [TypeError]: the function does
    not return an empty list.  No file is written. *)
Theorem process_github_url_without_releases (d : url_detail) (w : world) :
  no_exit_handler w ->
  releases_unavailable w d ->
  exists w', process_github_url d w = (Raise TypeError, w') /\ quiet w w'.
Proof.
  intros Hno Hun.
  pose proof (read_only_process_github_url d w) as Hq.
  unfold process_github_url in *. unfold bind at 1 in Hq. unfold bind at 1.
  rewrite (fetch_github_releases_unavailable _ _ Hun) in *.
  destruct (logging_log_ok ERROR
              "Failed to fetch releases for repository {}/{}. Error: {e}"
              [JStr (repo_owner d); JStr (repo_name d)]
              (add_event (EvGet (releases_url (repo_owner d) (repo_name d)) (hdrs d)) w))
    as (w1 & Hlog & _); [by right|].
  unfold logging_error, bind at 1 in Hq. unfold logging_error, bind at 1.
  rewrite Hlog in *. by exists w1.
Qed.

Lemma process_github_url_without_releases_witness :
  exists w', process_github_url github_detail (plain_world no_network ∅) =
               (Raise TypeError, w') /\
             quiet (plain_world no_network ∅) w'.
Proof.
  apply (process_github_url_without_releases github_detail (plain_world no_network ∅)).
  - unfold no_exit_handler. simpl. intros [=]%list_elem_of_singleton.
  - exact I.
Defined.

(** ** The loop over the sources *)

Lemma process_source_acc acc d w :
  process_source acc d w =
  match process_source [] d w with
  | (Ok l, w') => (Ok (acc ++ l), w')
  | (Raise e, w') => (Raise e, w')
  end.
Proof.
  unfold process_source, bind, ret.
  destruct (logging_info _ _ w) as [[[]|e] w1]; [|done].
  destruct (logging_info _ _ w1) as [[[]|e] w2]; [|done].
  destruct (process_url d w2) as [[l|e] w3]; [|done].
  by destruct (mapM _ l w3) as [[l'|e] w4].
Qed.

Lemma foldM_process_source_acc ds acc w :
  foldM process_source ds acc w =
  match foldM process_source ds [] w with
  | (Ok l, w') => (Ok (acc ++ l), w')
  | (Raise e, w') => (Raise e, w')
  end.
Proof.
  revert acc w; induction ds as [|d ds IH]; intros acc w; simpl.
  - unfold ret. by rewrite app_nil_r.
  - unfold bind. rewrite (process_source_acc acc).
    destruct (process_source [] d w) as [[l1|e] w1]; [|done].
    rewrite (IH (acc ++ l1)), (IH ([] ++ l1)).
    destruct (foldM process_source ds [] w1) as [[l|e] w2]; [|done].
    simpl. by rewrite app_assoc.
Qed.

(** X6: the items of a run are the items of its sources, in the order of
    the sources: the loop over the sources [ds1 ++ ds2] yields what the
    loop over [ds1] yields followed by what the loop over [ds2] yields
    from there on; items gathered earlier are neither changed nor
    dropped, and an exception in either part ends the whole loop. *)
Theorem sources_in_order (ds1 ds2 : list url_detail) (w : world) :
  foldM process_source (ds1 ++ ds2) [] w =
  match foldM process_source ds1 [] w with
  | (Ok l1, w1) =>
      match foldM process_source ds2 [] w1 with
      | (Ok l2, w2) => (Ok (l1 ++ l2), w2)
      | (Raise e, w2) => (Raise e, w2)
      end
  | (Raise e, w1) => (Raise e, w1)
  end.
Proof.
  rewrite foldM_app. unfold bind.
  destruct (foldM process_source ds1 [] w) as [[l1|e] w1]; [|done].
  apply foldM_process_source_acc.
Qed.

(** ** What every item of the catalog has *)

Lemma foldM_invariant {A S} (P : S -> Prop) (f : S -> A -> M S) l s w s' w' :
  (forall s x w s' w', P s -> f s x w = (Ok s', w') -> P s') ->
  P s -> foldM f l s w = (Ok s', w') -> P s'.
Proof.
  intros Hf. revert s w; induction l as [|x l IH]; intros s w Hs; simpl.
  - unfold ret. by intros [= <- _].
  - intros (s1 & w1 & Hx & Hrest)%bind_inv_ok. eapply IH; [|exact Hrest].
    by eapply Hf.
Qed.

Lemma has_direct_download_fetched item : has_direct_download item -> fetched_item item.
Proof.
  intros (kvs & download & -> & Hd & Hq). exists kvs. by rewrite Hd, Hq.
Qed.

Lemma lift_inv {A} (o : outcome A) w a w' : lift o w = (Ok a, w') -> o = Ok a.
Proof. unfold lift. by intros [= -> _]. Qed.

Lemma py_setitem_inv v k x v' :
  py_setitem v k x = Ok v' -> exists kvs, v = JObj kvs /\ v' = JObj (dict_set k x kvs).
Proof. destruct v; try done. intros [= <-]. by eexists. Qed.

Lemma enrich_item_fetched d release maps item w item' w' :
  enrich_item d release maps item w = (Ok item', w') -> fetched_item item'.
Proof.
  unfold enrich_item.
  intros (download & w1 & Hd%lift_inv & Hrun)%bind_inv_ok.
  apply bind_inv_ok in Hrun as (_ & w2 & _ & Hrun).
  apply bind_inv_ok in Hrun as (item1 & w3 & Hset1 & Hrun).
  apply bind_inv_ok in Hrun as (tag & w4 & _ & Hrun).
  apply bind_inv_ok in Hrun as (item2 & w5 & Hset2%lift_inv & Hrun).
  apply bind_inv_ok in Hrun as (rich & w6 & _ & Hrun).
  destruct rich; try done. apply lift_inv in Hrun.
  assert (exists q, py_setitem item "Q_DOWNLOAD_URL" q = Ok item1) as [q Hq].
  { destruct (jdict_get download maps) as [asset_url|].
    - apply lift_inv in Hset1. by eexists.
    - apply bind_inv_ok in Hset1 as (t & w7 & _ & Hset1).
      apply bind_inv_ok in Hset1 as (_ & w8 & _ & Hset1%lift_inv). by eexists. }
  apply py_setitem_inv in Hq as (kvs & -> & ->).
  apply py_setitem_inv in Hset2 as (? & [= <-] & ->).
  apply py_setitem_inv in Hrun as (? & [= <-] & ->).
  eexists. split; [done|]. rewrite !dict_get_set. simpl String.eqb.
  split; [|done]. simpl in Hd. by destruct (dict_get "downloadUrl" kvs).
Qed.

Lemma process_release_fetched d acc release w acc' w' :
  Forall fetched_item (fst acc) ->
  process_release d acc release w = (Ok acc', w') -> Forall fetched_item (fst acc').
Proof.
  intros Hacc. unfold process_release.
  intros (assets & w1 & _ & Hrun)%bind_inv_ok.
  apply bind_inv_ok in Hrun as (asset_list & w2 & _ & Hrun).
  apply bind_inv_ok in Hrun as (st & w3 & _ & Hrun).
  destruct (py_truthy (list_json_by_release st)).
  - apply bind_inv_ok in Hrun as (n & w4 & _ & Hrun).
    apply bind_inv_ok in Hrun as (tag & w5 & _ & Hrun).
    apply bind_inv_ok in Hrun as (_ & w6 & _ & Hrun).
    apply bind_inv_ok in Hrun as (items & w7 & _ & Hrun).
    apply bind_inv_ok in Hrun as (enriched & w8 & Hmap & Hrun).
    unfold ret in Hrun. injection Hrun as <- _. simpl.
    apply Forall_app. split; [done|].
    eapply mapM_Forall; [|exact Hmap]. intros ? ? ? ?. apply enrich_item_fetched.
  - apply bind_inv_ok in Hrun as (tag & w4 & _ & Hrun).
    apply bind_inv_ok in Hrun as (_ & w5 & _ & Hrun).
    unfold ret in Hrun. by injection Hrun as <- _.
Qed.

Lemma process_github_url_fetched d w l w' :
  process_github_url d w = (Ok l, w') -> Forall fetched_item l.
Proof.
  unfold process_github_url.
  intros (releases & w1 & _ & Hrun)%bind_inv_ok.
  apply bind_inv_ok in Hrun as (release_list & w2 & _ & Hrun).
  apply bind_inv_ok in Hrun as (acc & w3 & Hfold & Hrun).
  assert (Forall fetched_item (fst acc)) as Hacc.
  { refine (foldM_invariant (fun acc => Forall fetched_item (fst acc))
              _ _ _ _ _ _ _ _ Hfold).
    - intros ? ? ? ? ?. apply process_release_fetched.
    - simpl. constructor. }
  cbv zeta in Hrun. destruct (fst acc) as [|x rest].
  - apply then_ret_nil_inv in Hrun as ->. constructor.
  - unfold ret in Hrun. by injection Hrun as <- _.
Qed.

Lemma process_url_fetched d w l w' :
  process_url d w = (Ok l, w') -> Forall fetched_item l.
Proof.
  unfold process_url. destruct (is_github (url d)).
  - apply process_github_url_fetched.
  - intros Hrun%non_github_items_direct_download.
    eapply Forall_impl; [exact Hrun|]. apply has_direct_download_fetched.
Qed.

Lemma mark_validated l w l' w' :
  Forall fetched_item l ->
  mapM (fun item => lift (py_setitem item "Q_VALIDATED" (JBool true))) l w = (Ok l', w') ->
  Forall catalog_item l'.
Proof.
  revert w l' w'; induction l as [|x l IH]; intros w l' w' Hl; simpl; unfold ret.
  - by intros [= <- _].
  - intros (y & w1 & Hy%lift_inv & (ys & w2 & Hys & [= <- _])%bind_inv_ok)%bind_inv_ok.
    apply Forall_cons in Hl as [(kvs & -> & Hd & Hq) Hl].
    constructor; [|by eapply IH].
    injection Hy as <-. eexists. split; [done|]. rewrite !dict_get_set. by simpl String.eqb.
Qed.

Lemma process_source_catalog acc d w l w' :
  Forall catalog_item acc ->
  process_source acc d w = (Ok l, w') -> Forall catalog_item l.
Proof.
  intros Hacc. unfold process_source.
  intros (_ & w1 & _ & Hrun)%bind_inv_ok.
  apply bind_inv_ok in Hrun as (_ & w2 & _ & Hrun).
  apply bind_inv_ok in Hrun as (l1 & w3 & Hurl & Hrun).
  apply bind_inv_ok in Hrun as (l2 & w4 & Hmap & Hrun).
  unfold ret in Hrun. injection Hrun as <- _.
  apply Forall_app. split; [done|].
  eapply mark_validated; [|exact Hmap]. by eapply process_url_fetched.
Qed.

(** X7: every item the loop over the sources gathers, from whatever
    source and whatever the sources answer, is an object that names its
    package ([downloadUrl]), has a [Q_DOWNLOAD_URL], and has
    [Q_VALIDATED] set to true. *)
Theorem aggregate_items_validated (w w' : world) (items : list json) :
  aggregate w = (Ok items, w') -> Forall catalog_item items.
Proof.
  unfold aggregate.
  intros (urls & w1 & _ & Hrun)%bind_inv_ok.
  apply bind_inv_ok in Hrun as (ds & w2 & _ & Hrun).
  eapply (foldM_invariant (Forall catalog_item)); [|constructor|exact Hrun].
  intros ? ? ? ? ?. apply process_source_catalog.
Qed.

Lemma aggregate_items_validated_witness :
  Forall catalog_item (items_of (fst (aggregate two_items_world))).
Proof.
  apply (aggregate_items_validated two_items_world (snd (aggregate two_items_world))).
  vm_compute. reflexivity.
Defined.

(** ** Deduplication *)

(** X8: removing the repeated URLs of a list that has none left changes
    nothing: [get_unique_urls] is idempotent. *)
Theorem get_unique_urls_idempotent (l : list url_detail) :
  get_unique_urls (get_unique_urls l) = get_unique_urls l.
Proof.
  unfold get_unique_urls. apply unique_from_fixed.
  - intros d _. apply not_elem_of_nil.
  - apply unique_from_NoDup.
Qed.

(** ** The configured sources *)

Lemma collect_urls_objects items acc :
  Forall is_object items ->
  collect_urls items acc = (acc ++ configured_urls items, Ok tt).
Proof.
  intros Hitems. revert acc. induction Hitems as [|item items [kvs ->] _ IH]; intros acc.
  - simpl. by rewrite app_nil_r.
  - cbn [collect_urls py_contains py_getitem configured_urls omap list_omap].
    destruct (dict_get "url" kvs) as [u|] eqn:Hu.
    + rewrite bool_decide_true by done. rewrite IH.
      fold (configured_urls items). by rewrite <- app_assoc.
    + rewrite bool_decide_false by (by intros [? [=]]). by rewrite IH.
Qed.

Lemma get_predefined_url_objects w items :
  w_files w !! abspath w PREDEFINED_URL_FILE = Some (FileJson (JArr items)) ->
  Forall is_object items ->
  get_predefined_url w = (Ok (get_legacy_predefined_url ++ configured_urls items), w).
Proof.
  intros Hfile Hitems. unfold get_predefined_url, json_load_file. rewrite Hfile.
  cbn [py_iter]. by rewrite collect_urls_objects.
Qed.

(** X9: with a configuration file that holds a list of objects, the
    sources are the legacy endpoint followed by the [url] values of the
    entries, in the order of the file; entries without [url] are passed
    over; nothing is logged, requested or written. *)
Theorem get_predefined_url_configured (w : world) (items : list json) :
  w_files w !! abspath w PREDEFINED_URL_FILE = Some (FileJson (JArr items)) ->
  Forall is_object items ->
  get_predefined_url w = (Ok (get_legacy_predefined_url ++ configured_urls items), w).
Proof. apply get_predefined_url_objects. Qed.

Lemma get_predefined_url_configured_witness :
  get_predefined_url legacy_down_world =
    (Ok (get_legacy_predefined_url ++
         configured_urls [JObj [("url", JStr second_source_url)]]),
     legacy_down_world).
Proof.
  apply (get_predefined_url_configured legacy_down_world
           [JObj [("url", JStr second_source_url)]]).
  - reflexivity.
  - repeat constructor. by eexists.
Defined.

(** ** A run without a usable configuration *)

Lemma get_predefined_url_unusable w :
  exit_on_error w -> configuration_unusable w ->
  exists msg,
    get_predefined_url w =
      (Raise (SystemExit (-1)), add_event (EvLog ERROR msg [JStr PREDEFINED_URL_FILE]) w).
Proof.
  intros Hex. unfold configuration_unusable, get_predefined_url, json_load_file.
  destruct (w_files w !! abspath w PREDEFINED_URL_FILE) as [[v|]|].
  - intros [e He]. rewrite He.
    assert (e = TypeError) as -> by (destruct v; simpl in He; congruence).
    cbn [is_FileNotFoundError is_JSONDecodeError is_Exception].
    unfold bind. rewrite logging_error_exits by done. by eexists.
  - intros _. cbn [is_FileNotFoundError is_JSONDecodeError is_Exception].
    unfold bind. rewrite logging_error_exits by done. by eexists.
  - intros _. cbn [is_FileNotFoundError is_JSONDecodeError is_Exception].
    unfold bind. rewrite logging_error_exits by done. by eexists.
Qed.

(** X10: a run from a fresh process whose configuration file is missing,
    is not JSON, or holds a value that cannot be walked through ends with
    exit status -1 after a single error record: no request is sent, not
    even to the legacy endpoint, and no file is written. *)
Theorem main_without_configuration (w : world) :
  w_handlers w = [] ->
  configuration_unusable w ->
  exists msg,
    main w =
      (Raise (SystemExit (-1)),
       add_event (EvLog ERROR msg [JStr PREDEFINED_URL_FILE])
         (set_logging [ExitOnExceptionHandler] INFO w)).
Proof.
  intros Hh Hconf.
  set (w0 := set_logging [ExitOnExceptionHandler] INFO w).
  destruct (get_predefined_url_unusable w0) as [msg Hget]; [done | exact Hconf |].
  exists msg. unfold main.
  erewrite bind_ok; [|unfold initialize_logging; by rewrite Hh].
  erewrite bind_ok; [|reflexivity].
  erewrite bind_raise; [done|]. unfold get_design_examples.
  erewrite bind_raise; [done|]. unfold aggregate.
  erewrite bind_raise; [done|]. exact Hget.
Qed.

Lemma main_without_configuration_witness :
  exists msg,
    main (example_world no_network ∅) =
      (Raise (SystemExit (-1)),
       add_event (EvLog ERROR msg [JStr PREDEFINED_URL_FILE])
         (set_logging [ExitOnExceptionHandler] INFO (example_world no_network ∅))).
Proof.
  apply (main_without_configuration (example_world no_network ∅)).
  - reflexivity.
  - vm_compute. exact I.
Defined.

(** ** Writes that fail, files that cannot be read *)

Lemma write_to_file_on_refusal p c w :
  w_readonly w (abspath w p) = true ->
  write_to_file p c w =
    logging_error "Failed to write to file {}: {e}" [JStr p] w.
Proof.
  intros Hro. unfold write_to_file, try_except, bind, json_dump_file. by rewrite Hro.
Qed.

(** X11: a write the file system refuses is reported by an error record
    and by nothing else: no file changes; with the logging the tool
    installs the run ends with exit status -1; under a logger that does
    not end the process the function returns as after a write. *)
Theorem write_to_file_refused (p : string) (c : json) (w : world) :
  w_readonly w (abspath w p) = true ->
  quiet w (snd (write_to_file p c w)) /\
  (exit_on_error w -> fst (write_to_file p c w) = Raise (SystemExit (-1))) /\
  (no_exit_handler w -> fst (write_to_file p c w) = Ok tt).
Proof.
  intros Hro. rewrite (write_to_file_on_refusal _ _ _ Hro).
  split; [apply read_only_logging_log|]. split.
  - intros Hex. by rewrite logging_error_exits.
  - intros Hno. destruct (logging_log_ok ERROR "Failed to write to file {}: {e}"
                            [JStr p] w) as (w' & Hlog & _); [by right|].
    unfold logging_error. by rewrite Hlog.
Qed.

Lemma write_to_file_refused_witness :
  quiet (refusing_world two_items_world)
    (snd (write_to_file "/repo/catalog/list.json" (JArr [])
            (refusing_world two_items_world))) /\
  (exit_on_error (refusing_world two_items_world) ->
   fst (write_to_file "/repo/catalog/list.json" (JArr [])
          (refusing_world two_items_world)) = Raise (SystemExit (-1))) /\
  (no_exit_handler (refusing_world two_items_world) ->
   fst (write_to_file "/repo/catalog/list.json" (JArr [])
          (refusing_world two_items_world)) = Ok tt).
Proof.
  apply (write_to_file_refused "/repo/catalog/list.json" (JArr [])
           (refusing_world two_items_world)).
  reflexivity.
Defined.

(** X12: an output file that is not JSON is never overwritten: with the
    controller applied without error, [replace_if_diff] writes nothing,
    and with the logging the tool installs it ends the run with exit
    status -1. *)
Theorem replace_if_diff_unreadable_output (opts : options) (catalog merged : json)
    (w : world) :
  w_files w !! abspath w (output opts) = Some FileText ->
  fst (add_controller opts catalog w) = Ok merged ->
  quiet w (snd (replace_if_diff opts catalog w)) /\
  (exit_on_error w ->
   fst (replace_if_diff opts catalog w) = Raise (SystemExit (-1))).
Proof.
  intros Hf Hm.
  destruct (replace_if_diff_unfold _ _ _ _ Hm) as (w0 & Hq & ->).
  assert (w_files w0 !! abspath w0 (output opts) = Some FileText) as Hf0
    by by rewrite (quiet_lookup _ _ _ Hq).
  destruct (compare_and_write_unreadable opts merged w0 Hf0) as [Heq Hq0].
  split; [by eapply quiet_trans|].
  intros Hex. rewrite Heq, logging_error_exits; [done|].
  by eapply quiet_exit_on_error.
Qed.

Lemma replace_if_diff_unreadable_output_witness :
  quiet (unreadable_output_world)
    (snd (replace_if_diff example_options (metadata_formatize [example_item])
            unreadable_output_world)) /\
  (exit_on_error unreadable_output_world ->
   fst (replace_if_diff example_options (metadata_formatize [example_item])
          unreadable_output_world) = Raise (SystemExit (-1))).
Proof.
  apply (replace_if_diff_unreadable_output example_options
           (metadata_formatize [example_item]) (metadata_formatize [example_item])
           unreadable_output_world).
  - reflexivity.
  - vm_compute. reflexivity.
Defined.

(** X13: a controller file that is not JSON, or whose JSON value is not
    an object, is not reported by the tool: the merge is outside every
    [try], and [replace_if_diff] ends with [JSONDecodeError] in the first
    case and with [TypeError] in the second, before the output file is
    looked at; nothing is written. *)
Theorem replace_if_diff_bad_controller (opts : options) (catalog : json) (w : world) :
  (w_files w !! abspath w (controller opts) = Some FileText \/
   exists v, w_files w !! abspath w (controller opts) = Some (FileJson v) /\
             ~ is_object v) ->
  exists e w',
    replace_if_diff opts catalog w = (Raise e, w') /\ quiet w w' /\
    e = match w_files w !! abspath w (controller opts) with
        | Some FileText => JSONDecodeError
        | _ => TypeError
        end.
Proof.
  intros Hc. unfold replace_if_diff.
  destruct (logging_info_ok "----------------------------------------" [] w)
    as (w1 & E1 & Q1).
  destruct (logging_info_ok "Checking the content of {} for updates..."
              [JStr (output opts)] w1) as (w2 & E2 & Q2).
  rewrite (bind_ok _ _ _ _ _ E1), (bind_ok _ _ _ _ _ E2).
  pose proof (quiet_trans _ _ _ Q1 Q2) as Q.
  pose proof (quiet_lookup _ _ (controller opts) Q) as Hl.
  assert (exists e, add_controller opts catalog w2 = (Raise e, w2) /\
                    e = match w_files w !! abspath w (controller opts) with
                        | Some FileText => JSONDecodeError
                        | _ => TypeError
                        end) as (e & Hadd & He).
  { unfold add_controller, bind, os_path_exists, json_load_file, lift.
    rewrite Hl. destruct Hc as [Hf | (v & Hf & Hv)]; rewrite Hf.
    - rewrite bool_decide_eq_true_2 by by eexists.
      cbn beta iota. rewrite Hl, Hf. by eexists.
    - rewrite bool_decide_eq_true_2 by by eexists.
      cbn beta iota. rewrite Hl, Hf.
      exists TypeError. split; [|done]. unfold dict_display_merge.
      destruct catalog; try done. destruct v; try done. destruct Hv. by eexists. }
  exists e, w2. split; [|done]. by erewrite bind_raise.
Qed.

Lemma replace_if_diff_bad_controller_witness :
  exists e w',
    replace_if_diff example_options (metadata_formatize [example_item])
      bad_controller_world = (Raise e, w') /\
    quiet bad_controller_world w' /\
    e = match w_files bad_controller_world !!
              abspath bad_controller_world (controller example_options) with
        | Some FileText => JSONDecodeError
        | _ => TypeError
        end.
Proof.
  apply (replace_if_diff_bad_controller example_options
           (metadata_formatize [example_item]) bad_controller_world).
  right. exists (JArr []). split; [reflexivity|]. intros [kvs Hkvs]. discriminate.
Defined.

(** ** A run writes the catalog and nothing else *)

Lemma writes_only_read_only {A} path (m : M A) : read_only m -> writes_only path m.
Proof. intros Hm w. left. apply Hm. Qed.

Lemma writes_only_bind {A B} path (m : M A) (k : A -> M B) :
  read_only m -> (forall a, writes_only path (k a)) -> writes_only path (bind m k).
Proof.
  intros Hm Hk w. specialize (Hm w). unfold bind.
  destruct (m w) as [[a|e] w1]; simpl in Hm; [|by left].
  destruct (Hk a w1) as [Hq | [c Hw]].
  - left. by eapply quiet_trans.
  - right. exists c. rewrite (quiet_abspath _ _ _ Hm) in Hw. by eapply quiet_written.
Qed.

Lemma writes_last_read_only {A} path (m : M A) : read_only m -> writes_last path m.
Proof. intros Hm w. left. apply Hm. Qed.

Lemma writes_last_bind {A B} path (m : M A) (k : A -> M B) :
  read_only m -> (forall a, writes_last path (k a)) -> writes_last path (bind m k).
Proof.
  intros Hm Hk w. specialize (Hm w). unfold bind.
  destruct (m w) as [[a|e] w1]; simpl in Hm; [|by left].
  destruct (Hk a w1) as [Hq | (c & b & Hw & Hb)].
  - left. by eapply quiet_trans.
  - right. exists c, b. split; [|done].
    rewrite (quiet_abspath _ _ _ Hm) in Hw. by eapply quiet_written.
Qed.

Lemma writes_last_write_to_file p c : writes_last p (write_to_file p c).
Proof.
  intros w. destruct (w_readonly w (abspath w p)) eqn:Hro.
  - left. rewrite (write_to_file_on_refusal _ _ _ Hro). apply read_only_logging_log.
  - right. exists c, tt. by destruct (write_to_file_ok p c w Hro) as (w' & -> & Hw).
Qed.

Lemma writes_only_try {A} path (body : M A) catches handler :
  writes_last path body -> (forall e, read_only (handler e)) ->
  writes_only path (try_except body catches handler).
Proof.
  intros Hbody Hh w. specialize (Hbody w). unfold try_except.
  destruct (body w) as [[a|e] w1]; simpl in Hbody.
  - destruct Hbody as [Hq | (c & _ & Hw & _)]; [by left | right; by exists c].
  - destruct Hbody as [Hq | (c & b & _ & [=])].
    destruct (catches e); [|by left].
    left. eapply quiet_trans; [exact Hq | apply Hh].
Qed.

Lemma writes_only_compare_and_write opts merged :
  writes_only (output opts) (compare_and_write opts merged).
Proof.
  unfold compare_and_write. apply writes_only_try; [|intros e; apply read_only_logging_log].
  apply writes_last_bind; [apply read_only_os_path_exists|]. intros [|].
  - apply writes_last_bind; [apply read_only_json_load_file|]. intros v.
    destruct (py_eq v merged).
    + apply writes_last_read_only, read_only_logging_log.
    + apply writes_last_bind; [apply read_only_logging_log|]. intros _.
      apply writes_last_write_to_file.
  - apply writes_last_bind; [apply read_only_logging_log|]. intros _.
    apply writes_last_write_to_file.
Qed.

Lemma writes_only_replace_if_diff opts catalog :
  writes_only (output opts) (replace_if_diff opts catalog).
Proof.
  unfold replace_if_diff.
  apply writes_only_bind; [apply read_only_logging_log|]. intros _.
  apply writes_only_bind; [apply read_only_logging_log|]. intros _.
  apply writes_only_bind; [apply read_only_add_controller|]. intros merged.
  apply writes_only_compare_and_write.
Qed.

Lemma writes_only_get_design_examples opts :
  writes_only (output opts) (get_design_examples opts).
Proof.
  unfold get_design_examples.
  apply writes_only_bind; [apply read_only_aggregate|]. intros items.
  apply writes_only_bind; [apply read_only_logging_log|]. intros _.
  destruct items as [|item items].
  - apply writes_only_read_only, read_only_logging_log.
  - apply writes_only_bind; [apply read_only_logging_log|]. intros _.
    apply writes_only_bind; [apply read_only_logging_log|]. intros _.
    apply writes_only_replace_if_diff.
Qed.

Lemma quiet_at_most_one_write p w w' : quiet w w' -> at_most_one_write p w w'.
Proof. intros (_ & Hf & _ & _ & _ & _ & Hev). by left. Qed.

Lemma written_at_most_one_write p c w w' : written p c w w' -> at_most_one_write p w w'.
Proof. intros (_ & Hf & _ & _ & pre & post & Hev & Hpre & Hpost). right. by exists c, pre, post. Qed.

(** X14: whatever the network answers, whatever the files hold and
    however the run ends, a run changes no file except the catalog
    [catalog/list.json] under the working directory, and writes that
    file at most once. *)
Theorem main_writes_only_the_catalog (w : world) :
  at_most_one_write (output_path w) w (snd (main w)).
Proof.
  unfold main. unfold bind at 1.
  assert (exists w0, initialize_logging w = (Ok tt, w0) /\ w_files w0 = w_files w /\
                     w_events w0 = w_events w /\ w_cwd w0 = w_cwd w)
    as (w0 & -> & Hf0 & He0 & Hc0).
  { unfold initialize_logging. destruct (w_handlers w); by eexists. }
  unfold bind at 1, check_prerequisite, os_getcwd, bind at 1, ret at 1.
  set (opts := {| output := _; controller := _ |}).
  assert (at_most_one_write (output_path w) w (snd (get_design_examples opts w0))) as Hrun.
  { assert (at_most_one_write (output_path w) w0 (snd (get_design_examples opts w0))) as H.
    { assert (output_path w = abspath w0 (output opts)) as ->
        by (unfold output_path, abspath; subst opts; simpl; by rewrite Hc0).
      destruct (writes_only_get_design_examples opts w0) as [Hq | [c Hw]].
      - by apply quiet_at_most_one_write.
      - by eapply written_at_most_one_write. }
    unfold at_most_one_write in *. by rewrite Hf0, He0 in H. }
  unfold bind.
  by destruct (get_design_examples opts w0) as [[[]|e] w1].
Qed.

(** ** A run that succeeds *)

Lemma add_controller_usable opts items w :
  controller_usable (w_files w !! abspath w (controller opts)) ->
  fst (add_controller opts (metadata_formatize items) w) =
    Ok (final_catalog (w_files w !! abspath w (controller opts)) items).
Proof.
  unfold add_controller, os_path_exists, json_load_file, bind, controller_usable.
  destruct (w_files w !! abspath w (controller opts)) as [[v|]|] eqn:Hf.
  - destruct v; try done. intros _.
    rewrite bool_decide_eq_true_2 by by eexists. cbn beta iota. by rewrite Hf.
  - done.
  - intros _. rewrite bool_decide_eq_false_2 by by intros [? ?].
    by destruct (logging_info_ok "Controller not found." [] w) as (w' & -> & _).
Qed.

Lemma compare_and_write_files opts merged w :
  w_readonly w (abspath w (output opts)) = false ->
  w_files w !! abspath w (output opts) <> Some FileText ->
  exists w',
    compare_and_write opts merged w = (Ok tt, w') /\
    w_http w' = w_http w /\ w_cwd w' = w_cwd w /\ w_readonly w' = w_readonly w /\
    w_files w' =
      match w_files w !! abspath w (output opts) with
      | Some (FileJson existing) =>
          if py_eq existing merged then w_files w
          else <[abspath w (output opts) := FileJson merged]> (w_files w)
      | _ => <[abspath w (output opts) := FileJson merged]> (w_files w)
      end /\
    ((exists existing,
        w_files w !! abspath w (output opts) = Some (FileJson existing) /\
        py_eq existing merged = true) -> quiet w w').
Proof.
  intros Hro Hout.
  pose proof (compare_and_write_cases opts merged w Hro) as [Hwrite Hsame].
  destruct (w_files w !! abspath w (output opts)) as [[e|]|] eqn:Hf; [|done|];
    cbn beta iota.
  - destruct (py_eq e merged) eqn:Heq.
    + destruct Hsame as (w' & Hrun & Hq); [by exists e|].
      exists w'. split; [done|].
      pose proof Hq as (Hhttp & Hfiles & Hread & Hcwd & _).
      do 4 (split; [done|]). by intros _.
    + destruct Hwrite as (w' & Hrun & Hw); [right; by exists e|].
      exists w'. split; [done|].
      destruct Hw as (Hhttp & Hfiles & Hread & Hcwd & _).
      do 4 (split; [done|]). intros (e' & [= <-] & He'). congruence.
  - destruct Hwrite as (w' & Hrun & Hw); [by left|].
    exists w'. split; [done|].
    destruct Hw as (Hhttp & Hfiles & Hread & Hcwd & _).
    do 4 (split; [done|]). by intros (e' & [=] & _).
Qed.

Lemma main_run w items w1 :
  w_handlers w = [] ->
  (initialize_logging ;; aggregate) w = (Ok items, w1) ->
  controller_usable (w_files w !! controller_path w) ->
  w_files w !! output_path w <> Some FileText ->
  w_readonly w (output_path w) = false ->
  exists w',
    main w = (Ok tt, w') /\
    w_handlers w' = [] /\ w_http w' = w_http w /\ w_cwd w' = w_cwd w /\
    w_readonly w' = w_readonly w /\
    w_files w' =
      files_after_run w (final_catalog (w_files w !! controller_path w) items) /\
    (up_to_date w (final_catalog (w_files w !! controller_path w) items) ->
     exists evs, w_events w' = w_events w ++ evs /\
                 Forall (fun e => is_write e = false) evs).
Proof.
  intros Hh Hagg Hctl Hout Hro.
  set (w0 := set_logging [ExitOnExceptionHandler] INFO w).
  assert (initialize_logging w = (Ok tt, w0)) as Hinit
    by (unfold initialize_logging; by rewrite Hh).
  rewrite (bind_ok _ _ _ _ _ Hinit) in Hagg.
  assert (exit_on_error w0) as Hex0 by done.
  pose proof (read_only_run _ _ _ _ read_only_aggregate Hagg) as Hq1.
  pose proof (aggregate_nonempty _ _ _ Hex0 Hagg) as Hne.
  set (opts := {| output := os_path_join (w_cwd w) ["catalog"; LIST_JSON];
                  controller := os_path_join (w_cwd w)
                                  [".github"; "get_predefined_de"; CONTROLLER_JSON] |}).
  assert (check_prerequisite w0 = (Ok opts, w0)) as Hcheck by done.
  destruct (logging_info_ok "----------------------------------------" [] w1)
    as (w2 & E2 & Q2).
  destruct items as [|item items]; [done|].
  destruct (logging_info_ok "Consolidating all list.json files into '{}'..."
              [JStr (output opts)] w2) as (w3 & E3 & Q3).
  destruct (logging_info_ok "Total consolidated design examples: {}"
              [JNum (Z.of_nat (List.length (item :: items)))] w3) as (w4 & E4 & Q4).
  assert (quiet w0 w4) as Q04
    by exact (quiet_trans _ _ _ Hq1 (quiet_trans _ _ _ Q2 (quiet_trans _ _ _ Q3 Q4))).
  assert (forall p, w_files w4 !! abspath w4 p = w_files w !! abspath w p) as Hl4.
  { intros p. by rewrite (quiet_lookup _ _ _ Q04). }
  set (c := final_catalog (w_files w !! controller_path w) (item :: items)) in *.
  destruct (replace_if_diff_unfold opts (metadata_formatize (item :: items)) c w4)
    as (w5 & Q5 & E5).
  { rewrite add_controller_usable; [by rewrite Hl4 | by rewrite Hl4]. }
  assert (quiet w0 w5) as Q05 by by eapply quiet_trans.
  assert (abspath w5 (output opts) = output_path w) as Hp5
    by by rewrite (quiet_abspath _ _ _ Q05).
  pose proof Q05 as (Hhttp5 & Hf5 & Hro5 & Hcwd5 & _).
  destruct (compare_and_write_files opts c w5)
    as (w6 & E6 & Hhttp6 & Hcwd6 & Hro6 & Hf6 & Hq6).
  { by rewrite Hp5, Hro5. }
  { by rewrite Hp5, Hf5. }
  rewrite Hp5, Hf5 in Hf6, Hq6.
  exists (set_logging [] (w_level w6) w6). split; [|split; [done|]].
  - unfold main.
    rewrite (bind_ok _ _ _ _ _ Hinit), (bind_ok _ _ _ _ _ Hcheck).
    erewrite bind_ok; [done|].
    unfold get_design_examples.
    rewrite (bind_ok _ _ _ _ _ Hagg), (bind_ok _ _ _ _ _ E2).
    by rewrite (bind_ok _ _ _ _ _ E3), (bind_ok _ _ _ _ _ E4), E5.
  - cbn [w_http w_cwd w_readonly w_files w_events set_logging].
    split; [by rewrite Hhttp6, Hhttp5|]. split; [by rewrite Hcwd6, Hcwd5|].
    split; [by rewrite Hro6, Hro5|]. split; [done|].
    intros Hup. specialize (Hq6 Hup).
    pose proof (quiet_trans _ _ _ Q05 Hq6) as (_ & _ & _ & _ & _ & _ & Hev). exact Hev.
Qed.

(** X15: a run from a fresh process that gathers the items [items], with
    a controller file that is absent or holds an object, an output path
    the file system lets it write and an output file that is absent or
    holds JSON, returns normally with the handlers closed; the output
    file then holds the catalog of these items with the controller
    applied, written only if the file was absent or held a different
    value, and no other file has changed. *)
Theorem main_succeeds (w w1 : world) (items : list json) :
  w_handlers w = [] ->
  (initialize_logging ;; aggregate) w = (Ok items, w1) ->
  controller_usable (w_files w !! controller_path w) ->
  w_files w !! output_path w <> Some FileText ->
  w_readonly w (output_path w) = false ->
  exists w',
    main w = (Ok tt, w') /\
    w_files w' =
      files_after_run w (final_catalog (w_files w !! controller_path w) items) /\
    w_handlers w' = [].
Proof.
  intros Hh Hagg Hctl Hout Hro.
  destruct (main_run w items w1 Hh Hagg Hctl Hout Hro)
    as (w' & Hrun & Hh' & _ & _ & _ & Hf & _).
  by exists w'.
Qed.

Lemma main_succeeds_witness :
  exists w',
    main fresh_two_items_world = (Ok tt, w') /\
    w_files w' =
      files_after_run fresh_two_items_world
        (final_catalog (w_files fresh_two_items_world !!
                          controller_path fresh_two_items_world)
           (aggregated_items fresh_two_items_world)) /\
    w_handlers w' = [].
Proof.
  apply (main_succeeds fresh_two_items_world
           (snd ((initialize_logging ;; aggregate) fresh_two_items_world))).
  - reflexivity.
  - vm_compute. reflexivity.
  - vm_compute. exact I.
  - vm_compute. discriminate.
  - reflexivity.
Defined.

(** ** The JSON validator *)

Lemma quiet_plain_logger w w' : quiet w w' -> plain_logger w -> plain_logger w'.
Proof.
  intros (_ & _ & _ & _ & _ & Hh & _) [Hne Hno]. unfold plain_logger, no_exit_handler.
  by rewrite (Hh Hne).
Qed.

Lemma log_and_exit {A} level msg args code w :
  plain_logger w ->
  exists w', (logging_log level msg args ;; @json_validator.sys_exit A code) w =
               (Raise (SystemExit code), w') /\ quiet w w'.
Proof.
  intros [_ Hno].
  destruct (logging_log_ok level msg args w) as (w' & Hlog & Hq); [by right|].
  exists w'. split; [|done]. by rewrite (bind_ok _ _ _ _ _ Hlog).
Qed.

Lemma read_json_file_cases p w :
  plain_logger w ->
  match w_files w !! abspath w p with
  | Some (FileJson v) => json_validator.read_json_file p w = (Ok v, w)
  | _ => exists w', json_validator.read_json_file p w = (Raise (SystemExit 1), w') /\
                    quiet w w'
  end.
Proof.
  intros Hpl. unfold json_validator.read_json_file, try_except, json_load_file.
  destruct (w_files w !! abspath w p) as [[v|]|]; [done| |];
    cbn [is_FileNotFoundError is_JSONDecodeError orb]; by apply log_and_exit.
Qed.

Lemma validator_check_prerequisite opts w :
  plain_logger w ->
  (forall data schema,
     json_validator.json_data opts <> "" -> json_validator.json_schema opts <> "" ->
     w_files w !! abspath w (json_validator.json_data opts) = Some (FileJson data) ->
     w_files w !! abspath w (json_validator.json_schema opts) = Some (FileJson schema) ->
     json_validator.check_prerequisite opts w = (Ok (data, schema), w)) /\
  ((forall data schema,
      json_validator.json_data opts <> "" -> json_validator.json_schema opts <> "" ->
      w_files w !! abspath w (json_validator.json_data opts) = Some (FileJson data) ->
      w_files w !! abspath w (json_validator.json_schema opts) = Some (FileJson schema) ->
      False) ->
   exists w', json_validator.check_prerequisite opts w = (Raise (SystemExit 1), w') /\
              quiet w w').
Proof.
  intros Hpl. unfold json_validator.check_prerequisite.
  pose proof (read_json_file_cases (json_validator.json_data opts) w Hpl) as Hd.
  pose proof (read_json_file_cases (json_validator.json_schema opts) w Hpl) as Hs.
  split.
  - intros data schema Hdn Hsn Hfd Hfs. rewrite Hfd in Hd. rewrite Hfs in Hs.
    apply String.eqb_neq in Hdn, Hsn. rewrite Hdn, Hsn. cbn [negb].
    by rewrite (bind_ok _ _ _ _ _ Hd), (bind_ok _ _ _ _ _ Hs).
  - intros Hnot.
    destruct (String.eqb_spec (json_validator.json_data opts) "") as [Hde|Hdn]; cbn [negb].
    { destruct (@log_and_exit json ERROR "Missing JSON data file. Please specify --data." []
                  1 w Hpl) as (w' & Hrun & Hq).
      exists w'. split; [|done]. by erewrite bind_raise. }
    destruct (w_files w !! abspath w (json_validator.json_data opts)) as [[data|]|] eqn:Hfd.
    2,3: destruct Hd as (w' & Hrun & Hq); exists w'; split; [|done]; by erewrite bind_raise.
    rewrite (bind_ok _ _ _ _ _ Hd).
    destruct (String.eqb_spec (json_validator.json_schema opts) "") as [Hse|Hsn]; cbn [negb].
    { destruct (@log_and_exit json ERROR
                  "Missing JSON schema file. Please specify --schema." [] 1 w Hpl) as (w' & Hrun & Hq).
      exists w'. split; [|done]. by erewrite bind_raise. }
    destruct (w_files w !! abspath w (json_validator.json_schema opts)) as [[schema|]|] eqn:Hfs.
    2,3: destruct Hs as (w' & Hrun & Hq); exists w'; split; [|done]; by erewrite bind_raise.
    destruct (Hnot data schema); done.
Qed.

Lemma validate_json_cases validate data schema w :
  plain_logger w ->
  exists w', quiet w w' /\
    json_validator.validate_json validate data schema w =
      (match validate data schema with
       | json_validator.Valid => Ok tt
       | _ => Raise (SystemExit 1)
       end, w').
Proof.
  intros Hpl. unfold json_validator.validate_json.
  destruct (validate data schema).
  - destruct (logging_info_ok "JSON validation pass: JSON is valid." [] w)
      as (w' & Hlog & Hq).
    exists w'. split; [done|]. unfold try_except. by rewrite Hlog.
  - destruct (@log_and_exit unit INFO "JSON validation error: {}" [] 1 w Hpl) as (w' & Hrun & Hq).
    by exists w'.
  - destruct (@log_and_exit unit ERROR "Unexpected error during JSON validation: {}" [] 1
                w Hpl)
      as (w' & Hrun & Hq).
    by exists w'.
Qed.

(** X16: the exit status of the validator, run from a fresh process: it
    returns normally exactly when both options are given, both files
    hold JSON and [jsonschema.validate] accepts the instance; in every
    other case it ends with exit status 1.  It changes no file. *)
Theorem validator_exit_status (validate : json -> json -> json_validator.validation)
    (opts : json_validator.options) (w : world) :
  w_handlers w = [] ->
  (json_validator.valid_input validate opts w ->
   fst (json_validator.main validate opts w) = Ok tt) /\
  (~ json_validator.valid_input validate opts w ->
   fst (json_validator.main validate opts w) = Raise (SystemExit 1)) /\
  w_files (snd (json_validator.main validate opts w)) = w_files w.
Proof.
  intros Hh.
  set (w0 := set_logging [StreamHandler] json_validator.DEBUG w).
  assert (json_validator.configure_logging w = (Ok tt, w0)) as Hconf
    by (unfold json_validator.configure_logging; by rewrite Hh).
  assert (plain_logger w0) as Hpl.
  { split; [done|]. unfold no_exit_handler. simpl.
    by intros [=]%list_elem_of_singleton. }
  unfold json_validator.main. rewrite (bind_ok _ _ _ _ _ Hconf).
  destruct (validator_check_prerequisite opts w0 Hpl) as [Hgood Hbad].
  assert (forall data schema,
            json_validator.check_prerequisite opts w0 = (Ok (data, schema), w0) ->
            (validate data schema = json_validator.Valid ->
             fst ((parsed <- json_validator.check_prerequisite opts ;;
                   json_validator.validate_json validate (fst parsed) (snd parsed) ;;
                   json_validator.close_logging) w0) = Ok tt) /\
            (validate data schema <> json_validator.Valid ->
             fst ((parsed <- json_validator.check_prerequisite opts ;;
                   json_validator.validate_json validate (fst parsed) (snd parsed) ;;
                   json_validator.close_logging) w0) = Raise (SystemExit 1)) /\
            w_files (snd ((parsed <- json_validator.check_prerequisite opts ;;
                   json_validator.validate_json validate (fst parsed) (snd parsed) ;;
                   json_validator.close_logging) w0)) = w_files w) as Hrest.
  { intros data schema Hcheck. rewrite (bind_ok _ _ _ _ _ Hcheck). cbn [fst snd].
    destruct (validate_json_cases validate data schema w0 Hpl) as (w1 & Hq & Hval).
    unfold bind. rewrite Hval.
    destruct Hq as (_ & Hf & _).
    destruct (validate data schema); repeat split; done. }
  change (json_validator.valid_input validate opts w) with
    (json_validator.valid_input validate opts w0).
  unfold json_validator.valid_input.
  destruct (w_files w0 !! abspath w0 (json_validator.json_data opts))
    as [[data|]|] eqn:Hfd;
  destruct (w_files w0 !! abspath w0 (json_validator.json_schema opts))
    as [[schema|]|] eqn:Hfs;
  destruct (String.eqb_spec (json_validator.json_data opts) "") as [Hde|Hdn];
  destruct (String.eqb_spec (json_validator.json_schema opts) "") as [Hse|Hsn];
  try (destruct Hbad as (w1 & Hrun & Hq); [intros ? ? ? ? ? ?; congruence|];
       rewrite (bind_raise _ _ _ _ _ Hrun);
       destruct Hq as (_ & Hf & _);
       split; [intros (? & ? & ? & ? & ? & ? & ?); congruence|];
       by split).
  destruct (Hrest data schema (Hgood data schema Hdn Hsn eq_refl eq_refl))
    as (Hv & Hnv & Hf).
  split; [|split; [|done]].
  - intros (d & s & _ & _ & [= <-] & [= <-] & Hval). by apply Hv.
  - intros Hnot. apply Hnv. intros Hval. apply Hnot. by exists data, schema.
Qed.

Lemma validator_exit_status_witness :
  (json_validator.valid_input json_validator.objects_only
     json_validator.example_options json_validator.example_world ->
   fst (json_validator.main json_validator.objects_only
          json_validator.example_options json_validator.example_world) = Ok tt) /\
  (~ json_validator.valid_input json_validator.objects_only
       json_validator.example_options json_validator.example_world ->
   fst (json_validator.main json_validator.objects_only
          json_validator.example_options json_validator.example_world) =
     Raise (SystemExit 1)) /\
  w_files (snd (json_validator.main json_validator.objects_only
                  json_validator.example_options json_validator.example_world)) =
    w_files json_validator.example_world.
Proof.
  apply (validator_exit_status json_validator.objects_only
           json_validator.example_options json_validator.example_world).
  reflexivity.
Defined.

(** ** A repository whose releases carry items *)












(** ** What a run depends on *)

Lemma respects_ret {A} (a : A) : respects (ret a).
Proof. by intros w1 w2 Hs. Qed.

Lemma respects_raise {A} e : respects (@raise A e).
Proof. by intros w1 w2 Hs. Qed.

Lemma respects_lift {A} (o : outcome A) : respects (lift o).
Proof. by intros w1 w2 Hs. Qed.

Lemma respects_bind {A B} (m : M A) (k : A -> M B) :
  respects m -> (forall a, respects (k a)) -> respects (bind m k).
Proof.
  intros Hm Hk w1 w2 Hs. unfold bind. destruct (Hm w1 w2 Hs) as [Hfst Hsnd].
  destruct (m w1) as [[a|e] w1'], (m w2) as [[a'|e'] w2']; simpl in *; try done.
  - injection Hfst as <-. by apply Hk.
  - by injection Hfst as <-.
Qed.

Lemma respects_try {A} (body : M A) catches handler :
  respects body -> (forall e, respects (handler e)) ->
  respects (try_except body catches handler).
Proof.
  intros Hm Hk w1 w2 Hs. unfold try_except. destruct (Hm w1 w2 Hs) as [Hfst Hsnd].
  destruct (body w1) as [[a|e] w1'], (body w2) as [[a'|e'] w2']; simpl in *; try done.
  injection Hfst as <-. destruct (catches e); [by apply Hk | done].
Qed.

Lemma respects_mapM {A B} (f : A -> M B) l :
  (forall a, respects (f a)) -> respects (mapM f l).
Proof.
  intros Hf. induction l as [|x l IH]; simpl.
  - apply respects_ret.
  - apply respects_bind; [apply Hf | intros y].
    apply respects_bind; [apply IH | intros ys]. apply respects_ret.
Qed.

Lemma respects_foldM {A S} (f : S -> A -> M S) l s :
  (forall s a, respects (f s a)) -> respects (foldM f l s).
Proof.
  intros Hf. revert s. induction l as [|x l IH]; intros s; simpl.
  - apply respects_ret.
  - apply respects_bind; [apply Hf | intros s']. apply IH.
Qed.

Lemma similar_add_event e1 e2 w1 w2 :
  similar w1 w2 -> similar (add_event e1 w1) (add_event e2 w2).
Proof. by intros (? & ? & ? & ? & ?). Qed.

Lemma respects_emit h level msg args : respects (emit h level msg args).
Proof.
  intros w1 w2 Hs. unfold emit.
  destruct h; [|destruct (_ || _)]; simpl; (split; [done | by apply similar_add_event]).
Qed.

Lemma respects_call_handlers hs level msg args :
  respects (call_handlers hs level msg args).
Proof.
  induction hs as [|h hs IH]; simpl.
  - apply respects_ret.
  - apply respects_bind; [apply respects_emit | intros _; apply IH].
Qed.

Lemma respects_logging_log level msg args : respects (logging_log level msg args).
Proof.
  intros w1 w2 Hs. unfold logging_log.
  pose proof Hs as (Hhttp & Hcwd & Hh & Hl & Hf).
  rewrite Hh. destruct (w_handlers w2) as [|h hs] eqn:Hh2.
  - assert (similar (set_logging [StreamHandler] (w_level w1) w1)
                    (set_logging [StreamHandler] (w_level w2) w2)) as Hs'
      by (by repeat split).
    cbn [w_level w_handlers set_logging]. rewrite Hl.
    destruct (_ <? _); [done|]. by apply respects_call_handlers.
  - rewrite Hl, Hh, Hh2. destruct (_ <? _); [done|]. by apply respects_call_handlers.
Qed.

Lemma respects_requests_get u h : respects (requests_get u h).
Proof.
  destruct u; try apply respects_raise.
  intros w1 w2 Hs. simpl. pose proof Hs as (Hhttp & _). rewrite Hhttp.
  destruct (w_http w2 s h); simpl; (split; [done | by apply similar_add_event]).
Qed.

Ltac rs_step :=
  match goal with
  | |- respects (bind _ _) => apply respects_bind; [|intros ?]
  | |- respects (ret _) => apply respects_ret
  | |- respects (raise _) => apply respects_raise
  | |- respects (lift _) => apply respects_lift
  | |- respects (try_except _ _ _) => apply respects_try; [|intros ?]
  | |- respects (mapM _ _) => apply respects_mapM; intros ?
  | |- respects (foldM _ _ _) => apply respects_foldM; intros ? ?
  | |- respects (logging_log _ _ _) => apply respects_logging_log
  | |- respects (logging_info _ _) => apply respects_logging_log
  | |- respects (logging_warning _ _) => apply respects_logging_log
  | |- respects (logging_error _ _) => apply respects_logging_log
  | |- respects (requests_get _ _) => apply respects_requests_get
  | |- respects (if ?b then _ else _) => destruct b
  | |- respects (match ?x with _ => _ end) => destruct x
  end.

Ltac rs := repeat rs_step.

Lemma respects_raise_for_status r : respects (raise_for_status r).
Proof. unfold raise_for_status. rs. Qed.

Lemma respects_response_json r : respects (response_json r).
Proof. unfold response_json. rs. Qed.

Lemma respects_json_loads_text r : respects (json_loads_text r).
Proof. unfold json_loads_text. rs. Qed.

Lemma respects_get_design_examples_list data :
  respects (get_design_examples_list data).
Proof. unfold get_design_examples_list. rs. Qed.

Lemma respects_fetch_github_releases owner name h :
  respects (fetch_github_releases owner name h).
Proof.
  unfold fetch_github_releases. rs.
  - apply respects_raise_for_status.
  - apply respects_response_json.
Qed.

Lemma respects_process_asset release st asset :
  respects (process_asset release st asset).
Proof.
  unfold process_asset. rs.
  - apply respects_raise_for_status.
  - apply respects_response_json.
  - apply respects_get_design_examples_list.
Qed.

Lemma respects_enrich_item d release maps item :
  respects (enrich_item d release maps item).
Proof. unfold enrich_item. rs. Qed.

Lemma respects_process_release d acc release :
  respects (process_release d acc release).
Proof.
  unfold process_release. rs.
  - apply respects_process_asset.
  - apply respects_enrich_item.
Qed.

Lemma respects_process_github_url d : respects (process_github_url d).
Proof.
  unfold process_github_url. rs.
  - apply respects_fetch_github_releases.
  - apply respects_process_release.
Qed.

Lemma respects_with_download_url item : respects (with_download_url item).
Proof. unfold with_download_url. rs. Qed.

Lemma respects_process_non_github_url d : respects (process_non_github_url d).
Proof.
  unfold process_non_github_url. rs.
  - apply respects_json_loads_text.
  - apply respects_get_design_examples_list.
  - apply respects_with_download_url.
Qed.

Lemma respects_process_url d : respects (process_url d).
Proof.
  unfold process_url. rs;
    [apply respects_process_github_url | apply respects_process_non_github_url].
Qed.

Lemma respects_process_source acc d : respects (process_source acc d).
Proof. unfold process_source. rs. apply respects_process_url. Qed.

Lemma respects_get_predefined_url : respects get_predefined_url.
Proof.
  assert (Herr : forall e urls msg1 msg2 msg3 a1 a2 a3,
    respects (if is_FileNotFoundError e then logging_error msg1 a1 ;; ret urls
              else if is_JSONDecodeError e then logging_error msg2 a2 ;; ret urls
              else if is_Exception e then logging_error msg3 a3 ;; ret urls
              else raise e : M (list json))).
  { intros. rs. }
  intros w1 w2 Hs. unfold get_predefined_url, json_load_file.
  pose proof Hs as (_ & _ & _ & _ & Hf). rewrite Hf.
  destruct (w_files w2 !! abspath w2 PREDEFINED_URL_FILE) as [[data|]|].
  - destruct (py_iter data) as [items|e]; [|by apply Herr].
    destruct (collect_urls _ _) as [urls [[]|e]]; [done | by apply Herr].
  - by apply Herr.
  - by apply Herr.
Qed.

Lemma respects_aggregate : respects aggregate.
Proof.
  unfold aggregate. rs.
  - apply respects_get_predefined_url.
  - apply respects_process_source.
Qed.

(** X18: what the loop over the sources gathers depends on the network,
    the configuration file, the working directory and the logging
    configuration only: in two worlds that agree on these, whatever
    their other files hold and whatever happened before, the loop ends
    the same way, with the same items or the same exception. *)
Theorem aggregate_depends_on (w1 w2 : world) :
  similar w1 w2 -> fst (aggregate w1) = fst (aggregate w2).
Proof. intros Hs. by apply respects_aggregate. Qed.

Lemma aggregate_depends_on_witness :
  fst (aggregate two_items_world) = fst (aggregate stale_two_items_world).
Proof.
  apply (aggregate_depends_on two_items_world stale_two_items_world).
  split; [reflexivity|]. split; [reflexivity|]. split; [reflexivity|].
  split; [reflexivity|]. vm_compute. reflexivity.
Defined.

(** ** The paths of a run are three different files *)

Lemma str_suffix_inj (a b x y : string) :
  a +:+ x = b +:+ y -> String.length x = String.length y -> x = y.
Proof.
  revert b; induction a as [|c a IH]; intros [|c' b]; simpl.
  - done.
  - intros -> Hlen. cbn [String.length] in Hlen. rewrite str_length_app in Hlen. lia.
  - intros <- Hlen. cbn [String.length] in Hlen. rewrite str_length_app in Hlen. lia.
  - intros [= _ Heq] Hlen. by apply (IH b).
Qed.

Lemma os_path_join2_suffix a b : exists x, os_path_join2 a b = x +:+ b.
Proof.
  unfold os_path_join2. destruct (String.prefix "/" b); [by exists ""|].
  destruct (_ || _); [by exists a|].
  exists (a +:+ "/"). by rewrite str_app_assoc.
Qed.

Lemma output_path_suffix w : exists x, output_path w = x +:+ "list.json".
Proof.
  unfold output_path, abspath, os_path_join. cbn [fold_left].
  destruct (os_path_join2_suffix (w_cwd w)
              (os_path_join2 (os_path_join2 (w_cwd w) "catalog") LIST_JSON)) as [x ->].
  destruct (os_path_join2_suffix (os_path_join2 (w_cwd w) "catalog") LIST_JSON) as [y ->].
  exists (x +:+ y). by rewrite str_app_assoc.
Qed.

Lemma controller_path_suffix w : exists x, controller_path w = x +:+ "ller.json".
Proof.
  unfold controller_path, abspath, os_path_join. cbn [fold_left].
  match goal with
  | |- context [os_path_join2 (w_cwd w) (os_path_join2 ?a CONTROLLER_JSON)] =>
      destruct (os_path_join2_suffix (w_cwd w) (os_path_join2 a CONTROLLER_JSON))
        as [x ->];
      destruct (os_path_join2_suffix a CONTROLLER_JSON) as [y ->]
  end.
  exists (x +:+ y +:+ "contro"). by rewrite !str_app_assoc.
Qed.

Lemma configuration_path_suffix w :
  exists x, abspath w PREDEFINED_URL_FILE = x +:+ "_url.json".
Proof.
  unfold abspath.
  destruct (os_path_join2_suffix (w_cwd w) PREDEFINED_URL_FILE) as [x ->].
  exists (x +:+ "predefined"). by rewrite !str_app_assoc.
Qed.

Lemma output_path_not_configuration w : output_path w <> abspath w PREDEFINED_URL_FILE.
Proof.
  destruct (output_path_suffix w) as [x ->].
  destruct (configuration_path_suffix w) as [y ->].
  by intros ?%str_suffix_inj.
Qed.

Lemma output_path_not_controller w : output_path w <> controller_path w.
Proof.
  destruct (output_path_suffix w) as [x ->].
  destruct (controller_path_suffix w) as [y ->].
  by intros ?%str_suffix_inj.
Qed.

(** X19: for every world, the catalog, the controller file and the
    configuration file of a run are three different files, whatever the
    working directory: a run that writes the catalog overwrites neither
    its configuration nor its controller. *)
Theorem run_paths_differ (w : world) :
  output_path w <> abspath w PREDEFINED_URL_FILE /\
  output_path w <> controller_path w /\
  controller_path w <> abspath w PREDEFINED_URL_FILE.
Proof.
  split; [apply output_path_not_configuration|].
  split; [apply output_path_not_controller|].
  destruct (controller_path_suffix w) as [x ->].
  destruct (configuration_path_suffix w) as [y ->].
  by intros ?%str_suffix_inj.
Qed.

(** ** A second run *)

Lemma files_after_run_other w c p :
  p <> output_path w -> files_after_run w c !! p = w_files w !! p.
Proof.
  intros Hp. unfold files_after_run.
  destruct (w_files w !! output_path w) as [[e|]|]; [destruct (py_eq e c); [done|]| |];
    by rewrite lookup_insert_ne.
Qed.

Lemma files_after_run_up_to_date w c :
  up_to_date w c -> files_after_run w c = w_files w.
Proof. intros (e & Hf & He). unfold files_after_run. by rewrite Hf, He. Qed.

Lemma up_to_date_after_run w w' c :
  wf_json c -> w_cwd w' = w_cwd w -> w_files w' = files_after_run w c ->
  up_to_date w' c.
Proof.
  intros Hwf Hcwd Hf. unfold up_to_date.
  assert (output_path w' = output_path w) as ->
    by (unfold output_path, abspath; by rewrite Hcwd).
  rewrite Hf. unfold files_after_run.
  destruct (w_files w !! output_path w) as [[e|]|] eqn:Hout.
  - destruct (py_eq e c) eqn:He.
    + by exists e.
    + exists c. rewrite lookup_insert_eq. split; [done | by apply py_eq_refl].
  - exists c. rewrite lookup_insert_eq. split; [done | by apply py_eq_refl].
  - exists c. rewrite lookup_insert_eq. split; [done | by apply py_eq_refl].
Qed.

(** X20: a second run finds nothing to do.  After a run from a fresh
    process that gathered items and persisted the catalog, a run from a
    fresh process in the world the first one left, with the network
    answering as before, gathers the same items, returns normally and
    writes nothing: no file changes and the trace has no write.  (The
    catalog has distinct keys at every depth, as every value parsed from
    JSON has.) *)
Theorem second_run_writes_nothing (w w1 : world) (items : list json) :
  w_handlers w = [] ->
  (initialize_logging ;; aggregate) w = (Ok items, w1) ->
  controller_usable (w_files w !! controller_path w) ->
  w_files w !! output_path w <> Some FileText ->
  w_readonly w (output_path w) = false ->
  wf_json (final_catalog (w_files w !! controller_path w) items) ->
  exists w' w'',
    main w = (Ok tt, w') /\ main w' = (Ok tt, w'') /\
    w_files w'' = w_files w' /\
    exists evs, w_events w'' = w_events w' ++ evs /\
                Forall (fun e => is_write e = false) evs.
Proof.
  intros Hh Hagg Hctl Hout Hro Hwf.
  destruct (main_run w items w1 Hh Hagg Hctl Hout Hro)
    as (w' & Hrun & Hh' & Hhttp & Hcwd & Hread & Hf & _).
  set (c := final_catalog (w_files w !! controller_path w) items) in *.
  assert (output_path w' = output_path w) as Hop
    by (unfold output_path, abspath; by rewrite Hcwd).
  assert (controller_path w' = controller_path w) as Hcp
    by (unfold controller_path, abspath; by rewrite Hcwd).
  assert (abspath w' PREDEFINED_URL_FILE = abspath w PREDEFINED_URL_FILE) as Hpp
    by (unfold abspath; by rewrite Hcwd).
  assert (w_files w' !! controller_path w' = w_files w !! controller_path w) as Hctl'.
  { rewrite Hcp, Hf. apply files_after_run_other.
    intros Heq. by apply (output_path_not_controller w). }
  assert (w_files w' !! abspath w' PREDEFINED_URL_FILE =
          w_files w !! abspath w PREDEFINED_URL_FILE) as Hcfg'.
  { rewrite Hpp, Hf. apply files_after_run_other.
    intros Heq. by apply (output_path_not_configuration w). }
  pose proof (up_to_date_after_run w w' c Hwf Hcwd Hf) as Hup.
  assert (exists w1', (initialize_logging ;; aggregate) w' = (Ok items, w1'))
    as [w1' Hagg'].
  { assert (initialize_logging w = (Ok tt, set_logging [ExitOnExceptionHandler] INFO w))
      as Hinit by (unfold initialize_logging; by rewrite Hh).
    assert (initialize_logging w' = (Ok tt, set_logging [ExitOnExceptionHandler] INFO w'))
      as Hinit' by (unfold initialize_logging; by rewrite Hh').
    rewrite (bind_ok _ _ _ _ _ Hinit) in Hagg. rewrite (bind_ok _ _ _ _ _ Hinit').
    destruct (respects_aggregate (set_logging [ExitOnExceptionHandler] INFO w')
                (set_logging [ExitOnExceptionHandler] INFO w)) as [Hfst _].
    { by repeat split. }
    rewrite Hagg in Hfst.
    destruct (aggregate (set_logging [ExitOnExceptionHandler] INFO w')) as [r w1'].
    cbn [fst] in Hfst. subst r. by exists w1'. }
  destruct (main_run w' items w1' Hh' Hagg') as (w'' & Hrun' & _ & _ & _ & _ & Hf' & Hev').
  { by rewrite Hctl'. }
  { destruct Hup as (e & -> & _). done. }
  { by rewrite Hop, Hread. }
  rewrite Hctl' in Hf', Hev'. fold c in Hf', Hev'.
  exists w', w''. split; [done|]. split; [done|].
  split; [by rewrite Hf', files_after_run_up_to_date | by apply Hev'].
Qed.

Lemma second_run_writes_nothing_witness :
  exists w' w'',
    main fresh_two_items_world = (Ok tt, w') /\ main w' = (Ok tt, w'') /\
    w_files w'' = w_files w' /\
    exists evs, w_events w'' = w_events w' ++ evs /\
                Forall (fun e => is_write e = false) evs.
Proof.
  apply (second_run_writes_nothing fresh_two_items_world
           (snd ((initialize_logging ;; aggregate) fresh_two_items_world))
           (aggregated_items fresh_two_items_world)).
  - reflexivity.
  - vm_compute. reflexivity.
  - vm_compute. exact I.
  - vm_compute. discriminate.
  - reflexivity.
  - vm_compute. repeat split; repeat constructor; intros H;
      repeat (apply elem_of_cons in H as [H|H]; [discriminate|]);
      by apply elem_of_nil in H.
Defined.

(** ** A source URL that is not a text *)

Lemma extract_url_detail_raises u e :
  extract_url_detail u = Raise e ->
  e = AttributeError \/ e = TypeError \/ e = ValueError.
Proof.
  destruct u as [| b | n | s | l | kvs]; unfold extract_url_detail;
    try (intros [= <-]; repeat case_match; by auto).
  destruct (urlparse s) as [p|e'] eqn:Hp; [by destruct (repo_of_path _)|].
  intros [= <-]. unfold urlparse in Hp. cbv zeta in Hp.
  repeat case_match; simplify_eq; by auto.
Qed.

Lemma extract_url_details_not_a_string urls :
  (exists u, u ∈ urls /\ forall s, u <> JStr s) ->
  exists e, extract_url_details urls = Raise e /\
            (e = AttributeError \/ e = TypeError \/ e = ValueError).
Proof.
  intros (u & Hin & Hu). induction urls as [|u0 urls IH]; [by apply elem_of_nil in Hin|].
  simpl. destruct (extract_url_detail u0) as [d|e] eqn:Hd.
  - apply elem_of_cons in Hin as [->|Hin].
    + destruct u0; try done. by destruct (Hu s).
    + destruct (IH Hin) as (e & -> & He). by exists e.
  - exists e. split; [done|]. by eapply extract_url_detail_raises.
Qed.

(** X21: a configuration entry whose [url] is not a text ends the run
    with an exception of Python's own ([AttributeError], [TypeError] or
    [ValueError], no exit status of the tool) before any source is
    asked: nothing is requested, logged or written, also for the valid
    sources listed before it. *)
Theorem main_url_not_a_string (w : world) (items : list json) :
  w_handlers w = [] ->
  w_files w !! abspath w PREDEFINED_URL_FILE = Some (FileJson (JArr items)) ->
  Forall is_object items ->
  (exists u, u ∈ configured_urls items /\ forall s, u <> JStr s) ->
  exists e,
    main w = (Raise e, set_logging [ExitOnExceptionHandler] INFO w) /\
    is_Exception e = true /\
    (e = AttributeError \/ e = TypeError \/ e = ValueError).
Proof.
  intros Hh Hfile Hitems (u & Hin & Hu).
  set (w0 := set_logging [ExitOnExceptionHandler] INFO w).
  destruct (extract_url_details_not_a_string
              (get_legacy_predefined_url ++ configured_urls items)) as (e & Hraise & He).
  { exists u. split; [|done]. apply elem_of_app. by right. }
  exists e. split; [|split; [|done]; by destruct He as [-> | [-> | ->] ] ]. unfold main.
  erewrite bind_ok; [|unfold initialize_logging; by rewrite Hh].
  erewrite bind_ok; [|reflexivity].
  erewrite bind_raise; [done|]. unfold get_design_examples.
  erewrite bind_raise; [done|]. unfold aggregate.
  erewrite bind_ok; [|by apply (get_predefined_url_objects w0)].
  erewrite bind_raise; [done|]. unfold lift. by rewrite Hraise.
Qed.

Lemma main_url_not_a_string_witness :
  exists e,
    main number_url_world =
      (Raise e, set_logging [ExitOnExceptionHandler] INFO number_url_world) /\
    is_Exception e = true /\
    (e = AttributeError \/ e = TypeError \/ e = ValueError).
Proof.
  apply (main_url_not_a_string number_url_world [JObj [("url", JNum 7)]]).
  - reflexivity.
  - reflexivity.
  - repeat constructor. by eexists.
  - exists (JNum 7). split; [|discriminate]. simpl. apply elem_of_cons. by left.
Defined.

(** ** The image rewriter, tag by tag *)

Lemma re_star_longest cl k s t m :
  re_star cl k s = Some (t, m) ->
  forall t' s',
    s = t' +:+ s' -> str_forall (cclass_match cl) t' = true ->
    (exists m', k s' = Some m') ->
    (String.length t' <= String.length t)%nat.
Proof.
  revert t; induction s as [|c s IH]; intros t Hstar t' s' Hs Ht' [m' Hk].
  - destruct t'; [simpl; lia | done].
  - destruct t' as [|c' t']; [simpl; lia|].
    simpl in Hs. injection Hs as <- ->.
    simpl in Ht'. apply andb_true_iff in Ht' as [Hc Ht'].
    simpl in Hstar. rewrite Hc in Hstar.
    destruct (re_star cl k (t' +:+ s')) as [[t0 m0]|] eqn:Hrec.
    + injection Hstar as <- <-. simpl.
      pose proof (IH t0 eq_refl t' s' eq_refl Ht' (ex_intro _ m' Hk)). lia.
    + destruct (re_star_complete cl k t' s' m' Ht' Hk) as [r Hr]. congruence.
Qed.

Lemma re_match_here_lit_star l cl p s :
  re_match_here (Plain (Lit l) :: Plain (Star cl) :: p) s =
  match str_strip_prefix l s with
  | Some s1 =>
      match re_star cl (re_match_here p) s1 with
      | Some (t, m) => Some ((false, l) :: (false, t) :: m)
      | None => None
      end
  | None => None
  end.
Proof.
  cbn [re_match_here rtok_atom rtok_is_group].
  destruct (str_strip_prefix l s) as [s1|]; [|done].
  by destruct (re_star cl _ s1) as [[t m]|].
Qed.

Lemma img_tag_text_app before src after rest :
  img_tag_text before src after +:+ rest =
  "<img " +:+ (before +:+ ("src=" +:+ String dquote
                 (src +:+ String dquote (after +:+ String ">" rest)))).
Proof.
  unfold img_tag_text, quoted. rewrite !str_app_assoc. simpl.
  do 5 f_equal. rewrite !str_app_assoc. by simpl.
Qed.

Lemma str_app_inj_length (a b x y : string) :
  a +:+ x = b +:+ y -> String.length a = String.length b -> a = b /\ x = y.
Proof.
  revert b; induction a as [|c a IH]; intros [|c' b]; simpl; try done.
  intros [= -> Heq] [= Hlen]. destruct (IH b Heq Hlen) as [-> ->]. done.
Qed.

Lemma str_until_char (c : ascii) (a b x y : string) :
  a +:+ String c x = b +:+ String c y ->
  str_without c a -> str_without c b -> a = b /\ x = y.
Proof.
  unfold str_without.
  revert b; induction a as [|c1 a IH]; intros [|c2 b]; simpl.
  - by intros [= ->].
  - intros [= <- _] _ Hb. by rewrite Ascii.eqb_refl in Hb.
  - intros [= -> _] Ha _. by rewrite Ascii.eqb_refl in Ha.
  - intros [= -> Heq] [_ Ha]%andb_true_iff [_ Hb]%andb_true_iff.
    destruct (IH b Heq Ha Hb) as [-> ->]. done.
Qed.

(** The reading of the tag at the beginning of a text is unique. *)
Lemma img_tag_at_functional s tag src rest tag' src' rest' :
  img_tag_at s tag src rest -> img_tag_at s tag' src' rest' ->
  tag = tag' /\ src = src' /\ rest = rest'.
Proof.
  intros [b x a r (Hb & Hx & Hxq & Ha) Hs Hmax]
         [b' x' a' r' (Hb' & Hx' & Hxq' & Ha') Hs' Hmax'].
  assert (String.length b = String.length b') as Hlen.
  { apply Nat.le_antisymm.
    - by eapply (Hmax' b x a r).
    - by eapply (Hmax b' x' a' r'). }
  rewrite Hs, !img_tag_text_app in Hs'.
  apply str_app_inv_head in Hs'.
  apply str_app_inj_length in Hs' as [-> Hs']; [|done].
  simpl in Hs'. injection Hs' as Hs'.
  apply str_until_char in Hs' as [-> Hs']; [|done..].
  apply str_until_char in Hs' as [-> ->]; [|done..].
  done.
Qed.

Lemma img_tag_at_head s tag src rest :
  img_tag_at s tag src rest -> exists g, tag = String "<" g /\ s = String "<" (g +:+ rest).
Proof. intros [b x a r _ -> _]. unfold img_tag_text. by eexists. Qed.

(** A match of the pattern is the tag at the beginning of the text. *)
Lemma img_pattern_match_at s m :
  re_match_here img_pattern s = Some m ->
  exists rest, img_tag_at s (group0 m) (group1 m) rest.
Proof.
  intros Hm.
  pose proof (re_match_here_sound _ _ _ Hm) as (Hg & Hok & rest & Hrest).
  do 7 (destruct m as [|[? ?] m]; [done|]). destruct m; [|done].
  simpl in Hg. injection Hg as -> -> -> -> -> -> ->.
  simpl in Hok.
  repeat match goal with
         | H : Forall2 _ (_ :: _) (_ :: _) |- _ => apply Forall2_cons in H as [? H]
         end.
  cbn [atom_ok] in *. subst.
  match goal with
  | H : _ <> "" /\ _ |- _ => destruct H as [Hne Hsrc]
  end.
  match goal with
  | |- exists r, img_tag_at _ (group0 ?mm) _ r =>
      match mm with
      | [_; (_, ?b); _; (_, ?x); _; (_, ?a); _] =>
          assert (group0 mm = img_tag_text b x a) as Hg0
            by (unfold group0; cbn [map snd]; by rewrite img_tag_pieces);
          rewrite Hg0 in Hm |- *; cbn [group1]; exists rest;
          apply (img_tag_at_intro _ b x a rest);
            [split; [done|split; [done|split; done]] | done |]
      end
  end.
  intros b' x' a' r' (Hb' & Hx' & Hxq' & Ha') Hs'.
  unfold img_pattern in Hm. rewrite re_match_here_lit_star in Hm.
  rewrite Hs', img_tag_text_app in Hm.
  rewrite (proj2 (str_strip_prefix_app "<img " _ _) eq_refl) in Hm.
  match type of Hm with
  | context [re_star ?cl ?k ?s1] =>
      destruct (re_star cl k s1) as [[t m1]|] eqn:Hstar; [|done]
  end.
  injection Hm as -> _.
  eapply (re_star_longest _ _ _ _ _ Hstar b'); [done | done |].
  pose proof (re_match_here_complete
                [Plain (Lit ("src=" +:+ String dquote ""));
                 Group (Plus (AnyBut dquote));
                 Plain (Lit (String dquote ""));
                 Plain (Star (AnyBut ">"));
                 Plain (Lit ">")]
                ["src=" +:+ String dquote ""; x'; String dquote ""; a'; ">"] r')
    as [m' Hm'].
  { repeat constructor; done. }
  exists m'. rewrite <- Hm'. f_equal. simpl. rewrite !str_app_assoc. simpl.
  by rewrite !str_app_assoc.
Qed.

(** The pattern matches wherever an image tag begins. *)
Lemma img_pattern_complete s :
  starts_with_img_tag s -> exists m, re_match_here img_pattern s = Some m.
Proof.
  intros (tag & src & rest & [b x a r (Hb & Hx & Hxq & Ha) -> _]).
  unfold img_tag_text. rewrite <- img_tag_pieces. apply re_match_here_complete.
  repeat constructor; done.
Qed.

Lemma use_raw_image_url_rewritten repo_id n text :
  (String.length text <= n)%nat ->
  rewritten repo_id text (re_sub_from img_pattern (replace_with_raw repo_id) O text).
Proof.
  revert text; induction n as [|n IH]; intros [|c s] Hlen;
    try (simpl in Hlen; lia); try constructor.
  rewrite re_sub_from_cons.
  destruct (re_match_here img_pattern (String c s)) as [m|] eqn:Hm.
  - destruct (img_pattern_match_at _ _ Hm) as [rest Hat].
    destruct (img_tag_at_head _ _ _ _ Hat) as (g & Hg & Hs).
    injection Hs as -> ->.
    rewrite Hg. cbn [String.length Nat.pred]. rewrite re_sub_from_skip.
    change (replace_with_raw repo_id m)
      with (rewrite_tag repo_id (group0 m) (group1 m)).
    eapply rewritten_tag; [exact Hat|].
    apply IH. simpl in Hlen. rewrite str_length_app in Hlen. lia.
  - apply rewritten_copy.
    + intros Hstart. apply img_pattern_complete in Hstart as [m' Hm']. congruence.
    + apply IH. simpl in Hlen. lia.
Qed.

(** The text and the repository id fix the rewritten text. *)
Lemma rewritten_functional repo_id text out1 out2 :
  rewritten repo_id text out1 -> rewritten repo_id text out2 -> out1 = out2.
Proof.
  intros H1. revert out2.
  induction H1 as [|c s out Hno Hrest IH|s tag src rest out Htag Hrest IH];
    intros out2 H2.
  - inversion H2 as [| |s' tag' src' rest' out' Htag' Hrest']; [done|].
    destruct (img_tag_at_head _ _ _ _ Htag') as (g & _ & [=]).
  - inversion H2 as [|c' s' out' Hno' Hrest'|s' tag' src' rest' out' Htag' Hrest'];
      subst.
    + f_equal. by apply IH.
    + destruct Hno. by exists tag', src', rest'.
  - inversion H2 as [|c' s' out' Hno' Hrest'|s' tag' src' rest' out' Htag' Hrest'];
      subst.
    + destruct (img_tag_at_head _ _ _ _ Htag) as (g & _ & [=]).
    + destruct Hno'. by exists tag, src, rest.
    + destruct (img_tag_at_functional _ _ _ _ _ _ _ Htag Htag') as (-> & -> & ->).
      f_equal. by apply IH.
Qed.

(** X22: what the image rewriter computes, for every text and
    repository id.  The output is the one text obtained from the input
    from left to right by copying every character at which no image tag
    begins and by putting, for an image tag, the tag with every
    occurrence of its source replaced by the raw-content URL when the
    source contains [github.com] and the repository id, and the tag
    itself otherwise; the tag and its source are read as the pattern
    reads them, the source being the last quoted value after [src=]
    before the closing [>].  The raw-content URL of a source is the
    fixed prefix followed by what comes after the first [github.com/]
    of the source (the whole source when there is none), then after the
    first [@] of that if there is one, with every [blob/] removed. *)
Theorem use_raw_image_url_characterised (text repo_id : string) :
  (forall out, rewritten repo_id text out <-> out = use_raw_image_url text repo_id) /\
  (forall src, exists r1 r2,
     after_first "github.com/" src r1 /\ after_first "@" r1 r2 /\
     convert_to_raw_github_url src =
       "https://raw.githubusercontent.com/" +:+ str_replace "blob/" "" r2).
Proof.
  assert (rewritten repo_id text (use_raw_image_url text repo_id)) as Hfun
    by by eapply use_raw_image_url_rewritten.
  split.
  - intros out. split.
    + intros Hout. by eapply rewritten_functional.
    + by intros ->.
  - intros src. eexists _, _. split; [apply last_part_split1|].
    split; [apply last_part_split1 | done].
Qed.

(** A tag with a [src] and a [data-src]: the source the rewriter tests
    is the value of the [data-src], so the tag has one rewriting only,
    itself. *)
Example rewritten_reads_the_last_source (out : string) :
  let tag :=
    "<img src=" +:+ quoted "https://github.com/intel/example/blob/main/x.png" +:+
    " data-src=" +:+ quoted "https://cdn.example/y.png" +:+ ">" in
  rewritten "intel/example" tag out <-> out = tag.
Proof.
  intros tag.
  assert (rewritten "intel/example" tag tag) as Hfun.
  { assert (use_raw_image_url tag "intel/example" = tag) as Heq by by vm_compute.
    rewrite <- Heq at 2. by eapply use_raw_image_url_rewritten. }
  split; [intros Hout; by eapply rewritten_functional | by intros ->].
Qed.
